(** * The territory game's rules engine and resource ticker

    A shallow embedding of the game-state engine of [PeerContext]
    ([initializeGameState], [startGame], [updateResources], [claimTile],
    [buildConstruct], [demolishConstruct]) and of the entity model it works
    on, followed by the properties of the engine.

    Conventions of the embedding.

    - A JavaScript [number] that holds a resource amount or a rate ([gold],
      [units], [goldRate], [unitRate], [goldCost], [unitCost]) is an exact
      rational ([Q]) in the rules engine, whose results do not depend on
      rounding.  The resource ticker adds fractions, where rounding shows:
      module [Binary64] embeds it on IEEE binary64 numbers (primitive
      floats), and what is proved of accrued amounts is proved there.
      Array indices, coordinates, [defenseBonus] and timestamps are integers
      ([Z]).
    - [T | null] is [option T].
    - [Record<string, Player>] is an association list in insertion order
      (the order [Object.keys], [Object.values] and [Object.entries] follow
      for keys that are uuid strings).  A JavaScript object has no two equal
      keys; [roster_wf] records that.  A loop over [Object.keys(o)] that
      reads and writes [o[key]] visits the entries of [o] in order.
    - A function that can raise an uncaught [TypeError] (reading a property of
      [undefined]) returns [option]: [None] is the exception.
    - [JSON.parse (JSON.stringify s)] is the identity on snapshots.
    - Broadcasting and the [localStorage] mirror do not feed back into the
      value the functions compute and are left out. *)

From Stdlib Require Import ZArith QArith String List Lia PrimFloat.
From stdpp Require Import base option list strings.

Local Open Scope string_scope.
Local Open Scope list_scope.
Local Open Scope Z_scope.

(** ** Entity model *)

Inductive Faction := HUMANS | ALIENS | ROBOTS.

Inductive ConstructType := GOLD | UNIT | DEFENSE | NONE.

Definition Faction_eqb (a b : Faction) : bool :=
  match a, b with
  | HUMANS, HUMANS | ALIENS, ALIENS | ROBOTS, ROBOTS => true
  | _, _ => false
  end.

(** The anonymous [{ x: number; y: number }] of [Player.tiles]. *)
Module Coord.
Record t := mk { x : Z; y : Z }.
End Coord.

Module Player.
Record t := mk {
  id : string;
  name : string;
  isReady : bool;
  color : string;
  faction : Faction;
  gold : Q;
  units : Q;
  goldRate : Q;
  unitRate : Q;
  tiles : list Coord.t
}.

Definition set_gold (v : Q) (p : t) : t :=
  mk (id p) (name p) (isReady p) (color p) (faction p)
     v (units p) (goldRate p) (unitRate p) (tiles p).
Definition set_units (v : Q) (p : t) : t :=
  mk (id p) (name p) (isReady p) (color p) (faction p)
     (gold p) v (goldRate p) (unitRate p) (tiles p).
Definition set_goldRate (v : Q) (p : t) : t :=
  mk (id p) (name p) (isReady p) (color p) (faction p)
     (gold p) (units p) v (unitRate p) (tiles p).
Definition set_unitRate (v : Q) (p : t) : t :=
  mk (id p) (name p) (isReady p) (color p) (faction p)
     (gold p) (units p) (goldRate p) v (tiles p).
Definition set_tiles (v : list Coord.t) (p : t) : t :=
  mk (id p) (name p) (isReady p) (color p) (faction p)
     (gold p) (units p) (goldRate p) (unitRate p) v.
End Player.

Module Construct.
Record t := mk { type : ConstructType; ownerId : option string }.
End Construct.

Module Tile.
Record t := mk {
  x : Z;
  y : Z;
  ownerId : option string;
  color : option string;
  construct : option Construct.t;
  defenseBonus : Z
}.

Definition set_ownerId (v : option string) (c : t) : t :=
  mk (x c) (y c) v (color c) (construct c) (defenseBonus c).
Definition set_color (v : option string) (c : t) : t :=
  mk (x c) (y c) (ownerId c) v (construct c) (defenseBonus c).
Definition set_construct (v : option Construct.t) (c : t) : t :=
  mk (x c) (y c) (ownerId c) (color c) v (defenseBonus c).
Definition set_defenseBonus (v : Z) (c : t) : t :=
  mk (x c) (y c) (ownerId c) (color c) (construct c) v.
End Tile.

Abbreviation Grid := (list (list Tile.t)).
Abbreviation Roster := (list (string * Player.t)).

Module GameState.
Record t := mk {
  gameStarted : bool;
  currentTurn : option string;
  grid : Grid;
  players : Roster;
  gameEndTime : option Z;
  gameOver : bool;
  winner : option string
}.

Definition set_grid (v : Grid) (s : t) : t :=
  mk (gameStarted s) (currentTurn s) v (players s)
     (gameEndTime s) (gameOver s) (winner s).
Definition set_players (v : Roster) (s : t) : t :=
  mk (gameStarted s) (currentTurn s) (grid s) v
     (gameEndTime s) (gameOver s) (winner s).
Definition set_gameOver (v : bool) (s : t) : t :=
  mk (gameStarted s) (currentTurn s) (grid s) (players s)
     (gameEndTime s) v (winner s).
Definition set_winner (v : option string) (s : t) : t :=
  mk (gameStarted s) (currentTurn s) (grid s) (players s)
     (gameEndTime s) (gameOver s) v.
End GameState.

Module LobbyState.
Record t := mk {
  lobbyId : string;
  players : Roster;
  host : string;
  gameStarted : bool
}.
End LobbyState.

(** The two React state cells of the provider. *)
Record Store := mkStore {
  lobbyState : option LobbyState.t;
  gameState : option GameState.t
}.

Definition GRID_SIZE : Z := 24.
Definition MAX_PLAYERS : nat := 3.
Definition GAME_DURATION_MS : Z := 5 * 60 * 1000.

Definition baseColor (f : Faction) : string :=
  match f with
  | HUMANS => "#3498db"
  | ALIENS => "#2ecc71"
  | ROBOTS => "#e74c3c"
  end.

(** The player literal of [createLobby] and [joinLobby]. *)
Definition new_player (myId playerName color : string) (faction : Faction)
  : Player.t :=
  Player.mk myId playerName false color faction 0%Q 0%Q 1%Q 0%Q [].

(** ** JavaScript values *)

(** [a < b] on numbers. *)
Definition num_lt (a b : Q) : bool :=
  match Qcompare a b with Lt => true | _ => false end.

(** [o === k] for a [string | null] and a string. *)
Definition is_id (o : option string) (k : string) : bool :=
  match o with
  | Some o' => String.eqb o' k
  | None => false
  end.

(** [arr[i]]: [undefined] outside the array. *)
Definition arr_get {A} (l : list A) (i : Z) : option A :=
  if i <? 0 then None else l !! Z.to_nat i.

(** In-place change of [arr[i]], for an index that is in the array. *)
Definition arr_alter {A} (f : A → A) (i : Z) (l : list A) : list A :=
  if i <? 0 then l else alter f (Z.to_nat i) l.

(** [grid[y][x]] when the row exists. *)
Definition grid_at (g : Grid) (x y : Z) : option Tile.t :=
  row ← arr_get g y; arr_get row x.

Definition grid_alter (f : Tile.t → Tile.t) (x y : Z) (g : Grid) : Grid :=
  arr_alter (arr_alter f x) y g.

(** [players[k]]. *)
Fixpoint lookup_player (k : string) (ps : Roster) : option Player.t :=
  match ps with
  | [] => None
  | (k', p) :: rest => if String.eqb k' k then Some p else lookup_player k rest
  end.

(** In-place change of the record [players[k]]. *)
Fixpoint alter_player (f : Player.t → Player.t) (k : string) (ps : Roster)
  : Roster :=
  match ps with
  | [] => []
  | (k', p) :: rest =>
      if String.eqb k' k then (k', f p) :: rest
      else (k', p) :: alter_player f k rest
  end.

(** [obj[k] = v] on a [Record<string, V>]: replaces in place, or appends. *)
Fixpoint obj_set {V} (k : string) (v : V) (o : list (string * V))
  : list (string * V) :=
  match o with
  | [] => [(k, v)]
  | (k', v') :: rest =>
      if String.eqb k' k then (k', v) :: rest
      else (k', v') :: obj_set k v rest
  end.

Definition roster_keys (ps : Roster) : list string := ps.*1.
Definition roster_values (ps : Roster) : list Player.t := ps.*2.

(** What the object representation guarantees, and what every insertion into
    a roster ([players[player.id] = player]) keeps. *)
Definition roster_wf (ps : Roster) : Prop :=
  NoDup (roster_keys ps) ∧ ∀ k p, (k, p) ∈ ps → Player.id p = k.

(** ** Game-start initialization *)

Definition emptyTile (x y : Z) : Tile.t := Tile.mk x y None None None 0.

(** [Array(GRID_SIZE).fill(null).map((_, y) => Array(GRID_SIZE).fill(null).map((_, x) => ...))] *)
Definition emptyGrid : Grid :=
  (λ y, (λ x, emptyTile x y) <$> seqZ 0 GRID_SIZE) <$> seqZ 0 GRID_SIZE.

Definition startingPositions : list Coord.t :=
  [ Coord.mk 3 3;
    Coord.mk (GRID_SIZE - 4) (GRID_SIZE - 4);
    Coord.mk 3 (GRID_SIZE - 4) ].

(** The body of [playerIds.forEach((playerId, index) => ...)].  The loop
    enumerates the keys of [players] and reads and writes [players[playerId]]:
    it visits the entries of the roster in order. *)
Definition place_player (index : nat) (grid : Grid) (entry : string * Player.t)
  : Grid * (string * Player.t) :=
  let '(playerId, player) := entry in
  match startingPositions !! index with
  | Some pos =>
      let grid1 :=
        grid_alter (Tile.set_ownerId (Some playerId))
                   (Coord.x pos) (Coord.y pos) grid in
      let grid2 :=
        grid_alter (Tile.set_color (Some (Player.color player)))
                   (Coord.x pos) (Coord.y pos) grid1 in
      let player1 := Player.set_tiles [Coord.mk (Coord.x pos) (Coord.y pos)] player in
      let player2 :=
        if Faction_eqb (Player.faction player1) ALIENS
        then Player.set_unitRate 1%Q player1
        else player1 in
      (grid2, (playerId, player2))
  | None => (grid, entry)
  end.

Fixpoint forEach_place (index : nat) (grid : Grid) (entries : Roster)
  : Grid * Roster :=
  match entries with
  | [] => (grid, [])
  | entry :: rest =>
      let '(grid1, entry1) := place_player index grid entry in
      let '(grid2, rest2) := forEach_place (S index) grid1 rest in
      (grid2, entry1 :: rest2)
  end.

(** [now] is the value of [Date.now()]. *)
Definition initializeGameState (now : Z) (players : Roster) : GameState.t :=
  let playerIds := roster_keys players in
  let '(grid, players1) := forEach_place 0 emptyGrid players in
  GameState.mk true (head playerIds) grid players1
               (Some (now + GAME_DURATION_MS)) false None.

(** [initializeGameState] writes into the player records of
    [lobbyState.players] themselves, so the lobby sees the same roster. *)
Definition startGame (now : Z) (st : Store) : Store :=
  match lobbyState st with
  | None => st
  | Some lobby =>
      let newGameState := initializeGameState now (LobbyState.players lobby) in
      mkStore
        (Some (LobbyState.mk (LobbyState.lobbyId lobby)
                             (GameState.players newGameState)
                             (LobbyState.host lobby) true))
        (Some newGameState)
  end.

(** ** Resource ticker *)

(** [gameState.gameEndTime && currentTime >= gameState.gameEndTime]: a
    timestamp of 0 is falsy, like [null]. *)
Definition time_is_up (now : Z) (gs : GameState.t) : bool :=
  match GameState.gameEndTime gs with
  | Some t => negb (t =? 0) && (t <=? now)
  | None => false
  end.

Definition count_tiles (ps : Roster) : list (string * nat) :=
  fold_left (λ scores '(playerId, p),
               obj_set playerId (length (Player.tiles p)) scores) ps [].

Definition find_max_step (acc : nat * option string) (entry : string * nat)
  : nat * option string :=
  let '(maxScore, winner) := acc in
  let '(playerId, score) := entry in
  if Nat.ltb maxScore score then (score, Some playerId) else (maxScore, winner).

Definition find_max (scores : list (string * nat)) : nat * option string :=
  fold_left find_max_step scores (0%nat, None).

Definition accrue (player : Player.t) : Player.t :=
  if Nat.eqb (length (Player.tiles player)) 0 then player
  else
    let player1 :=
      Player.set_gold (Player.gold player + Player.goldRate player / 10)%Q player in
    Player.set_units (Player.units player1 + Player.unitRate player1 / 10)%Q player1.

(** One firing of the interval callback, on the snapshot it closes over. *)
Definition updateResources (now : Z) (gs : GameState.t) : GameState.t :=
  if time_is_up now gs then
    let scores := count_tiles (GameState.players gs) in
    let winner := (find_max scores).2 in
    GameState.set_winner winner (GameState.set_gameOver true gs)
  else
    GameState.set_players (prod_map id accrue <$> GameState.players gs) gs.

(** ** Claiming a tile *)

(** [tile.ownerId !== null && tile.ownerId !== myId] *)
Definition is_contested (tile : Tile.t) (myId : string) : bool :=
  match Tile.ownerId tile with
  | Some o => negb (String.eqb o myId)
  | None => false
  end.

Definition adjacent_to (x y : Z) (playerTile : Coord.t) : bool :=
  ((Z.abs (Coord.x playerTile - x) =? 1) && (Coord.y playerTile =? y))
  || ((Z.abs (Coord.y playerTile - y) =? 1) && (Coord.x playerTile =? x)).

Definition is_active (p : Player.t) : bool :=
  Nat.ltb 0 (length (Player.tiles p)).

Definition activePlayers (gs : GameState.t) : list Player.t :=
  List.filter is_active (roster_values (GameState.players gs)).

Definition check_elimination (gs : GameState.t) : GameState.t :=
  match activePlayers gs with
  | [p] => GameState.set_winner (Some (Player.id p)) (GameState.set_gameOver true gs)
  | _ => gs
  end.

(** Removes the tile from the previous owner's list; reading [.tiles] of a
    previous owner who is not in the roster is a [TypeError]. *)
Definition drop_from_owner (tile : Tile.t) (myId : string) (x y : Z)
  (ps : Roster) : option Roster :=
  match Tile.ownerId tile with
  | Some o =>
      if negb (String.eqb o myId) then
        _ ← lookup_player o ps;
        Some (alter_player
                (λ previousOwner,
                   Player.set_tiles
                     (List.filter (λ t, negb ((Coord.x t =? x) && (Coord.y t =? y)))
                                  (Player.tiles previousOwner))
                     previousOwner)
                o ps)
      else Some ps
  | None => Some ps
  end.

Definition claimTile_on (myId : string) (gameState : GameState.t)
  (x y : Z) (goldCost unitCost : Q) : option (bool * GameState.t) :=
  row ← arr_get (GameState.grid gameState) y;
  let tile := arr_get row x in
  player ← lookup_player myId (GameState.players gameState);
  if num_lt (Player.gold player) goldCost then Some (false, gameState) else
  tile ← tile;
  if is_contested tile myId && num_lt (Player.units player) unitCost
  then Some (false, gameState) else
  let isAdjacent := existsb (adjacent_to x y) (Player.tiles player) in
  if negb isAdjacent then Some (false, gameState) else
  let players1 :=
    alter_player (λ p, Player.set_gold (Player.gold p - goldCost)%Q p)
                 myId (GameState.players gameState) in
  let players2 :=
    if is_contested tile myId
    then alter_player (λ p, Player.set_units (Player.units p - unitCost)%Q p)
                      myId players1
    else players1 in
  players3 ← drop_from_owner tile myId x y players2;
  let grid1 :=
    grid_alter (Tile.set_ownerId (Some myId)) x y (GameState.grid gameState) in
  let grid2 :=
    grid_alter (Tile.set_color (Some (Player.color player))) x y grid1 in
  let players4 :=
    alter_player (λ p, Player.set_tiles (Player.tiles p ++ [Coord.mk x y]) p)
                 myId players3 in
  let updatedGameState :=
    GameState.set_players players4 (GameState.set_grid grid2 gameState) in
  Some (true, check_elimination updatedGameState).

(** The action as the provider exposes it: [myId] and the two state cells
    are what the closure captures. *)
Definition claimTile (myId : string) (st : Store)
  (x y : Z) (goldCost unitCost : Q) : option (bool * Store) :=
  match gameState st, lobbyState st with
  | Some gs, Some _ =>
      match claimTile_on myId gs x y goldCost unitCost with
      | Some (true, updatedGameState) =>
          Some (true, mkStore (lobbyState st) (Some updatedGameState))
      | Some (false, _) => Some (false, st)
      | None => None
      end
  | _, _ => Some (false, st)
  end.

(** ** Constructs *)

Definition construct_cost (constructType : ConstructType) : option Q :=
  match constructType with
  | GOLD => Some 20%Q
  | UNIT => Some 15%Q
  | DEFENSE => Some 25%Q
  | NONE => None
  end.

Definition buildConstruct_on (myId : string) (gameState : GameState.t)
  (x y : Z) (constructType : ConstructType) : option (bool * GameState.t) :=
  row ← arr_get (GameState.grid gameState) y;
  tile ← arr_get row x;
  if negb (is_id (Tile.ownerId tile) myId) then Some (false, gameState) else
  if bool_decide (is_Some (Tile.construct tile)) then Some (false, gameState) else
  match construct_cost constructType with
  | None => Some (false, gameState)
  | Some goldCost =>
      player ← lookup_player myId (GameState.players gameState);
      if num_lt (Player.gold player) goldCost then Some (false, gameState) else
      let players1 :=
        alter_player (λ p, Player.set_gold (Player.gold p - goldCost)%Q p)
                     myId (GameState.players gameState) in
      let grid1 :=
        grid_alter (Tile.set_construct (Some (Construct.mk constructType (Some myId))))
                   x y (GameState.grid gameState) in
      let '(grid2, players2) :=
        match constructType with
        | GOLD =>
            (grid1, alter_player (λ p, Player.set_goldRate (Player.goldRate p + 1)%Q p)
                                 myId players1)
        | UNIT =>
            (grid1, alter_player (λ p, Player.set_unitRate (Player.unitRate p + 1)%Q p)
                                 myId players1)
        | DEFENSE => (grid_alter (Tile.set_defenseBonus 10) x y grid1, players1)
        | NONE => (grid1, players1)
        end in
      Some (true, GameState.set_players players2 (GameState.set_grid grid2 gameState))
  end.

Definition buildConstruct (myId : string) (st : Store)
  (x y : Z) (constructType : ConstructType) : option (bool * Store) :=
  match gameState st, lobbyState st with
  | Some gs, Some _ =>
      match buildConstruct_on myId gs x y constructType with
      | Some (true, updatedGameState) =>
          Some (true, mkStore (lobbyState st) (Some updatedGameState))
      | Some (false, _) => Some (false, st)
      | None => None
      end
  | _, _ => Some (false, st)
  end.

Definition demolishConstruct_on (myId : string) (gameState : GameState.t)
  (x y : Z) : option (bool * GameState.t) :=
  row ← arr_get (GameState.grid gameState) y;
  tile ← arr_get row x;
  if negb (is_id (Tile.ownerId tile) myId) then Some (false, gameState) else
  match Tile.construct tile with
  | None => Some (false, gameState)
  | Some construct =>
      '(grid1, players1) ←
        match Construct.type construct with
        | GOLD =>
            _ ← lookup_player myId (GameState.players gameState);
            Some (GameState.grid gameState,
                  alter_player (λ p, Player.set_goldRate (Player.goldRate p - 1)%Q p)
                               myId (GameState.players gameState))
        | UNIT =>
            _ ← lookup_player myId (GameState.players gameState);
            Some (GameState.grid gameState,
                  alter_player (λ p, Player.set_unitRate (Player.unitRate p - 1)%Q p)
                               myId (GameState.players gameState))
        | DEFENSE =>
            Some (grid_alter (Tile.set_defenseBonus 0) x y (GameState.grid gameState),
                  GameState.players gameState)
        | NONE => Some (GameState.grid gameState, GameState.players gameState)
        end;
      let grid2 := grid_alter (Tile.set_construct None) x y grid1 in
      Some (true, GameState.set_players players1 (GameState.set_grid grid2 gameState))
  end.

Definition demolishConstruct (myId : string) (st : Store) (x y : Z)
  : option (bool * Store) :=
  match gameState st, lobbyState st with
  | Some gs, Some _ =>
      match demolishConstruct_on myId gs x y with
      | Some (true, updatedGameState) =>
          Some (true, mkStore (lobbyState st) (Some updatedGameState))
      | Some (false, _) => Some (false, st)
      | None => None
      end
  | _, _ => Some (false, st)
  end.

(** ** Snapshots the engine can produce *)

(** Tile [(x, y)] of the grid belongs to [k]. *)
Definition owns (gs : GameState.t) (k : string) (x y : Z) : Prop :=
  ∃ t, grid_at (GameState.grid gs) x y = Some t ∧ Tile.ownerId t = Some k.

(** [player.tiles], read as a set, is the set of the grid's tiles whose
    [ownerId] is the player's id. *)
Definition tiles_match_grid (gs : GameState.t) : Prop :=
  ∀ k p, (k, p) ∈ GameState.players gs →
    ∀ x y, Coord.mk x y ∈ Player.tiles p ↔ owns gs (Player.id p) x y.

Definition snapshot_ok (gs : GameState.t) : Prop :=
  roster_wf (GameState.players gs) ∧ tiles_match_grid gs.

(** A roster as the lobby hands it to [startGame]: players beyond those who
    get a starting position hold no tiles ([createLobby], [joinLobby] and
    [resetGame] all store [tiles: []]). *)
Definition lobby_roster (ps : Roster) : Prop :=
  roster_wf ps ∧
  ∀ i k p, ps !! i = Some (k, p) → (length startingPositions ≤ i)%nat →
           Player.tiles p = [].

(** Snapshots reachable from a game start by actions of any participant and
    by ticks.  A participant that receives a message replaces its snapshot
    by the sender's, which is one of these. *)
Inductive reachable : GameState.t → Prop :=
  | reach_start now ps :
      lobby_roster ps → reachable (initializeGameState now ps)
  | reach_claim gs me x y goldCost unitCost gs1 :
      reachable gs →
      claimTile_on me gs x y goldCost unitCost = Some (true, gs1) →
      reachable gs1
  | reach_build gs me x y constructType gs1 :
      reachable gs →
      buildConstruct_on me gs x y constructType = Some (true, gs1) →
      reachable gs1
  | reach_demolish gs me x y gs1 :
      reachable gs →
      demolishConstruct_on me gs x y = Some (true, gs1) →
      reachable gs1
  | reach_tick gs now :
      reachable gs → GameState.gameOver gs = false →
      reachable (updateResources now gs).

(** ** The records a successful claim leaves *)

(** The actor's record: gold paid, units paid for a contested tile, the
    tile appended. *)
Definition actor_after (contested : bool) (goldCost unitCost : Q) (x y : Z)
  (player : Player.t) : Player.t :=
  Player.mk (Player.id player) (Player.name player) (Player.isReady player)
    (Player.color player) (Player.faction player)
    (Player.gold player - goldCost)%Q
    (if contested then (Player.units player - unitCost)%Q else Player.units player)
    (Player.goldRate player) (Player.unitRate player)
    (Player.tiles player ++ [Coord.mk x y]).

(** The previous owner's record: only the tile list changes. *)
Definition loser_after (x y : Z) (prev : Player.t) : Player.t :=
  Player.mk (Player.id prev) (Player.name prev) (Player.isReady prev)
    (Player.color prev) (Player.faction prev)
    (Player.gold prev) (Player.units prev)
    (Player.goldRate prev) (Player.unitRate prev)
    (List.filter (λ t, negb ((Coord.x t =? x) && (Coord.y t =? y)))
                 (Player.tiles prev)).

(** The claimed tile: only owner and colour change. *)
Definition tile_after (myId : string) (player : Player.t) (tile : Tile.t)
  : Tile.t :=
  Tile.mk (Tile.x tile) (Tile.y tile) (Some myId) (Some (Player.color player))
          (Tile.construct tile) (Tile.defenseBonus tile).

(** ** The records a successful build or demolition leaves *)

Definition built_player (constructType : ConstructType) (goldCost : Q)
  (player : Player.t) : Player.t :=
  Player.mk (Player.id player) (Player.name player) (Player.isReady player)
    (Player.color player) (Player.faction player)
    (Player.gold player - goldCost)%Q (Player.units player)
    (match constructType with
     | GOLD => (Player.goldRate player + 1)%Q
     | _ => Player.goldRate player
     end)
    (match constructType with
     | UNIT => (Player.unitRate player + 1)%Q
     | _ => Player.unitRate player
     end)
    (Player.tiles player).

Definition built_tile (myId : string) (constructType : ConstructType)
  (tile : Tile.t) : Tile.t :=
  Tile.mk (Tile.x tile) (Tile.y tile) (Tile.ownerId tile) (Tile.color tile)
    (Some (Construct.mk constructType (Some myId)))
    (match constructType with
     | DEFENSE => 10
     | _ => Tile.defenseBonus tile
     end).

Definition demolished_player (constructType : ConstructType)
  (player : Player.t) : Player.t :=
  Player.mk (Player.id player) (Player.name player) (Player.isReady player)
    (Player.color player) (Player.faction player)
    (Player.gold player) (Player.units player)
    (match constructType with
     | GOLD => (Player.goldRate player - 1)%Q
     | _ => Player.goldRate player
     end)
    (match constructType with
     | UNIT => (Player.unitRate player - 1)%Q
     | _ => Player.unitRate player
     end)
    (Player.tiles player).

Definition demolished_tile (constructType : ConstructType) (tile : Tile.t)
  : Tile.t :=
  Tile.mk (Tile.x tile) (Tile.y tile) (Tile.ownerId tile) (Tile.color tile)
    None
    (match constructType with
     | DEFENSE => 0
     | _ => Tile.defenseBonus tile
     end).

(** ** The records game start leaves *)

(** A player who received starting position [pos]. *)
Definition placed_player (pos : Coord.t) (player : Player.t) : Player.t :=
  Player.mk (Player.id player) (Player.name player) (Player.isReady player)
    (Player.color player) (Player.faction player)
    (Player.gold player) (Player.units player) (Player.goldRate player)
    (if Faction_eqb (Player.faction player) ALIENS then 1%Q
     else Player.unitRate player)
    [pos].

(** ** The record a tick leaves *)

Definition accrued (player : Player.t) : Player.t :=
  Player.mk (Player.id player) (Player.name player) (Player.isReady player)
    (Player.color player) (Player.faction player)
    (Player.gold player + Player.goldRate player / 10)%Q
    (Player.units player + Player.unitRate player / 10)%Q
    (Player.goldRate player) (Player.unitRate player) (Player.tiles player).

(** ** The resource ticker on IEEE doubles *)

(** The ticker with [gold], [units], [goldRate] and [unitRate] as binary64
    numbers, as JavaScript holds them: [+] and [/] are the rounded operations
    of IEEE 754. *)
Module Binary64.

Module Player.
Record t := mk {
  id : string;
  name : string;
  isReady : bool;
  color : string;
  faction : Faction;
  gold : float;
  units : float;
  goldRate : float;
  unitRate : float;
  tiles : list Coord.t
}.

Definition set_gold (v : float) (p : t) : t :=
  mk (id p) (name p) (isReady p) (color p) (faction p)
     v (units p) (goldRate p) (unitRate p) (tiles p).
Definition set_units (v : float) (p : t) : t :=
  mk (id p) (name p) (isReady p) (color p) (faction p)
     (gold p) v (goldRate p) (unitRate p) (tiles p).
End Player.

Module GameState.
Record t := mk {
  gameStarted : bool;
  currentTurn : option string;
  grid : Grid;
  players : list (string * Player.t);
  gameEndTime : option Z;
  gameOver : bool;
  winner : option string
}.

Definition set_players (v : list (string * Player.t)) (s : t) : t :=
  mk (gameStarted s) (currentTurn s) (grid s) v
     (gameEndTime s) (gameOver s) (winner s).
Definition set_gameOver (v : bool) (s : t) : t :=
  mk (gameStarted s) (currentTurn s) (grid s) (players s)
     (gameEndTime s) v (winner s).
Definition set_winner (v : option string) (s : t) : t :=
  mk (gameStarted s) (currentTurn s) (grid s) (players s)
     (gameEndTime s) (gameOver s) v.
End GameState.

(** [players[k]]. *)
Fixpoint lookup_player (k : string) (ps : list (string * Player.t))
  : option Player.t :=
  match ps with
  | [] => None
  | (k', p) :: rest => if String.eqb k' k then Some p else lookup_player k rest
  end.

(** [gameState.gameEndTime && currentTime >= gameState.gameEndTime] *)
Definition time_is_up (now : Z) (gs : GameState.t) : bool :=
  match GameState.gameEndTime gs with
  | Some t => negb (t =? 0) && (t <=? now)
  | None => false
  end.

Definition count_tiles (ps : list (string * Player.t)) : list (string * nat) :=
  fold_left (λ scores '(playerId, p),
               obj_set playerId (length (Player.tiles p)) scores) ps [].

(** [player.gold += player.goldRate / 10; player.units += player.unitRate / 10],
    skipped for a player without tiles. *)
Definition accrue (player : Player.t) : Player.t :=
  if Nat.eqb (length (Player.tiles player)) 0 then player
  else
    let player1 :=
      Player.set_gold
        (PrimFloat.add (Player.gold player)
                       (PrimFloat.div (Player.goldRate player) 10%float))
        player in
    Player.set_units
      (PrimFloat.add (Player.units player1)
                     (PrimFloat.div (Player.unitRate player1) 10%float))
      player1.

(** One firing of the interval callback, on the snapshot it closes over. *)
Definition updateResources (now : Z) (gs : GameState.t) : GameState.t :=
  if time_is_up now gs then
    let scores := count_tiles (GameState.players gs) in
    let winner := (find_max scores).2 in
    GameState.set_winner winner (GameState.set_gameOver true gs)
  else
    GameState.set_players (prod_map id accrue <$> GameState.players gs) gs.

(** The effect installs the interval only while a game exists and is not
    over. *)
Definition tick (now : Z) (gameState : option GameState.t)
  : option GameState.t :=
  match gameState with
  | Some gs => if GameState.gameOver gs then Some gs
               else Some (updateResources now gs)
  | None => None
  end.

(** The callback firing at each of the given times in turn. *)
Fixpoint run_ticks (times : list Z) (gameState : option GameState.t)
  : option GameState.t :=
  match times with
  | [] => gameState
  | now :: rest => run_ticks rest (tick now gameState)
  end.

(** The record a tick leaves for a player who holds tiles. *)
Definition accrued (player : Player.t) : Player.t :=
  Player.mk (Player.id player) (Player.name player) (Player.isReady player)
    (Player.color player) (Player.faction player)
    (PrimFloat.add (Player.gold player)
                   (PrimFloat.div (Player.goldRate player) 10%float))
    (PrimFloat.add (Player.units player)
                   (PrimFloat.div (Player.unitRate player) 10%float))
    (Player.goldRate player) (Player.unitRate player) (Player.tiles player).

(** A running game on [grid]: Ann holds (3, 3), Bob, an Alien, holds
    (20, 20), both with no gold and a gold rate of 1; Cy holds no tiles. *)
Definition ann : Player.t :=
  Player.mk "ann" "Ann" true (baseColor HUMANS) HUMANS
            0%float 0%float 1%float 0%float [Coord.mk 3 3].
Definition bob : Player.t :=
  Player.mk "bob" "Bob" true (baseColor ALIENS) ALIENS
            0%float 0%float 1%float 1%float [Coord.mk 20 20].
Definition cy : Player.t :=
  Player.mk "cy" "Cy" true (baseColor ROBOTS) ROBOTS
            3%float 2%float 1%float 0%float [].

Definition game_started (grid : Grid) : GameState.t :=
  GameState.mk true (Some "ann") grid [("ann", ann); ("bob", bob); ("cy", cy)]
               (Some 300000) false None.

End Binary64.

(** ** Adjacency *)

(** Tile [c] and tile [(x, y)] are in the same row or the same column, at
    distance 1. *)
Definition four_adjacent (c : Coord.t) (x y : Z) : Prop :=
  (Coord.y c = y ∧ Z.abs (Coord.x c - x) = 1)
  ∨ (Coord.x c = x ∧ Z.abs (Coord.y c - y) = 1).

(** ** Games used in the examples *)

Definition ann : Player.t := new_player "ann" "Ann" (baseColor HUMANS) HUMANS.
Definition bob : Player.t := new_player "bob" "Bob" (baseColor ALIENS) ALIENS.

Definition ann_and_bob : Roster := [("ann", ann); ("bob", bob)].

(** The game right after [startGame] at time 0. *)
Definition game_started : GameState.t := initializeGameState 0 ann_and_bob.

(** One tick later Ann holds a tenth of a gold piece. *)
Definition game_ticked : GameState.t := updateResources 100 game_started.

(** The store after the host, Ann, pressed start at time 0. *)
Definition started_store : Store :=
  startGame 0 (mkStore (Some (LobbyState.mk "lobby1" ann_and_bob "ann" false)) None).

(** The grid that is empty except for owner [A] at (3, 3), and [A] holding
    10 gold. *)
Definition player_A : Player.t :=
  Player.mk "A" "A" true (baseColor HUMANS) HUMANS 10%Q 0%Q 1%Q 0%Q [Coord.mk 3 3].

Definition lone_owner_game : GameState.t :=
  GameState.mk true (Some "A")
    (grid_alter (λ t, Tile.set_color (Some (baseColor HUMANS))
                        (Tile.set_ownerId (Some "A") t)) 3 3 emptyGrid)
    [("A", player_A)] (Some 300000) false None.

Definition a_lobby (ps : Roster) : LobbyState.t := LobbyState.mk "lobby1" ps "A" true.

Definition lone_owner_store : Store :=
  mkStore (Some (a_lobby [("A", player_A)])) (Some lone_owner_game).

(** [A] holds (3, 3), (4, 3) and (5, 4), 12 gold and 16 units; [B] holds
    (5, 5), which carries a defense construct, and (10, 10). *)
Definition rich_A : Player.t :=
  Player.mk "A" "A" true (baseColor HUMANS) HUMANS 12%Q 16%Q 1%Q 0%Q
            [Coord.mk 3 3; Coord.mk 4 3; Coord.mk 5 4].

Definition fort_B : Player.t :=
  Player.mk "B" "B" true (baseColor ROBOTS) ROBOTS 0%Q 0%Q 1%Q 0%Q
            [Coord.mk 5 5; Coord.mk 10 10].

Definition own (k : string) (f : Faction) (t : Tile.t) : Tile.t :=
  Tile.set_color (Some (baseColor f)) (Tile.set_ownerId (Some k) t).

Definition fortify (k : string) (t : Tile.t) : Tile.t :=
  Tile.set_defenseBonus 10
    (Tile.set_construct (Some (Construct.mk DEFENSE (Some k))) t).

Definition two_owner_grid : Grid :=
  grid_alter (own "B" ROBOTS) 10 10
    (grid_alter (λ t, fortify "B" (own "B" ROBOTS t)) 5 5
       (grid_alter (own "A" HUMANS) 5 4
          (grid_alter (own "A" HUMANS) 4 3
             (grid_alter (own "A" HUMANS) 3 3 emptyGrid)))).

Definition two_owner_game : GameState.t :=
  GameState.mk true (Some "A") two_owner_grid
    [("A", rich_A); ("B", fort_B)] (Some 300000) false None.

Definition two_owner_store : Store :=
  mkStore (Some (a_lobby [("A", rich_A); ("B", fort_B)])) (Some two_owner_game).

(** The same game with (5, 5) as [B]'s only tile. *)
Definition last_tile_B : Player.t := Player.set_tiles [Coord.mk 5 5] fort_B.

Definition last_tile_grid : Grid :=
  grid_alter (λ t, fortify "B" (own "B" ROBOTS t)) 5 5
    (grid_alter (own "A" HUMANS) 5 4
       (grid_alter (own "A" HUMANS) 4 3
          (grid_alter (own "A" HUMANS) 3 3 emptyGrid))).

Definition last_tile_game : GameState.t :=
  GameState.mk true (Some "A") last_tile_grid
    [("A", rich_A); ("B", last_tile_B)] (Some 300000) false None.

Definition last_tile_store : Store :=
  mkStore (Some (a_lobby [("A", rich_A); ("B", last_tile_B)])) (Some last_tile_game).

(** [A] alone, holding (3, 3) and (4, 3) and 20 gold. *)
Definition wealthy_A : Player.t :=
  Player.mk "A" "A" true (baseColor HUMANS) HUMANS 20%Q 0%Q 1%Q 0%Q
            [Coord.mk 3 3; Coord.mk 4 3].

Definition builder_game : GameState.t :=
  GameState.mk true (Some "A")
    (grid_alter (own "A" HUMANS) 4 3 (grid_alter (own "A" HUMANS) 3 3 emptyGrid))
    [("A", wealthy_A)] (Some 300000) false None.

Definition builder_store : Store :=
  mkStore (Some (a_lobby [("A", wealthy_A)])) (Some builder_game).

(** The started game after Ann took (4, 3) as a second tile. *)
Definition leader_game : GameState.t :=
  GameState.set_grid
    (grid_alter (own "ann" HUMANS) 4 3 (GameState.grid game_started))
    (GameState.set_players
       (alter_player (Player.set_tiles [Coord.mk 3 3; Coord.mk 4 3]) "ann"
                     (GameState.players game_started))
       game_started).

(** A roster of four, as two joins racing for the last seat leave it. *)
Definition cy : Player.t := new_player "cy" "Cy" (baseColor ROBOTS) ROBOTS.
Definition dee : Player.t := new_player "dee" "Dee" (baseColor ALIENS) ALIENS.

Definition four_players : Roster :=
  [("ann", ann); ("bob", bob); ("cy", cy); ("dee", dee)].

(** * The rest of the provider: lobby, reset and synchronisation *)

(** ** Lobby actions *)

Definition player_set_isReady (v : bool) (p : Player.t) : Player.t :=
  Player.mk (Player.id p) (Player.name p) v (Player.color p) (Player.faction p)
    (Player.gold p) (Player.units p) (Player.goldRate p) (Player.unitRate p)
    (Player.tiles p).

Definition player_set_faction (v : Faction) (p : Player.t) : Player.t :=
  Player.mk (Player.id p) (Player.name p) (Player.isReady p) (Player.color p) v
    (Player.gold p) (Player.units p) (Player.goldRate p) (Player.unitRate p)
    (Player.tiles p).

Definition player_set_color (v : string) (p : Player.t) : Player.t :=
  Player.mk (Player.id p) (Player.name p) (Player.isReady p) v (Player.faction p)
    (Player.gold p) (Player.units p) (Player.goldRate p) (Player.unitRate p)
    (Player.tiles p).

Definition lobby_set_players (v : Roster) (l : LobbyState.t) : LobbyState.t :=
  LobbyState.mk (LobbyState.lobbyId l) v (LobbyState.host l)
                (LobbyState.gameStarted l).

Definition lobby_set_gameStarted (v : bool) (l : LobbyState.t) : LobbyState.t :=
  LobbyState.mk (LobbyState.lobbyId l) (LobbyState.players l) (LobbyState.host l) v.

(** [createLobby]; [lobbyId] is the six characters cut from a fresh uuid. *)
Definition createLobby (myId playerName lobbyId : string) : LobbyState.t :=
  LobbyState.mk lobbyId
    [(myId, new_player myId playerName (baseColor HUMANS) HUMANS)] myId false.

(** What [localStorage.getItem] finds under the lobby's key: nothing, an item
    that does not parse to a record with a [lobbyState], or the record. *)
Inductive StoredItem :=
  | NoItem
  | Malformed
  | LobbyData (lobbyState : LobbyState.t) (gameState : option GameState.t).

(** How [joinLobby] ends: with [setLobbyError], or with the lobby state it
    stores and installs. *)
Inductive JoinResult :=
  | JoinError (message : string)
  | Joined (lobby : LobbyState.t).

(** [Object.values(Faction)] *)
Definition all_factions : list Faction := [HUMANS; ALIENS; ROBOTS].

(** [usedFactions.includes(f)] *)
Definition includes_faction (f : Faction) (l : list Faction) : bool :=
  existsb (Faction_eqb f) l.

(** [usedColors.includes(c)] *)
Definition includes_color (c : string) (l : list string) : bool :=
  existsb (String.eqb c) l.

Definition select_faction (players : Roster) : Faction :=
  let usedFactions := Player.faction <$> roster_values players in
  let availableFactions :=
    List.filter (λ f, negb (includes_faction f usedFactions)) all_factions in
  match availableFactions with
  | f :: _ => f
  | [] => HUMANS
  end.

Definition select_color (players : Roster) (selectedFaction : Faction) : string :=
  let usedColors := Player.color <$> roster_values players in
  let selectedColor := baseColor selectedFaction in
  if includes_color selectedColor usedColors then
    match List.find (λ faction, negb (includes_color (baseColor faction) usedColors))
                    all_factions with
    | Some faction => baseColor faction
    | None => selectedColor
    end
  else selectedColor.

Definition joinLobby (myId playerName : string) (existingData : StoredItem)
  : JoinResult :=
  match existingData with
  | NoItem => JoinError "Lobby not found"
  | Malformed => JoinError "Failed to join lobby"
  | LobbyData existingLobbyState _ =>
      let players := LobbyState.players existingLobbyState in
      if Nat.leb 3 (length (roster_keys players)) then JoinError "Lobby is full"
      else
        let selectedFaction := select_faction players in
        let selectedColor := select_color players selectedFaction in
        let player := new_player myId playerName selectedColor selectedFaction in
        Joined (lobby_set_players (obj_set myId player players) existingLobbyState)
  end.

(** [toggleReady]; reading [players[myId].isReady] of a player who is not in
    the roster is a [TypeError]. *)
Definition toggleReady (myId : string) (st : Store) : option Store :=
  match lobbyState st with
  | None => Some st
  | Some lobby =>
      _ ← lookup_player myId (LobbyState.players lobby);
      Some (mkStore
              (Some (lobby_set_players
                       (alter_player (λ p, player_set_isReady (negb (Player.isReady p)) p)
                                     myId (LobbyState.players lobby))
                       lobby))
              (gameState st))
  end.

Definition changeFaction (myId : string) (faction : Faction) (st : Store)
  : option Store :=
  match lobbyState st with
  | None => Some st
  | Some lobby =>
      me ← lookup_player myId (LobbyState.players lobby);
      if Player.isReady me then Some st
      else
        Some (mkStore
                (Some (lobby_set_players
                         (alter_player
                            (λ p, player_set_color (baseColor faction)
                                    (player_set_faction faction p))
                            myId (LobbyState.players lobby))
                         lobby))
                (gameState st))
  end.

(** The record [resetGame] leaves under key [id]. *)
Definition reset_player (myId id : string) (p : Player.t) : Player.t :=
  Player.mk (Player.id p) (Player.name p) false (Player.color p) (Player.faction p)
    0%Q 0%Q 1%Q
    (if String.eqb id myId && Faction_eqb (Player.faction p) ALIENS then 1%Q else 0%Q)
    [].

Definition resetGame (myId : string) (st : Store) : Store :=
  match lobbyState st with
  | None => mkStore None None
  | Some lobby =>
      mkStore
        (Some (LobbyState.mk (LobbyState.lobbyId lobby)
                 ((λ '(id, p), (id, reset_player myId id p)) <$> LobbyState.players lobby)
                 (LobbyState.host lobby) false))
        None
  end.

(** ** Messages *)

(** The payload of [READY_STATE]: a boolean, or a faction with its colour. *)
Inductive ReadyPayload :=
  | ReadyFlag (isReady : bool)
  | FactionColor (faction : Faction) (color : string).

(** The payload of the three action messages.  The costs and the construct
    type that the senders also put in are read by no handler and are left
    out. *)
Record ActionPayload := mkAction {
  a_x : Z;
  a_y : Z;
  a_playerId : string;
  a_gameState : option GameState.t
}.

Inductive MessageBody :=
  | JOIN_LOBBY (payload : Player.t)
  | READY_STATE (payload : ReadyPayload)
  | START_GAME (payload : option GameState.t)
  | CLAIM_TILE (payload : ActionPayload)
  | BUILD_CONSTRUCT (payload : ActionPayload)
  | DEMOLISH_CONSTRUCT (payload : ActionPayload)
  | GAME_STATE (payload : option GameState.t).

Record PeerMessage := mkMessage {
  body : MessageBody;
  senderId : string
}.

(** The change a [READY_STATE] payload makes to the sender's record;
    [payload.faction && payload.color] fails on an empty colour. *)
Definition apply_ready (payload : ReadyPayload) (p : Player.t) : Player.t :=
  match payload with
  | ReadyFlag b => player_set_isReady b p
  | FactionColor f c =>
      if String.eqb c "" then p
      else player_set_color c (player_set_faction f p)
  end.

Definition handlePeerMessage (message : PeerMessage) (st : Store) : Store :=
  match body message with
  | JOIN_LOBBY payload =>
      match lobbyState st with
      | Some lobby =>
          mkStore (Some (lobby_set_players
                           (obj_set (senderId message) payload (LobbyState.players lobby))
                           lobby))
                  (gameState st)
      | None => st
      end
  | READY_STATE payload =>
      match lobbyState st with
      | Some lobby =>
          match lookup_player (senderId message) (LobbyState.players lobby) with
          | Some _ =>
              mkStore (Some (lobby_set_players
                               (alter_player (apply_ready payload) (senderId message)
                                             (LobbyState.players lobby))
                               lobby))
                      (gameState st)
          | None => st
          end
      | None => st
      end
  | START_GAME payload =>
      mkStore (lobby_set_gameStarted true <$> lobbyState st) payload
  | CLAIM_TILE payload | BUILD_CONSTRUCT payload | DEMOLISH_CONSTRUCT payload =>
      match a_gameState payload with
      | Some gs => mkStore (lobbyState st) (Some gs)
      | None => st
      end
  | GAME_STATE payload => mkStore (lobbyState st) payload
  end.

(** ** Lobbies used in the examples *)

(** Ann alone in the lobby she created, after she pressed ready. *)
Definition ann_ready_lobby : LobbyState.t :=
  lobby_set_players
    [("ann", player_set_isReady true (new_player "ann" "Ann" (baseColor HUMANS) HUMANS))]
    (createLobby "ann" "Ann" "lobby1").

(** The lobby that the game of Ann and Bob leaves behind: Bob is an Alien. *)
Definition lobby_after_game : LobbyState.t :=
  LobbyState.mk "lobby1" (GameState.players game_started) "ann" true.

(** ** Well-formed boards *)

Definition in_grid (x y : Z) : Prop :=
  (0 ≤ x < GRID_SIZE) ∧ (0 ≤ y < GRID_SIZE).

(** The defence bonus that goes with a construct. *)
Definition bonus_of (construct : option Construct.t) : Z :=
  match construct with
  | Some c => match Construct.type c with DEFENSE => 10 | _ => 0 end
  | None => 0
  end.

(** Tile [t] at [grid[y][x]]: it carries its own coordinates, its bonus is
    that of its construct, an unowned tile has neither colour nor construct,
    an owned one has an owner in the roster and that owner's colour. *)
Definition tile_ok (ps : Roster) (x y : Z) (t : Tile.t) : Prop :=
  Tile.x t = x ∧ Tile.y t = y ∧
  Tile.defenseBonus t = bonus_of (Tile.construct t) ∧
  match Tile.ownerId t with
  | None => Tile.color t = None ∧ Tile.construct t = None
  | Some o =>
      ∃ p, lookup_player o ps = Some p ∧ Tile.color t = Some (Player.color p)
  end.

Definition grid_shape (g : Grid) : Prop :=
  length g = Z.to_nat GRID_SIZE ∧
  Forall (λ row, length row = Z.to_nat GRID_SIZE) g.

Definition board_ok (gs : GameState.t) : Prop :=
  grid_shape (GameState.grid gs) ∧
  (∀ x y t, grid_at (GameState.grid gs) x y = Some t →
            tile_ok (GameState.players gs) x y t) ∧
  (∀ w, GameState.winner gs = Some w →
        GameState.gameOver gs = true ∧
        is_Some (lookup_player w (GameState.players gs))).

(** ** The victory screen *)

(** What [VictoryScreen] renders: [Some None] is the empty rendering
    ([return null]; an empty [winner] string is falsy), [Some (Some (winner,
    totalTiles))] the card.  Reading [.tiles] of a winner that is not in the
    roster is a [TypeError]. *)
Definition VictoryScreen (gameState : option GameState.t)
  : option (option (Player.t * nat)) :=
  match gameState with
  | None => Some None
  | Some gs =>
      match GameState.winner gs with
      | None => Some None
      | Some w =>
          if String.eqb w "" then Some None
          else
            winner ← lookup_player w (GameState.players gs);
            Some (Some (winner, length (Player.tiles winner)))
      end
  end.

(** * The board component *)

(** [a >= b] on numbers. *)
Definition num_ge (a b : Q) : bool :=
  match Qcompare a b with Lt => false | _ => true end.

(** [o[k]] on a [Record<string, V>]. *)
Fixpoint obj_get {V} (k : string) (o : list (string * V)) : option V :=
  match o with
  | [] => None
  | (k', v) :: rest => if String.eqb k' k then Some v else obj_get k rest
  end.

(** [l.forEach(body)] for a body that updates a local variable and can
    raise. *)
Fixpoint forEach {A S} (body : S → A → option S) (l : list A) (s : S) : option S :=
  match l with
  | [] => Some s
  | a :: rest => s1 ← body s a; forEach body rest s1
  end.

(** The tile argument of the source is not used. *)
Definition getGoldCostForNewTile (myPlayer : Player.t) : Q :=
  inject_Z (10 + Z.of_nat (length (Player.tiles myPlayer)) * 2).

(** [tile.defenseBonus || 0] is the bonus itself. *)
Definition getUnitCostForTile (tile : Tile.t) : Q :=
  match Tile.ownerId tile with
  | None => 0%Q
  | Some _ => inject_Z (5 + Tile.defenseBonus tile)
  end.

(** The test under which [getClaimableCells] adds a cell. *)
Definition cell_claimable (myId : string) (myPlayer : Player.t) (cell : Tile.t)
  : bool :=
  let goldCost := getGoldCostForNewTile myPlayer in
  let unitCost := getUnitCostForTile cell in
  (bool_decide (Tile.ownerId cell = None)
   && num_ge (Player.gold myPlayer) goldCost)
  || (negb (bool_decide (Tile.ownerId cell = None))
      && negb (is_id (Tile.ownerId cell) myId)
      && num_ge (Player.gold myPlayer) goldCost
      && num_ge (Player.units myPlayer) unitCost).

Definition directions : list (Z * Z) := [(1, 0); (-1, 0); (0, 1); (0, -1)].

(** [Set.add] on the keys [`${x},${y}`], kept in insertion order. *)
Definition set_add (c : Z * Z) (s : list (Z * Z)) : list (Z * Z) :=
  if bool_decide (c ∈ s) then s else s ++ [c].

Definition check_direction (myId : string) (gs : GameState.t)
  (myPlayer : Player.t) (tile : Coord.t)
  (claimableSet : list (Z * Z)) (d : Z * Z) : option (list (Z * Z)) :=
  let adjX := Coord.x tile + d.1 in
  let adjY := Coord.y tile + d.2 in
  if (0 <=? adjX) && (adjX <? GRID_SIZE) && (0 <=? adjY) && (adjY <? GRID_SIZE)
  then
    row ← arr_get (GameState.grid gs) adjY;
    cell ← arr_get row adjX;
    Some (if cell_claimable myId myPlayer cell
          then set_add (adjX, adjY) claimableSet
          else claimableSet)
  else Some claimableSet.

Definition getClaimableCells (myId : string) (gs : GameState.t)
  : option (list (Z * Z)) :=
  myPlayer ← lookup_player myId (GameState.players gs);
  forEach (λ claimableSet tile,
             forEach (check_direction myId gs myPlayer tile) directions claimableSet)
          (Player.tiles myPlayer) [].

(** The cell at [c] passes the test of [getClaimableCells]. *)
Definition offered (myId : string) (gs : GameState.t) (myPlayer : Player.t)
  (c : Z * Z) : Prop :=
  ∃ cell, grid_at (GameState.grid gs) c.1 c.2 = Some cell ∧
          cell_claimable myId myPlayer cell = true.

(** [scores[k] += 1]: for a key that is not there [undefined + 1] is [NaN],
    written [None]. *)
Definition score_incr (k : string) (scores : list (string * option nat))
  : list (string * option nat) :=
  match obj_get k scores with
  | Some v => obj_set k (S <$> v) scores
  | None => obj_set k None scores
  end.

(** [if (cell.ownerId) scores[cell.ownerId] += 1]: the empty string is
    falsy. *)
Definition count_cell (scores : list (string * option nat)) (cell : Tile.t)
  : list (string * option nat) :=
  match Tile.ownerId cell with
  | Some o => if String.eqb o "" then scores else score_incr o scores
  | None => scores
  end.

Definition calculateScores (gs : GameState.t) : list (string * option nat) :=
  let scores0 :=
    fold_left (λ scores playerId, obj_set playerId (Some 0%nat) scores)
              (roster_keys (GameState.players gs)) [] in
  fold_left (λ scores row, fold_left count_cell row scores)
            (GameState.grid gs) scores0.

(** The colour a cell is painted with:
    [cell.ownerId ? gameState.players[cell.ownerId].color : null]. *)
Definition cell_color (gs : GameState.t) (cell : Tile.t) : option (option string) :=
  match Tile.ownerId cell with
  | Some o =>
      if String.eqb o "" then Some None
      else owner ← lookup_player o (GameState.players gs);
           Some (Some (Player.color owner))
  | None => Some None
  end.

(** The local state of the component. *)
Inductive Action := claim | build.

Record Selection := mkSelection {
  selectedTile : option (Z * Z);
  selectedAction : option Action;
  selectedConstructType : option ConstructType
}.

(** A click on cell [(x, y)].  The component renders the grid, and with it
    the click handlers, only when both state cells are set;
    [claimableCells] is computed while rendering. *)
Definition handleCellClick (myId : string) (sel : Selection) (st : Store)
  (x y : Z) : option (Selection * Store) :=
  match gameState st, lobbyState st with
  | Some gs, Some _ =>
      claimableCells ← getClaimableCells myId gs;
      match selectedAction sel with
      | Some build =>
          row ← arr_get (GameState.grid gs) y;
          tile ← arr_get row x;
          if is_id (Tile.ownerId tile) myId
          then Some (mkSelection (Some (x, y)) (selectedAction sel)
                                 (selectedConstructType sel), st)
          else Some (sel, st)
      | _ =>
          if bool_decide ((x, y) ∈ claimableCells) then
            row ← arr_get (GameState.grid gs) y;
            tile ← arr_get row x;
            myPlayer ← lookup_player myId (GameState.players gs);
            r ← claimTile myId st x y (getGoldCostForNewTile myPlayer)
                          (getUnitCostForTile tile);
            Some (mkSelection None (selectedAction sel) (selectedConstructType sel),
                  r.2)
          else Some (sel, st)
      end
  | _, _ => Some (sel, st)
  end.

Definition handleBuildConstruct (myId : string) (sel : Selection) (st : Store)
  : option (Selection * Store) :=
  match selectedTile sel, selectedConstructType sel with
  | Some (x, y), Some constructType =>
      r ← buildConstruct myId st x y constructType;
      Some (mkSelection None (selectedAction sel) None, r.2)
  | _, _ => Some (sel, st)
  end.

Definition handleDemolishConstruct (myId : string) (sel : Selection) (st : Store)
  : option (Selection * Store) :=
  match selectedTile sel with
  | Some (x, y) =>
      r ← demolishConstruct myId st x y;
      Some (mkSelection None (selectedAction sel) (selectedConstructType sel), r.2)
  | None => Some (sel, st)
  end.

(** [canBuildConstruct(type)]: whether the button of [type] is enabled. *)
Definition canBuildConstruct (myId : string) (sel : Selection) (gs : GameState.t)
  (type : ConstructType) : option bool :=
  match selectedTile sel with
  | None => Some false
  | Some (x, y) =>
      row ← arr_get (GameState.grid gs) y;
      tile ← arr_get row x;
      if negb (is_id (Tile.ownerId tile) myId)
         || bool_decide (is_Some (Tile.construct tile))
      then Some false
      else
        myPlayer ← lookup_player myId (GameState.players gs);
        let goldCost :=
          match type with
          | GOLD => 20%Q
          | UNIT => 15%Q
          | _ => 25%Q
          end in
        Some (num_ge (Player.gold myPlayer) goldCost)
  end.

(** Every player's tile list is free of duplicates. *)
Definition tiles_distinct (gs : GameState.t) : Prop :=
  ∀ k p, (k, p) ∈ GameState.players gs → NoDup (Player.tiles p).

(** Snapshots reached when every claim is made through the board. *)
Inductive board_play : GameState.t → Prop :=
  | play_start now ps :
      lobby_roster ps → board_play (initializeGameState now ps)
  | play_click gs me sel lobby x y sel1 st1 gs1 :
      board_play gs →
      handleCellClick me sel (mkStore (Some lobby) (Some gs)) x y = Some (sel1, st1) →
      gameState st1 = Some gs1 →
      board_play gs1
  | play_build gs me sel lobby sel1 st1 gs1 :
      board_play gs →
      handleBuildConstruct me sel (mkStore (Some lobby) (Some gs)) = Some (sel1, st1) →
      gameState st1 = Some gs1 →
      board_play gs1
  | play_demolish gs me sel lobby sel1 st1 gs1 :
      board_play gs →
      handleDemolishConstruct me sel (mkStore (Some lobby) (Some gs)) = Some (sel1, st1) →
      gameState st1 = Some gs1 →
      board_play gs1
  | play_tick gs now :
      board_play gs → GameState.gameOver gs = false →
      board_play (updateResources now gs).

(** The started game of Ann and Bob after 120 ticks: both hold 12 gold. *)
Definition game_funded : GameState.t :=
  Nat.iter 120 (updateResources 100) game_started.

(** The coordinates a tile carries. *)
Definition tile_coord (t : Tile.t) : Coord.t := Coord.mk (Tile.x t) (Tile.y t).

#[global] Instance Coord_eq_dec : EqDecision Coord.t.
Proof. solve_decision. Defined.

(** The coordinates of the board, row by row. *)
Definition all_coords : list Coord.t :=
  concat ((λ y, (λ x, Coord.mk x y) <$> seqZ 0 GRID_SIZE) <$> seqZ 0 GRID_SIZE).

(** The lobby of the started game of Ann and Bob. *)
Definition lobby_started : LobbyState.t :=
  LobbyState.mk "lobby1" (GameState.players game_started) "ann" true.

(** The funded game after Ann clicked on (4, 3) in claim mode. *)
Definition game_expanded : GameState.t :=
  match handleCellClick "ann" (mkSelection None (Some claim) None)
          (mkStore (Some lobby_started) (Some game_funded)) 4 3 with
  | Some (_, mkStore _ (Some gs)) => gs
  | _ => game_funded
  end.

(** The started game of Ann and Bob when the clock has run out. *)
Definition game_timed_out : GameState.t := updateResources 400000 game_started.

(** Ann, in build mode, has selected her corner tile. *)
Definition corner_selected : Selection := mkSelection (Some (3, 3)) (Some build) None.

(** ** The storage mirror of a broadcast *)

(** What [broadcastToPeers] does to the stored lobby item, when there is
    one: the switch on the message type.  [JOIN_LOBBY] has no case. *)
Definition broadcastToPeers (message : PeerMessage) (lobbyData : Store) : Store :=
  let on_sender (f : Player.t → Player.t) : Store :=
    match lobbyState lobbyData with
    | Some lobby =>
        match lookup_player (senderId message) (LobbyState.players lobby) with
        | Some _ =>
            mkStore (Some (lobby_set_players
                             (alter_player f (senderId message)
                                           (LobbyState.players lobby))
                             lobby))
                    (gameState lobbyData)
        | None => lobbyData
        end
    | None => lobbyData
    end in
  match body message with
  | JOIN_LOBBY _ => lobbyData
  | READY_STATE (ReadyFlag isReady) => on_sender (player_set_isReady isReady)
  | READY_STATE (FactionColor faction color) =>
      if String.eqb color "" then lobbyData
      else on_sender (λ p, player_set_color color (player_set_faction faction p))
  | START_GAME payload =>
      mkStore (lobby_set_gameStarted true <$> lobbyState lobbyData) payload
  | CLAIM_TILE payload | BUILD_CONSTRUCT payload | DEMOLISH_CONSTRUCT payload =>
      match a_gameState payload with
      | Some gs => mkStore (lobbyState lobbyData) (Some gs)
      | None => lobbyData
      end
  | GAME_STATE payload => mkStore (lobbyState lobbyData) payload
  end.

(** ** The lobby screen and the router *)

(** [allPlayersReady && players.length >= 2] *)
Definition canStartGame (lobby : LobbyState.t) : bool :=
  forallb Player.isReady (roster_values (LobbyState.players lobby))
  && Nat.leb 2 (length (roster_values (LobbyState.players lobby))).

Inductive Screen := ShowVictoryScreen | ShowGameBoard | ShowLobby | ShowHome.

(** [s] is a non-empty string. *)
Definition truthy (s : option string) : bool :=
  match s with
  | Some w => negb (String.eqb w "")
  | None => false
  end.

(** The screen [AppContent] chooses; [isInLobby] is [!!lobbyState]. *)
Definition AppContent (st : Store) : Screen :=
  let isInLobby := bool_decide (is_Some (lobbyState st)) in
  let gameOver := from_option GameState.gameOver false (gameState st) in
  let winner := gameState st ≫= GameState.winner in
  let gameStarted := from_option LobbyState.gameStarted false (lobbyState st) in
  if isInLobby && gameOver && truthy winner then ShowVictoryScreen
  else if isInLobby && gameStarted && bool_decide (is_Some (gameState st))
          && negb gameOver then ShowGameBoard
  else if isInLobby && negb gameStarted then ShowLobby
  else ShowHome.

(** Some player holds a tile, unless there is no player. *)
Definition someone_holds (gs : GameState.t) : Prop :=
  GameState.players gs ≠ [] →
  ∃ k p, (k, p) ∈ GameState.players gs ∧ Player.tiles p ≠ [].


(** ** Polling the stored lobby item *)

#[global] Instance ConstructType_eq_dec : EqDecision ConstructType.
Proof. solve_decision. Defined.

#[global] Instance Construct_eq_dec : EqDecision Construct.t.
Proof. solve_decision. Defined.

#[global] Instance Tile_eq_dec : EqDecision Tile.t.
Proof. solve_decision. Defined.

(** The game-state half of [checkForUpdates]: the local state after the
    poll, for the stored and the local game state.  Tiles hold integers and
    strings only, so the comparison of the [JSON.stringify] texts of two
    grids is equality of the grids.  The outer comparison of the texts of
    the whole states is implied by [hasImportantChanges] and by a missing
    local state, the two cases in which something is set. *)
Definition checkForUpdates_game (storedGameState gameState : option GameState.t)
  : option GameState.t :=
  match storedGameState with
  | None => gameState
  | Some stored =>
      match gameState with
      | Some gs =>
          let hasImportantChanges :=
            negb (bool_decide (GameState.grid stored = GameState.grid gs))
            || negb (Bool.eqb (GameState.gameOver stored) (GameState.gameOver gs)) in
          if hasImportantChanges then Some stored else Some gs
      | None => Some stored
      end
  end.

(** Bob's copy of the funded game, a tick behind Ann's. *)
Definition game_funded_behind : GameState.t :=
  Nat.iter 119 (updateResources 100) game_started.

(** * The turn-based revision of the provider and of the board

    The repository also holds the earlier, turn-based revision: players have
    no resources, tiles no constructs, a claim takes an unowned adjacent tile
    and passes the turn, and a claim is replicated by a message that carries
    the move, not the snapshot. *)

Module TurnBased.

Module Player.
Record t := mk {
  id : string;
  name : string;
  isReady : bool;
  color : string;
  tiles : list Coord.t
}.

Definition set_tiles (v : list Coord.t) (p : t) : t :=
  mk (id p) (name p) (isReady p) (color p) v.
Definition set_isReady (v : bool) (p : t) : t :=
  mk (id p) (name p) v (color p) (tiles p).
End Player.

Module Tile.
Record t := mk {
  x : Z;
  y : Z;
  ownerId : option string;
  color : option string
}.
End Tile.

Module GameState.
Record t := mk {
  gameStarted : bool;
  currentTurn : option string;
  grid : list (list Tile.t);
  players : list (string * Player.t)
}.
End GameState.

Module LobbyState.
Record t := mk {
  lobbyId : string;
  players : list (string * Player.t);
  host : string;
  gameStarted : bool
}.
End LobbyState.

Record Store := mkStore {
  lobbyState : option LobbyState.t;
  gameState : option GameState.t
}.

(** In-place change of the record [o[k]]. *)
Fixpoint obj_alter {V} (f : V → V) (k : string) (o : list (string * V))
  : list (string * V) :=
  match o with
  | [] => []
  | (k', v) :: rest =>
      if String.eqb k' k then (k', f v) :: rest
      else (k', v) :: obj_alter f k rest
  end.

(** [l.indexOf(k)], counted from [i]: -1 when [k] is not in [l]. *)
Fixpoint indexOf_from (k : string) (l : list string) (i : Z) : Z :=
  match l with
  | [] => -1
  | a :: rest => if String.eqb a k then i else indexOf_from k rest (i + 1)
  end.

Definition indexOf (k : string) (l : list string) : Z := indexOf_from k l 0.

Definition tile_at (g : list (list Tile.t)) (x y : Z) : option Tile.t :=
  row ← arr_get g y; arr_get row x.

(** [grid[y][x].ownerId = k; grid[y][x].color = c] *)
Definition take_tile (k c : string) (x y : Z) (g : list (list Tile.t))
  : list (list Tile.t) :=
  arr_alter (arr_alter (λ t, Tile.mk (Tile.x t) (Tile.y t) (Some k) (Some c)) x) y g.

Definition emptyGrid : list (list Tile.t) :=
  (λ y, (λ x, Tile.mk x y None None) <$> seqZ 0 GRID_SIZE) <$> seqZ 0 GRID_SIZE.

Definition place_player (index : nat) (grid : list (list Tile.t))
  (entry : string * Player.t) : list (list Tile.t) * (string * Player.t) :=
  let '(playerId, player) := entry in
  match startingPositions !! index with
  | Some pos =>
      (take_tile playerId (Player.color player) (Coord.x pos) (Coord.y pos) grid,
       (playerId, Player.set_tiles [Coord.mk (Coord.x pos) (Coord.y pos)] player))
  | None => (grid, entry)
  end.

Fixpoint forEach_place (index : nat) (grid : list (list Tile.t))
  (entries : list (string * Player.t))
  : list (list Tile.t) * list (string * Player.t) :=
  match entries with
  | [] => (grid, [])
  | entry :: rest =>
      let '(grid1, entry1) := place_player index grid entry in
      let '(grid2, rest2) := forEach_place (S index) grid1 rest in
      (grid2, entry1 :: rest2)
  end.

Definition initializeGameState (players : list (string * Player.t)) : GameState.t :=
  let playerIds := players.*1 in
  let '(grid, players1) := forEach_place 0 emptyGrid players in
  GameState.mk true (head playerIds) grid players1.

(** [claimTile(x, y)] on the game state the closure captured; [inLobby] is
    whether a lobby state is set.  [None] is a [TypeError]. *)
Definition claimTile (myId : string) (inLobby : bool)
  (gameState : option GameState.t) (x y : Z)
  : option (bool * option GameState.t) :=
  match gameState with
  | None => Some (false, None)
  | Some gs =>
      if negb inLobby || negb (is_id (GameState.currentTurn gs) myId)
      then Some (false, gameState) else
      me ← obj_get myId (GameState.players gs);
      let isAdjacent := existsb (adjacent_to x y) (Player.tiles me) in
      if negb isAdjacent then Some (false, gameState) else
      row ← arr_get (GameState.grid gs) y;
      tile ← arr_get row x;
      if bool_decide (is_Some (Tile.ownerId tile)) then Some (false, gameState) else
      let grid1 := take_tile myId (Player.color me) x y (GameState.grid gs) in
      let players1 :=
        obj_alter (λ p, Player.set_tiles (Player.tiles p ++ [Coord.mk x y]) p)
                  myId (GameState.players gs) in
      let playerIds := players1.*1 in
      let currentIndex := indexOf myId playerIds in
      let nextIndex := Z.rem (currentIndex + 1) (Z.of_nat (length playerIds)) in
      Some (true,
            Some (GameState.mk (GameState.gameStarted gs)
                               (arr_get playerIds nextIndex) grid1 players1))
  end.

(** ** Messages *)

Record ClaimPayload := mkClaim {
  c_x : Z;
  c_y : Z;
  c_playerId : string;
  c_nextTurn : option string
}.

Inductive MessageBody :=
  | JOIN_LOBBY (payload : Player.t)
  | READY_STATE (payload : bool)
  | START_GAME (payload : option GameState.t)
  | CLAIM_TILE (payload : ClaimPayload)
  | GAME_STATE (payload : option GameState.t).

Record PeerMessage := mkMessage {
  body : MessageBody;
  senderId : string
}.

(** The message a successful claim broadcasts. *)
Definition claimTile_message (myId : string) (inLobby : bool)
  (gameState : option GameState.t) (x y : Z) : option PeerMessage :=
  match claimTile myId inLobby gameState x y with
  | Some (true, Some updated) =>
      Some (mkMessage (CLAIM_TILE (mkClaim x y myId (GameState.currentTurn updated)))
                      myId)
  | _ => None
  end.

(** The [CLAIM_TILE] case: the receiver replays the move on its own
    snapshot. *)
Definition replay_claim (payload : ClaimPayload) (gs : GameState.t)
  : option GameState.t :=
  row ← arr_get (GameState.grid gs) (c_y payload);
  _ ← arr_get row (c_x payload);
  player ← obj_get (c_playerId payload) (GameState.players gs);
  Some (GameState.mk (GameState.gameStarted gs) (c_nextTurn payload)
          (take_tile (c_playerId payload) (Player.color player)
                     (c_x payload) (c_y payload) (GameState.grid gs))
          (obj_alter (λ p, Player.set_tiles
                             (Player.tiles p ++ [Coord.mk (c_x payload) (c_y payload)]) p)
                     (c_playerId payload) (GameState.players gs))).

Definition handlePeerMessage (message : PeerMessage) (st : Store) : option Store :=
  match body message with
  | JOIN_LOBBY payload =>
      match lobbyState st with
      | Some lobby =>
          Some (mkStore
                  (Some (LobbyState.mk (LobbyState.lobbyId lobby)
                           (obj_set (senderId message) payload (LobbyState.players lobby))
                           (LobbyState.host lobby) (LobbyState.gameStarted lobby)))
                  (gameState st))
      | None => Some st
      end
  | READY_STATE payload =>
      match lobbyState st with
      | Some lobby =>
          match obj_get (senderId message) (LobbyState.players lobby) with
          | Some _ =>
              Some (mkStore
                      (Some (LobbyState.mk (LobbyState.lobbyId lobby)
                               (obj_alter (Player.set_isReady payload) (senderId message)
                                          (LobbyState.players lobby))
                               (LobbyState.host lobby) (LobbyState.gameStarted lobby)))
                      (gameState st))
          | None => Some st
          end
      | None => Some st
      end
  | START_GAME payload =>
      Some (mkStore
              ((λ lobby, LobbyState.mk (LobbyState.lobbyId lobby)
                           (LobbyState.players lobby) (LobbyState.host lobby) true)
               <$> lobbyState st)
              payload)
  | CLAIM_TILE payload =>
      match gameState st with
      | Some gs =>
          updated ← replay_claim payload gs;
          Some (mkStore (lobbyState st) (Some updated))
      | None => Some st
      end
  | GAME_STATE payload => Some (mkStore (lobbyState st) payload)
  end.

(** ** The board *)

Definition check_direction (gs : GameState.t) (tile : Coord.t)
  (adjacentSet : list (Z * Z)) (d : Z * Z) : option (list (Z * Z)) :=
  let adjX := Coord.x tile + d.1 in
  let adjY := Coord.y tile + d.2 in
  if (0 <=? adjX) && (adjX <? GRID_SIZE) && (0 <=? adjY) && (adjY <? GRID_SIZE)
  then
    row ← arr_get (GameState.grid gs) adjY;
    cell ← arr_get row adjX;
    Some (if bool_decide (Tile.ownerId cell = None)
          then set_add (adjX, adjY) adjacentSet
          else adjacentSet)
  else Some adjacentSet.

Definition getAdjacentCells (myId : string) (gs : GameState.t)
  : option (list (Z * Z)) :=
  if negb (is_id (GameState.currentTurn gs) myId) then Some []
  else
    me ← obj_get myId (GameState.players gs);
    forEach (λ adjacentSet tile,
               forEach (check_direction gs tile) directions adjacentSet)
            (Player.tiles me) [].

(** A click on cell [(x, y)]; the board is rendered only with both state
    cells set. *)
Definition handleCellClick (myId : string) (gs : GameState.t) (x y : Z)
  : option (option GameState.t) :=
  adjacentCells ← getAdjacentCells myId gs;
  if is_id (GameState.currentTurn gs) myId && bool_decide ((x, y) ∈ adjacentCells)
  then r ← claimTile myId true (Some gs) x y; Some r.2
  else Some (Some gs).

(** [n] clicks in a row, each by the player whose turn it is, each on a cell
    the board offers to that player. *)
Inductive rounds : GameState.t → nat → GameState.t → Prop :=
  | rounds_0 gs : rounds gs 0 gs
  | rounds_S gs me x y cells gs1 n gs2 :
      GameState.currentTurn gs = Some me →
      getAdjacentCells me gs = Some cells →
      (x, y) ∈ cells →
      handleCellClick me gs x y = Some (Some gs1) →
      rounds gs1 n gs2 →
      rounds gs (S n) gs2.

(** ** A game used in the examples *)

Definition ann : Player.t := Player.mk "ann" "Ann" true "#FF5733" [].
Definition bob : Player.t := Player.mk "bob" "Bob" true "#33FF57" [].
Definition game_started : GameState.t := initializeGameState [("ann", ann); ("bob", bob)].

(** Ann claimed (4, 3). *)
Definition game_after_ann : GameState.t :=
  match claimTile "ann" true (Some game_started) 4 3 with
  | Some (_, Some gs) => gs
  | _ => game_started
  end.

(** Then Bob claimed (19, 20). *)
Definition game_after_bob : GameState.t :=
  match claimTile "bob" true (Some game_after_ann) 19 20 with
  | Some (_, Some gs) => gs
  | _ => game_after_ann
  end.

End TurnBased.

(** * Properties *)

(** ** Arrays, grids and rosters *)

Section arrays.
Context {A : Type}.
Implicit Types (l : list A) (f : A → A) (i j : Z).

Lemma arr_get_alter_eq f i l : arr_get (arr_alter f i l) i = f <$> arr_get l i.
Proof.
  unfold arr_get, arr_alter. destruct (i <? 0); [done|].
  apply list_lookup_alter_eq.
Qed.

Lemma arr_get_alter_ne f i j l : i ≠ j → arr_get (arr_alter f i l) j = arr_get l j.
Proof.
  intros Hij. unfold arr_get, arr_alter.
  destruct (Z.ltb_spec i 0), (Z.ltb_spec j 0); try done.
  apply list_lookup_alter_ne. lia.
Qed.

End arrays.

Lemma grid_at_alter f x0 y0 g x y :
  grid_at (grid_alter f x0 y0 g) x y =
  if decide (x = x0 ∧ y = y0) then f <$> grid_at g x y else grid_at g x y.
Proof.
  unfold grid_at, grid_alter.
  destruct (decide (y = y0)) as [->|Hy].
  - rewrite arr_get_alter_eq. destruct (arr_get g y0) as [row|]; simpl.
    + destruct (decide (x = x0)) as [->|Hx].
      * rewrite arr_get_alter_eq. by rewrite decide_True.
      * rewrite arr_get_alter_ne by done. rewrite decide_False; [done|]. tauto.
    + by destruct (decide _).
  - rewrite arr_get_alter_ne by done. rewrite decide_False; [done|]. tauto.
Qed.

Lemma grid_at_alter_eq f x y g : grid_at (grid_alter f x y g) x y = f <$> grid_at g x y.
Proof. rewrite grid_at_alter. by rewrite decide_True. Qed.

Lemma grid_at_alter_ne f x0 y0 g x y :
  ¬ (x = x0 ∧ y = y0) → grid_at (grid_alter f x0 y0 g) x y = grid_at g x y.
Proof. intros. rewrite grid_at_alter. by rewrite decide_False. Qed.

Lemma lookup_alter_player_eq f k ps :
  lookup_player k (alter_player f k ps) = f <$> lookup_player k ps.
Proof.
  induction ps as [|[k' p] ps IH]; [done|]. simpl.
  destruct (String.eqb k' k) eqn:E; simpl; rewrite E; done.
Qed.

Lemma lookup_alter_player_ne f k k' ps :
  k ≠ k' → lookup_player k' (alter_player f k ps) = lookup_player k' ps.
Proof.
  intros Hk. induction ps as [|[k0 p] ps IH]; [done|]. simpl.
  destruct (String.eqb k0 k) eqn:E; simpl.
  - apply String.eqb_eq in E as ->.
    by rewrite (proj2 (String.eqb_neq k k')).
  - by rewrite IH.
Qed.

Lemma keys_alter_player f k ps :
  roster_keys (alter_player f k ps) = roster_keys ps.
Proof.
  unfold roster_keys. induction ps as [|[k' p] ps IH]; [done|]. simpl.
  destruct (String.eqb k' k); simpl; [done|]. f_equal. apply IH.
Qed.

Lemma alter_player_compose f g k ps :
  alter_player g k (alter_player f k ps) = alter_player (λ p, g (f p)) k ps.
Proof.
  induction ps as [|[k' p] ps IH]; [done|]. simpl.
  destruct (String.eqb k' k) eqn:E; simpl; rewrite E; [done|]. by rewrite IH.
Qed.

Lemma alter_player_ext f g k ps :
  (∀ p, f p = g p) → alter_player f k ps = alter_player g k ps.
Proof.
  intros Hfg. induction ps as [|[k' p] ps IH]; [done|]. simpl.
  destruct (String.eqb k' k); by rewrite ?Hfg, ?IH.
Qed.

Lemma arr_alter_compose {A} (f g : A → A) i (l : list A) :
  arr_alter g i (arr_alter f i l) = arr_alter (λ a, g (f a)) i l.
Proof.
  unfold arr_alter. destruct (i <? 0); [done|]. by rewrite list_alter_alter_eq.
Qed.

Lemma arr_alter_ext {A} (f g : A → A) i (l : list A) :
  (∀ a, f a = g a) → arr_alter f i l = arr_alter g i l.
Proof.
  intros Hfg. unfold arr_alter. destruct (i <? 0); [done|].
  apply list_alter_ext; auto.
Qed.

Lemma grid_alter_compose f g x y gr :
  grid_alter g x y (grid_alter f x y gr) = grid_alter (λ t, g (f t)) x y gr.
Proof.
  unfold grid_alter. rewrite arr_alter_compose. apply arr_alter_ext.
  intros row. apply arr_alter_compose.
Qed.

Lemma grid_alter_ext f g x y gr :
  (∀ t, f t = g t) → grid_alter f x y gr = grid_alter g x y gr.
Proof.
  intros Hfg. unfold grid_alter. apply arr_alter_ext. intros row.
  by apply arr_alter_ext.
Qed.

Lemma lookup_player_elem k p ps : lookup_player k ps = Some p → (k, p) ∈ ps.
Proof.
  induction ps as [|[k' p'] ps IH]; [done|]. simpl.
  destruct (String.eqb k' k) eqn:E.
  - apply String.eqb_eq in E as ->. intros [= ->]. left.
  - intros. right. auto.
Qed.

Lemma elem_lookup_player k p ps :
  NoDup (roster_keys ps) → (k, p) ∈ ps → lookup_player k ps = Some p.
Proof.
  unfold roster_keys. induction ps as [|[k' p'] ps IH]; simpl.
  - intros _ Hin. by apply elem_of_nil in Hin.
  - intros [Hk' Hnd]%NoDup_cons [[= -> ->]|Hin]%elem_of_cons.
    + by rewrite String.eqb_refl.
    + destruct (String.eqb k' k) eqn:E; [|auto].
      apply String.eqb_eq in E as ->. exfalso. apply Hk'.
      apply list_elem_of_fmap. by exists (k, p).
Qed.

(** ** Anatomy of a successful claim *)

Lemma check_elimination_players gs :
  GameState.players (check_elimination gs) = GameState.players gs.
Proof. unfold check_elimination. by destruct (activePlayers gs) as [|? [|]]. Qed.

Lemma check_elimination_grid gs :
  GameState.grid (check_elimination gs) = GameState.grid gs.
Proof. unfold check_elimination. by destruct (activePlayers gs) as [|? [|]]. Qed.

Lemma is_contested_spec tile me :
  is_contested tile me = true ↔ ∃ o, Tile.ownerId tile = Some o ∧ o ≠ me.
Proof.
  unfold is_contested. destruct (Tile.ownerId tile) as [o|].
  - destruct (String.eqb_spec o me) as [->|Hne]; simpl.
    + split; [done|]. by intros (o' & [= <-] & ?).
    + split; [|done]. intros _. by exists o.
  - split; [done|]. by intros (o' & ? & ?).
Qed.

(** Walks through the guards of [claimTile_on] in hypothesis [H], closing
    the branches that contradict it. *)
Ltac claim_guards H :=
  unfold claimTile_on in H;
  let row := fresh "row" in
  let player := fresh "player" in
  let tile := fresh "tile" in
  let Hrow := fresh "Hrow" in
  let Hme := fresh "Hme" in
  let Hgold := fresh "Hgold" in
  let Htile := fresh "Htile" in
  let Hunits := fresh "Hunits" in
  let Hadj := fresh "Hadj" in
  match type of H with
  | context [arr_get (GameState.grid ?gs) ?y] =>
      destruct (arr_get (GameState.grid gs) y) as [row|] eqn:Hrow;
      [|discriminate H]
  end;
  simpl in H;
  match type of H with
  | context [lookup_player ?me (GameState.players ?gs)] =>
      destruct (lookup_player me (GameState.players gs)) as [player|] eqn:Hme;
      [|discriminate H]
  end;
  simpl in H;
  match type of H with
  | context [num_lt (Player.gold ?p) ?c] =>
      destruct (num_lt (Player.gold p) c) eqn:Hgold
  end;
  [|match type of H with
    | context [arr_get row ?x] =>
        destruct (arr_get row x) as [tile|] eqn:Htile; [|discriminate H]
    end;
    simpl in H;
    match type of H with
    | context [is_contested ?t ?me && num_lt ?u ?c] =>
        destruct (is_contested t me && num_lt u c) eqn:Hunits
    end;
    [|match type of H with
      | context [existsb ?f ?l] => destruct (existsb f l) eqn:Hadj
      end;
      simpl in H]].

(** What a claim that returns [true] has checked and what it has built. *)
Lemma claimTile_on_true me gs x y goldCost unitCost gs1 :
  claimTile_on me gs x y goldCost unitCost = Some (true, gs1) →
  ∃ tile player,
    grid_at (GameState.grid gs) x y = Some tile ∧
    lookup_player me (GameState.players gs) = Some player ∧
    num_lt (Player.gold player) goldCost = false ∧
    (is_contested tile me = true → num_lt (Player.units player) unitCost = false) ∧
    existsb (adjacent_to x y) (Player.tiles player) = true ∧
    (∀ o, Tile.ownerId tile = Some o → o ≠ me →
          is_Some (lookup_player o (GameState.players gs))) ∧
    grid_at (GameState.grid gs1) x y = Some (tile_after me player tile) ∧
    (∀ x' y', ¬ (x' = x ∧ y' = y) →
       grid_at (GameState.grid gs1) x' y' = grid_at (GameState.grid gs) x' y') ∧
    lookup_player me (GameState.players gs1) =
      Some (actor_after (is_contested tile me) goldCost unitCost x y player) ∧
    (∀ o prev, Tile.ownerId tile = Some o → o ≠ me →
       lookup_player o (GameState.players gs) = Some prev →
       lookup_player o (GameState.players gs1) = Some (loser_after x y prev)) ∧
    (∀ k, k ≠ me → ¬ (is_contested tile me = true ∧ Tile.ownerId tile = Some k) →
       lookup_player k (GameState.players gs1) = lookup_player k (GameState.players gs)) ∧
    roster_keys (GameState.players gs1) = roster_keys (GameState.players gs).
Proof.
  intros H. claim_guards H; try discriminate H.
  match type of H with
  | context [drop_from_owner ?t ?m ?a ?b ?ps] =>
      destruct (drop_from_owner t m a b ps) as [players3|] eqn:Hdrop; [|done]
  end.
  simpl in H. injection H as <-.
  assert (grid_at (GameState.grid gs) x y = Some tile) as Hat.
  { unfold grid_at. rewrite Hrow. done. }
  exists tile, player.
  rewrite check_elimination_players, check_elimination_grid. simpl.
  split; [done|]. split; [done|]. split; [done|].
  split. { intros Hc. rewrite Hc in Hunits. done. }
  split; [done|].
  (* the roster after the payments *)
  set (players2 :=
         if is_contested tile me
         then alter_player (λ p, Player.set_units (Player.units p - unitCost)%Q p) me
                (alter_player (λ p, Player.set_gold (Player.gold p - goldCost)%Q p) me
                   (GameState.players gs))
         else alter_player (λ p, Player.set_gold (Player.gold p - goldCost)%Q p) me
                (GameState.players gs)) in *.
  assert (∀ k, k ≠ me → lookup_player k players2 = lookup_player k (GameState.players gs))
    as Hother2.
  { intros k Hk. unfold players2. destruct (is_contested tile me);
      rewrite !lookup_alter_player_ne by done; done. }
  assert (roster_keys players2 = roster_keys (GameState.players gs)) as Hkeys2.
  { unfold players2. destruct (is_contested tile me);
      rewrite !keys_alter_player; done. }
  assert (lookup_player me players2 =
          Some (Player.mk (Player.id player) (Player.name player)
                  (Player.isReady player) (Player.color player)
                  (Player.faction player) (Player.gold player - goldCost)%Q
                  (if is_contested tile me
                   then (Player.units player - unitCost)%Q else Player.units player)
                  (Player.goldRate player) (Player.unitRate player)
                  (Player.tiles player))) as Hme2.
  { unfold players2. destruct (is_contested tile me);
      rewrite !lookup_alter_player_eq, Hme; by destruct player. }
  split.
  { intros o Ho Hne. unfold drop_from_owner in Hdrop. rewrite Ho in Hdrop.
    rewrite (proj2 (String.eqb_neq o me)) in Hdrop by done. simpl in Hdrop.
    rewrite Hother2 in Hdrop by done.
    destruct (lookup_player o (GameState.players gs)); [by eexists|done]. }
  split.
  { rewrite !grid_at_alter_eq, Hat. by destruct tile. }
  split.
  { intros x' y' Hne. rewrite !grid_at_alter_ne by done. done. }
  (* the roster after the previous owner lost the tile *)
  unfold drop_from_owner in Hdrop.
  destruct (Tile.ownerId tile) as [o|] eqn:Ho.
  - destruct (String.eqb_spec o me) as [->|Hne]; simpl in Hdrop.
    + injection Hdrop as <-.
      assert (is_contested tile me = false) as Hc.
      { unfold is_contested. by rewrite Ho, String.eqb_refl. }
      rewrite Hc in *.
      split. { rewrite lookup_alter_player_eq, Hme2. done. }
      split. { intros o prev [= <-] Hne. done. }
      split. { intros k Hk _. rewrite lookup_alter_player_ne by done. auto. }
      by rewrite keys_alter_player.
    + destruct (lookup_player o players2) as [prev2|] eqn:Hprev2; [|done].
      simpl in Hdrop. injection Hdrop as <-.
      assert (is_contested tile me = true) as Hc.
      { apply is_contested_spec. eauto. }
      rewrite Hc in *.
      split.
      { rewrite lookup_alter_player_eq, lookup_alter_player_ne by done.
        rewrite Hme2. done. }
      split.
      { intros o' prev [= <-] _ Hprev.
        rewrite lookup_alter_player_ne by done.
        rewrite lookup_alter_player_eq, Hother2, Hprev by done.
        by destruct prev. }
      split.
      { intros k Hk Hnot. rewrite lookup_alter_player_ne by done.
        rewrite lookup_alter_player_ne; [auto|].
        intros ->. apply Hnot. done. }
      by rewrite !keys_alter_player.
  - injection Hdrop as <-.
    assert (is_contested tile me = false) as Hc.
    { unfold is_contested. by rewrite Ho. }
    rewrite Hc in *.
    split. { rewrite lookup_alter_player_eq, Hme2. done. }
    split. { intros o prev [=]. }
    split. { intros k Hk _. rewrite lookup_alter_player_ne by done. auto. }
    by rewrite keys_alter_player.
Qed.

(** ** Every snapshot keeps [tiles] and the grid in step *)

Lemma elem_of_drop_tile x y a b (l : list Coord.t) :
  Coord.mk a b ∈ List.filter (λ t, negb ((Coord.x t =? x) && (Coord.y t =? y))) l
  ↔ Coord.mk a b ∈ l ∧ ¬ (a = x ∧ b = y).
Proof.
  rewrite !list_elem_of_In, filter_In. simpl.
  rewrite negb_true_iff, andb_false_iff, !Z.eqb_neq. intuition lia.
Qed.

Lemma roster_wf_lookup ps k p :
  roster_wf ps → lookup_player k ps = Some p → Player.id p = k.
Proof. intros [_ Hid] Hl. by apply Hid, lookup_player_elem. Qed.

(** Who a record of the roster after a claim is. *)
Lemma claim_roster_cases me gs x y goldCost unitCost gs1 tile player k p1 :
  grid_at (GameState.grid gs) x y = Some tile →
  lookup_player me (GameState.players gs) = Some player →
  claimTile_on me gs x y goldCost unitCost = Some (true, gs1) →
  lookup_player k (GameState.players gs1) = Some p1 →
  (k = me ∧ p1 = actor_after (is_contested tile me) goldCost unitCost x y player)
  ∨ (k ≠ me ∧ Tile.ownerId tile = Some k ∧
     ∃ prev, lookup_player k (GameState.players gs) = Some prev ∧
             p1 = loser_after x y prev)
  ∨ (k ≠ me ∧ Tile.ownerId tile ≠ Some k ∧
     lookup_player k (GameState.players gs) = Some p1).
Proof.
  intros Hat Hme Hclaim Hk.
  destruct (claimTile_on_true _ _ _ _ _ _ _ Hclaim)
    as (tile' & player' & Hat' & Hme' & _ & _ & _ & Hprev & _ & _ & Hactor
        & Hloser & Hother & _).
  rewrite Hat in Hat'. injection Hat' as <-.
  rewrite Hme in Hme'. injection Hme' as <-.
  destruct (decide (k = me)) as [->|Hne].
  - left. split; [done|]. rewrite Hactor in Hk. by injection Hk.
  - right. destruct (decide (Tile.ownerId tile = Some k)) as [Ho|Ho].
    + left. split; [done|]. split; [done|].
      destruct (Hprev k Ho Hne) as [prev Hp]. exists prev. split; [done|].
      rewrite (Hloser k prev Ho Hne Hp) in Hk. by injection Hk.
    + right. split; [done|]. split; [done|].
      rewrite Hother in Hk; [done|done|]. intros [_ ?]. done.
Qed.

Lemma claimTile_on_ok me gs x y goldCost unitCost gs1 :
  snapshot_ok gs →
  claimTile_on me gs x y goldCost unitCost = Some (true, gs1) →
  snapshot_ok gs1.
Proof.
  intros [Hwf Hinv] Hclaim.
  destruct (claimTile_on_true _ _ _ _ _ _ _ Hclaim)
    as (tile & player & Hat & Hme & _ & _ & _ & _ & Hat1 & Hgrid & _ & _ & _ & Hkeys).
  assert (NoDup (roster_keys (GameState.players gs1))) as Hnd1.
  { rewrite Hkeys. apply Hwf. }
  assert (Player.id player = me) as Hidme by by eapply roster_wf_lookup.
  split.
  - split; [done|]. intros k p1 Hin%elem_lookup_player; [|done].
    destruct (claim_roster_cases _ _ _ _ _ _ _ _ _ _ _ Hat Hme Hclaim Hin)
      as [[-> ->]|[(_ & _ & prev & Hp & ->)|(_ & _ & Hp)]]; simpl.
    + done.
    + by eapply roster_wf_lookup.
    + by eapply roster_wf_lookup.
  - intros k p1 Hin%elem_lookup_player a b; [|done].
    assert (∀ q, owns gs1 q a b ↔
                 if decide (a = x ∧ b = y) then q = me else owns gs q a b) as Howns.
    { intros q. unfold owns. destruct (decide (a = x ∧ b = y)) as [[-> ->]|Hab].
      - rewrite Hat1. split.
        + by intros (t & [= <-] & [= <-]).
        + intros ->. by eexists.
      - by rewrite Hgrid. }
    rewrite Howns.
    destruct (claim_roster_cases _ _ _ _ _ _ _ _ _ _ _ Hat Hme Hclaim Hin)
      as [[-> ->]|[(Hne & Ho & prev & Hp & ->)|(Hne & Ho & Hp)]]; simpl.
    + rewrite elem_of_app, list_elem_of_singleton, Hidme.
      specialize (Hinv me player (lookup_player_elem _ _ _ Hme) a b).
      rewrite Hidme in Hinv. rewrite Hinv.
      destruct (decide (a = x ∧ b = y)) as [[-> ->]|Hab].
      * split; [done|]. by right.
      * split; [|by left]. intros [?|[= -> ->]]; [done|]. by destruct Hab.
    + rewrite elem_of_drop_tile.
      specialize (Hinv k prev (lookup_player_elem _ _ _ Hp) a b).
      assert (Player.id prev = k) as Hidk by by eapply roster_wf_lookup.
      rewrite Hidk in Hinv |- *. rewrite Hinv.
      destruct (decide (a = x ∧ b = y)) as [Hab|Hab]; [|tauto].
      split; [by intros [_ ?]|]. intros ->. done.
    + assert (Player.id p1 = k) as Hidk by by eapply roster_wf_lookup.
      rewrite Hidk.
      specialize (Hinv k p1 (lookup_player_elem _ _ _ Hp) a b).
      rewrite Hidk in Hinv. rewrite Hinv.
      destruct (decide (a = x ∧ b = y)) as [[-> ->]|Hab]; [|done].
      split; [|by intros ->].
      intros (t & Ht & Hown). rewrite Hat in Ht. injection Ht as <-. done.
Qed.

(** A step that keeps the keys, every player's id and tile list, and every
    tile's owner keeps the snapshot in order. *)
Lemma snapshot_ok_transfer gs gs1 :
  snapshot_ok gs →
  roster_keys (GameState.players gs1) = roster_keys (GameState.players gs) →
  (∀ k p1, lookup_player k (GameState.players gs1) = Some p1 →
     ∃ p, lookup_player k (GameState.players gs) = Some p ∧
          Player.id p1 = Player.id p ∧ Player.tiles p1 = Player.tiles p) →
  (∀ q a b, owns gs1 q a b ↔ owns gs q a b) →
  snapshot_ok gs1.
Proof.
  intros [Hwf Hinv] Hkeys Hplayers Howns.
  assert (NoDup (roster_keys (GameState.players gs1))) as Hnd1.
  { rewrite Hkeys. apply Hwf. }
  split.
  - split; [done|]. intros k p1 Hin%elem_lookup_player; [|done].
    destruct (Hplayers k p1 Hin) as (p & Hp & Hid & _).
    rewrite Hid. by eapply roster_wf_lookup.
  - intros k p1 Hin%elem_lookup_player a b; [|done].
    destruct (Hplayers k p1 Hin) as (p & Hp & Hid & Htiles).
    rewrite Htiles, Hid, Howns. by apply (Hinv k), lookup_player_elem.
Qed.

Lemma owns_alter (f : Tile.t → Tile.t) gs gs1 x y :
  (∀ t, Tile.ownerId (f t) = Tile.ownerId t) →
  GameState.grid gs1 = grid_alter f x y (GameState.grid gs) →
  ∀ q a b, owns gs1 q a b ↔ owns gs q a b.
Proof.
  intros Hf Hg q a b. unfold owns. rewrite Hg, grid_at_alter.
  destruct (decide (a = x ∧ b = y)) as [_|_]; [|done].
  destruct (grid_at (GameState.grid gs) a b) as [t|]; simpl.
  - split; intros (t' & [= <-] & Ho); eexists; (split; [done|]).
    + by rewrite <- Hf.
    + by rewrite Hf.
  - split; intros (t' & [=] & _).
Qed.

(** *** Building *)

Lemma buildConstruct_on_true me gs x y constructType gs1 :
  buildConstruct_on me gs x y constructType = Some (true, gs1) →
  ∃ tile player goldCost,
    grid_at (GameState.grid gs) x y = Some tile ∧
    Tile.ownerId tile = Some me ∧
    Tile.construct tile = None ∧
    construct_cost constructType = Some goldCost ∧
    lookup_player me (GameState.players gs) = Some player ∧
    num_lt (Player.gold player) goldCost = false ∧
    gs1 =
      GameState.set_players
        (alter_player (built_player constructType goldCost) me (GameState.players gs))
        (GameState.set_grid
           (grid_alter (built_tile me constructType) x y (GameState.grid gs)) gs).
Proof.
  unfold buildConstruct_on, grid_at. intros H.
  destruct (arr_get (GameState.grid gs) y) as [row|]; [|done]. simpl in *.
  destruct (arr_get row x) as [tile|] eqn:Htile; [|done]. simpl in *.
  destruct (is_id (Tile.ownerId tile) me) eqn:Hown; [|done]. simpl in H.
  destruct (Tile.construct tile) as [c|] eqn:Hc.
  { rewrite bool_decide_eq_true_2 in H by by eexists. done. }
  rewrite bool_decide_eq_false_2 in H by by intros [? [=]].
  destruct (construct_cost constructType) as [goldCost|] eqn:Hcost; [|done].
  destruct (lookup_player me (GameState.players gs)) as [player|] eqn:Hme; [|done].
  simpl in H.
  destruct (num_lt (Player.gold player) goldCost) eqn:Hgold; [done|].
  exists tile, player, goldCost.
  assert (Tile.ownerId tile = Some me) as Ho.
  { unfold is_id in Hown. destruct (Tile.ownerId tile) as [o|]; [|done].
    by apply String.eqb_eq in Hown as ->. }
  repeat (split; [done|]).
  destruct constructType; simpl in *; try done; injection H as <-;
    unfold GameState.set_players, GameState.set_grid; simpl; f_equal.
  - rewrite alter_player_compose. apply alter_player_ext. by intros [].
  - rewrite alter_player_compose. apply alter_player_ext. by intros [].
  - rewrite grid_alter_compose. apply grid_alter_ext. by intros [].
Qed.

Lemma alter_player_id f k ps : (∀ p, f p = p) → alter_player f k ps = ps.
Proof.
  intros Hf. induction ps as [|[k' p] ps IH]; [done|]. simpl.
  destruct (String.eqb k' k); by rewrite ?Hf, ?IH.
Qed.

Lemma buildConstruct_on_ok me gs x y constructType gs1 :
  snapshot_ok gs →
  buildConstruct_on me gs x y constructType = Some (true, gs1) →
  snapshot_ok gs1.
Proof.
  intros Hok (tile & player & goldCost & _ & _ & _ & _ & Hme & _ & ->)%buildConstruct_on_true.
  apply (snapshot_ok_transfer gs); simpl; [done|apply keys_alter_player| |].
  - intros k p1. destruct (decide (me = k)) as [<-|Hne].
    + rewrite lookup_alter_player_eq, Hme. intros [= <-]. by exists player.
    + rewrite lookup_alter_player_ne by done. intros Hk. by exists p1.
  - by apply (owns_alter (built_tile me constructType) gs _ x y).
Qed.

(** *** Demolishing *)

Lemma demolishConstruct_on_true me gs x y gs1 :
  demolishConstruct_on me gs x y = Some (true, gs1) →
  ∃ tile construct,
    grid_at (GameState.grid gs) x y = Some tile ∧
    Tile.ownerId tile = Some me ∧
    Tile.construct tile = Some construct ∧
    gs1 =
      GameState.set_players
        (alter_player (demolished_player (Construct.type construct)) me
                      (GameState.players gs))
        (GameState.set_grid
           (grid_alter (demolished_tile (Construct.type construct)) x y
                       (GameState.grid gs)) gs).
Proof.
  unfold demolishConstruct_on, grid_at. intros H.
  destruct (arr_get (GameState.grid gs) y) as [row|]; [|done]. simpl in *.
  destruct (arr_get row x) as [tile|] eqn:Htile; [|done]. simpl in *.
  destruct (is_id (Tile.ownerId tile) me) eqn:Hown; [|done]. simpl in H.
  destruct (Tile.construct tile) as [c|] eqn:Hc; [|done].
  exists tile, c.
  assert (Tile.ownerId tile = Some me) as Ho.
  { unfold is_id in Hown. destruct (Tile.ownerId tile) as [o|]; [|done].
    by apply String.eqb_eq in Hown as ->. }
  repeat (split; [done|]).
  destruct (Construct.type c); simpl in *;
    try (destruct (lookup_player me (GameState.players gs)); [|done]; simpl in H);
    injection H as <-;
    unfold GameState.set_players, GameState.set_grid; simpl; f_equal.
  - rewrite grid_alter_compose. apply grid_alter_ext. by intros [].
  - symmetry. apply alter_player_id. by intros [].
  - symmetry. apply alter_player_id. by intros [].
Qed.

Lemma demolishConstruct_on_ok me gs x y gs1 :
  snapshot_ok gs →
  demolishConstruct_on me gs x y = Some (true, gs1) →
  snapshot_ok gs1.
Proof.
  intros Hok (tile & c & _ & _ & _ & ->)%demolishConstruct_on_true.
  apply (snapshot_ok_transfer gs); simpl; [done|apply keys_alter_player| |].
  - intros k p1. destruct (decide (me = k)) as [<-|Hne].
    + rewrite lookup_alter_player_eq.
      destruct (lookup_player me (GameState.players gs)) as [p|]; [|done].
      intros [= <-]. by exists p.
    + rewrite lookup_alter_player_ne by done. intros Hk. by exists p1.
  - by apply (owns_alter (demolished_tile (Construct.type c)) gs _ x y).
Qed.

(** *** Ticking *)

Lemma lookup_player_fmap (f : Player.t → Player.t) k ps :
  lookup_player k (prod_map id f <$> ps) = f <$> lookup_player k ps.
Proof.
  induction ps as [|[k' p] ps IH]; [done|]. simpl.
  by destruct (String.eqb k' k).
Qed.

Lemma roster_keys_fmap (f : Player.t → Player.t) ps :
  roster_keys (prod_map id f <$> ps) = roster_keys ps.
Proof.
  unfold roster_keys. rewrite <- list_fmap_compose. by apply list_fmap_ext; intros ? [].
Qed.

Lemma accrue_id p : Player.id (accrue p) = Player.id p.
Proof. unfold accrue. by destruct (Nat.eqb _ _). Qed.

Lemma accrue_tiles p : Player.tiles (accrue p) = Player.tiles p.
Proof. unfold accrue. by destruct (Nat.eqb _ _). Qed.

Lemma updateResources_ok now gs :
  snapshot_ok gs → snapshot_ok (updateResources now gs).
Proof.
  intros Hok. unfold updateResources. destruct (time_is_up now gs).
  - apply (snapshot_ok_transfer gs); simpl; [done|done| |done].
    intros k p1 Hk. by exists p1.
  - apply (snapshot_ok_transfer gs); simpl; [done|apply roster_keys_fmap| |done].
    intros k p1. rewrite lookup_player_fmap.
    destruct (lookup_player k (GameState.players gs)) as [p|]; [|done].
    intros [= <-]. exists p. by rewrite accrue_id, accrue_tiles.
Qed.

(** *** Game start *)

Lemma arr_get_fmap {A B} (f : A → B) (l : list A) i :
  arr_get (f <$> l) i = f <$> arr_get l i.
Proof. unfold arr_get. destruct (i <? 0); [done|]. apply list_lookup_fmap. Qed.

Lemma arr_get_seqZ n i :
  arr_get (seqZ 0 n) i = if decide (0 ≤ i < n) then Some i else None.
Proof.
  unfold arr_get. destruct (Z.ltb_spec i 0) as [Hi|Hi].
  { rewrite decide_False; [done|lia]. }
  destruct (decide (i < n)) as [Hn|Hn].
  - rewrite lookup_seqZ_lt by lia. rewrite decide_True by lia. f_equal. lia.
  - rewrite lookup_seqZ_ge by lia. rewrite decide_False; [done|lia].
Qed.

Lemma grid_at_emptyGrid a b :
  grid_at emptyGrid a b =
  if decide ((0 ≤ a < GRID_SIZE) ∧ (0 ≤ b < GRID_SIZE))
  then Some (emptyTile a b) else None.
Proof.
  unfold grid_at, emptyGrid. rewrite arr_get_fmap, arr_get_seqZ.
  destruct (decide (0 ≤ b < GRID_SIZE)) as [Hb|Hb]; cbn [fmap option_fmap option_map mbind option_bind].
  - rewrite arr_get_fmap, arr_get_seqZ.
    destruct (decide (0 ≤ a < GRID_SIZE)) as [Ha|Ha]; simpl.
    + by rewrite decide_True.
    + rewrite decide_False; [done|tauto].
  - rewrite decide_False; [done|tauto].
Qed.

Lemma emptyGrid_rows :
  length emptyGrid = Z.to_nat GRID_SIZE ∧
  Forall (λ row, length row = Z.to_nat GRID_SIZE) emptyGrid.
Proof.
  unfold emptyGrid. split.
  - by rewrite length_fmap, length_seqZ.
  - apply Forall_fmap, Forall_forall. intros y _. unfold compose.
    by rewrite length_fmap, length_seqZ.
Qed.

Lemma place_player_entry i g k p :
  (place_player i g (k, p)).2 =
  (k, match startingPositions !! i with
      | Some pos => placed_player pos p
      | None => p
      end).
Proof.
  unfold place_player. destruct (startingPositions !! i) as [[px py]|]; [|done].
  unfold placed_player. destruct p as [? ? ? ? f ? ? ? ? ?]. simpl.
  by destruct (Faction_eqb f ALIENS).
Qed.

Lemma forEach_place_players es : ∀ i g j k p,
  es !! j = Some (k, p) →
  (forEach_place i g es).2 !! j =
  Some (k, match startingPositions !! (i + j)%nat with
           | Some pos => placed_player pos p
           | None => p
           end).
Proof.
  induction es as [|e es IH]; intros i g j k p Hj; [done|]. simpl.
  destruct (place_player i g e) as [g1 e1] eqn:He.
  destruct (forEach_place (S i) g1 es) as [g2 es2] eqn:Hes. simpl.
  destruct j as [|j]; simpl in *.
  - injection Hj as ->. apply (f_equal snd) in He.
    rewrite place_player_entry in He. simpl in He. subst e1.
    by rewrite Nat.add_0_r.
  - specialize (IH (S i) g1 j k p Hj). rewrite Hes in IH. cbn [snd] in IH.
    replace (i + S j)%nat with (S i + j)%nat by lia. exact IH.
Qed.

Lemma forEach_place_keys es : ∀ i g,
  roster_keys (forEach_place i g es).2 = roster_keys es.
Proof.
  induction es as [|[k p] es IH]; intros i g; [done|]. cbn [forEach_place].
  destruct (place_player i g (k, p)) as [g1 [k1 p1]] eqn:He.
  assert (k1 = k) as ->.
  { apply (f_equal snd) in He. rewrite place_player_entry in He. by injection He. }
  specialize (IH (S i) g1).
  destruct (forEach_place (S i) g1 es) as [g2 es2].
  unfold roster_keys in *. cbn [snd] in *. rewrite !fmap_cons. cbn [fst].
  by rewrite IH.
Qed.

Lemma forEach_place_length es i g :
  length (forEach_place i g es).2 = length es.
Proof.
  rewrite <- (length_fmap fst), <- (length_fmap fst es).
  apply (f_equal length), forEach_place_keys.
Qed.

Lemma place_player_grid i g k p a b :
  grid_at (place_player i g (k, p)).1 a b =
  match startingPositions !! i with
  | Some pos =>
      if decide (a = Coord.x pos ∧ b = Coord.y pos)
      then (λ t, Tile.mk (Tile.x t) (Tile.y t) (Some k) (Some (Player.color p))
                         (Tile.construct t) (Tile.defenseBonus t))
           <$> grid_at g a b
      else grid_at g a b
  | None => grid_at g a b
  end.
Proof.
  unfold place_player. destruct (startingPositions !! i) as [pos|]; [|done].
  simpl. rewrite !grid_at_alter.
  destruct (decide (a = Coord.x pos ∧ b = Coord.y pos)); [|done].
  by destruct (grid_at g a b) as [[]|].
Qed.

Lemma startingPositions_distinct i j pos pos' :
  startingPositions !! i = Some pos → startingPositions !! j = Some pos' →
  Coord.x pos = Coord.x pos' → Coord.y pos = Coord.y pos' → i = j.
Proof.
  destruct i as [|[|[|i]]], j as [|[|[|j]]]; intros ? ?; simplify_eq/=;
    unfold GRID_SIZE; intros; done || lia.
Qed.

Lemma forEach_place_grid_other es : ∀ i g a b,
  (∀ j pos, (j < length es)%nat → startingPositions !! (i + j)%nat = Some pos →
            ¬ (a = Coord.x pos ∧ b = Coord.y pos)) →
  grid_at (forEach_place i g es).1 a b = grid_at g a b.
Proof.
  induction es as [|[k p] es IH]; intros i g a b Hfree; [done|].
  cbn [forEach_place].
  pose proof (place_player_grid i g k p a b) as Hg1.
  destruct (place_player i g (k, p)) as [g1 e1].
  specialize (IH (S i) g1 a b).
  destruct (forEach_place (S i) g1 es) as [g2 es2]. cbn [fst] in *.
  rewrite IH.
  - rewrite Hg1. destruct (startingPositions !! i) as [pos|] eqn:Hpos; [|done].
    rewrite decide_False; [done|]. apply (Hfree 0%nat); simpl; [lia|].
    by rewrite Nat.add_0_r.
  - intros j pos Hj Hpos. apply (Hfree (S j)); simpl; [lia|].
    by replace (i + S j)%nat with (S i + j)%nat by lia.
Qed.

Lemma forEach_place_grid_start es : ∀ i g j k p pos t,
  es !! j = Some (k, p) →
  startingPositions !! (i + j)%nat = Some pos →
  grid_at g (Coord.x pos) (Coord.y pos) = Some t →
  grid_at (forEach_place i g es).1 (Coord.x pos) (Coord.y pos) =
  Some (Tile.mk (Tile.x t) (Tile.y t) (Some k) (Some (Player.color p))
                (Tile.construct t) (Tile.defenseBonus t)).
Proof.
  induction es as [|[k0 p0] es IH]; intros i g j k p pos t Hj Hpos Ht; [done|].
  cbn [forEach_place].
  pose proof (place_player_grid i g k0 p0 (Coord.x pos) (Coord.y pos)) as Hg1.
  destruct (place_player i g (k0, p0)) as [g1 e1] eqn:He.
  pose proof (forEach_place_grid_other es (S i) g1 (Coord.x pos) (Coord.y pos)) as Hrest.
  specialize (IH (S i) g1).
  destruct (forEach_place (S i) g1 es) as [g2 es2]. cbn [fst] in *.
  destruct j as [|j]; simpl in Hj.
  - injection Hj as -> ->. rewrite Nat.add_0_r in Hpos.
    rewrite Hrest.
    + rewrite Hg1, Hpos, decide_True by done. by rewrite Ht.
    + intros j' pos' _ Hpos' [Hx Hy].
      pose proof (startingPositions_distinct _ _ _ _ Hpos Hpos' Hx Hy). lia.
  - apply (IH j k p pos t Hj).
    + by replace (S i + j)%nat with (i + S j)%nat by lia.
    + rewrite Hg1. destruct (startingPositions !! i) as [pos'|] eqn:Hpos'; [|done].
      rewrite decide_False; [done|]. intros [Hx Hy].
      pose proof (startingPositions_distinct _ _ _ _ Hpos Hpos' Hx Hy). lia.
Qed.

Lemma initializeGameState_unfold now ps :
  initializeGameState now ps =
  GameState.mk true (head (roster_keys ps))
    (forEach_place 0 emptyGrid ps).1 (forEach_place 0 emptyGrid ps).2
    (Some (now + GAME_DURATION_MS)) false None.
Proof.
  unfold initializeGameState. by destruct (forEach_place 0 emptyGrid ps).
Qed.

Lemma startingPositions_in_grid j pos :
  startingPositions !! j = Some pos →
  grid_at emptyGrid (Coord.x pos) (Coord.y pos)
  = Some (emptyTile (Coord.x pos) (Coord.y pos)).
Proof.
  intros Hpos. rewrite grid_at_emptyGrid, decide_True; [done|].
  destruct j as [|[|[|j]]]; simplify_eq/=; unfold GRID_SIZE; lia.
Qed.

Lemma start_position_cases a b :
  (∃ j pos, startingPositions !! j = Some pos ∧ a = Coord.x pos ∧ b = Coord.y pos)
  ∨ (∀ j pos, startingPositions !! j = Some pos →
              ¬ (a = Coord.x pos ∧ b = Coord.y pos)).
Proof.
  destruct (decide (a = 3 ∧ b = 3)) as [[-> ->]|H0].
  { left. by exists 0%nat, (Coord.mk 3 3). }
  destruct (decide (a = 20 ∧ b = 20)) as [[-> ->]|H1].
  { left. by exists 1%nat, (Coord.mk 20 20). }
  destruct (decide (a = 3 ∧ b = 20)) as [[-> ->]|H2].
  { left. by exists 2%nat, (Coord.mk 3 20). }
  right. intros [|[|[|j]]] pos ?; simplify_eq/=; unfold GRID_SIZE; lia.
Qed.

(** A tile of the initial grid that has an owner is the starting tile of
    that player. *)
Lemma initial_owner ps a b t q :
  grid_at (forEach_place 0 emptyGrid ps).1 a b = Some t →
  Tile.ownerId t = Some q →
  ∃ j p pos, ps !! j = Some (q, p) ∧ startingPositions !! j = Some pos ∧
             a = Coord.x pos ∧ b = Coord.y pos.
Proof.
  intros Ht Hq.
  assert ((∀ j pos, (j < length ps)%nat → startingPositions !! (0 + j)%nat = Some pos →
                    ¬ (a = Coord.x pos ∧ b = Coord.y pos)) → False) as Hempty.
  { intros Hfree. rewrite forEach_place_grid_other, grid_at_emptyGrid in Ht by done.
    destruct (decide _); [|done]. injection Ht as <-. done. }
  destruct (start_position_cases a b) as [(j & pos & Hpos & -> & ->)|Hno].
  - destruct (ps !! j) as [[k p]|] eqn:Hj.
    + rewrite (forEach_place_grid_start ps 0 emptyGrid j k p pos
                 (emptyTile (Coord.x pos) (Coord.y pos))) in Ht;
        [|done|done|by eapply startingPositions_in_grid].
      injection Ht as <-. simpl in Hq. injection Hq as ->. by exists j, p, pos.
    + exfalso. apply Hempty. intros j' pos' Hj' Hpos' [Hx Hy]. simpl in Hpos'.
      pose proof (startingPositions_distinct _ _ _ _ Hpos Hpos' Hx Hy) as Hjj.
      apply lookup_ge_None in Hj. lia.
  - exfalso. apply Hempty. intros j pos _ Hpos. by apply (Hno j).
Qed.

Lemma roster_index_unique (ps : Roster) i j k p p' :
  NoDup (roster_keys ps) → ps !! i = Some (k, p) → ps !! j = Some (k, p') → i = j.
Proof.
  intros Hnd Hi Hj. apply (NoDup_lookup (roster_keys ps) i j k Hnd).
  - unfold roster_keys. by rewrite list_lookup_fmap, Hi.
  - unfold roster_keys. by rewrite list_lookup_fmap, Hj.
Qed.

Lemma initializeGameState_ok now ps :
  lobby_roster ps → snapshot_ok (initializeGameState now ps).
Proof.
  intros [[Hnd Hid] Hrest]. rewrite initializeGameState_unfold.
  assert (∀ k p1, (k, p1) ∈ (forEach_place 0 emptyGrid ps).2 →
            ∃ j p, ps !! j = Some (k, p) ∧
                   p1 = match startingPositions !! j with
                        | Some pos => placed_player pos p
                        | None => p
                        end) as Hentries.
  { intros k p1 (j & Hj)%list_elem_of_lookup.
    destruct (ps !! j) as [[k' p]|] eqn:Hps.
    - rewrite (forEach_place_players ps 0 emptyGrid j k' p Hps) in Hj.
      change (0 + j)%nat with j in Hj. injection Hj as -> <-. by exists j, p.
    - apply lookup_ge_None in Hps. apply lookup_lt_Some in Hj.
      rewrite forEach_place_length in Hj. lia. }
  split; simpl.
  - split; [by rewrite forEach_place_keys|].
    intros k p1 (j & p & Hj & ->)%Hentries.
    assert (Player.id p = k) as <-
      by (apply Hid, list_elem_of_lookup; by exists j).
    by destruct (startingPositions !! j).
  - intros k p1 (j & p & Hj & ->)%Hentries a b.
    assert (Player.id p = k) as Hk
      by (apply Hid, list_elem_of_lookup; by exists j).
    unfold owns. simpl.
    destruct (startingPositions !! j) as [pos|] eqn:Hpos; simpl; rewrite Hk.
    + rewrite list_elem_of_singleton. split.
      * intros <-. eexists. split.
        -- eapply (forEach_place_grid_start ps 0 emptyGrid j k p (Coord.mk a b));
             try done.
           by eapply (startingPositions_in_grid j (Coord.mk a b)).
        -- done.
      * intros (t & Ht & Hq).
        destruct (initial_owner _ _ _ _ _ Ht Hq) as (j' & p' & pos' & Hj' & Hpos' & -> & ->).
        assert (j' = j) as -> by by eapply roster_index_unique.
        rewrite Hpos in Hpos'. injection Hpos' as <-. by destruct pos.
    + rewrite (Hrest j k p Hj) by by apply lookup_ge_None.
      split; [by intros ?%elem_of_nil|].
      intros (t & Ht & Hq).
      destruct (initial_owner _ _ _ _ _ Ht Hq) as (j' & p' & pos' & Hj' & Hpos' & _).
      assert (j' = j) as -> by by eapply roster_index_unique.
      congruence.
Qed.

(** *** Rejected actions *)

Lemma claimTile_on_false me gs x y goldCost unitCost gs1 :
  claimTile_on me gs x y goldCost unitCost = Some (false, gs1) → gs1 = gs.
Proof.
  intros H. claim_guards H; try by injection H.
  match type of H with
  | context [drop_from_owner ?t ?m ?a ?b ?ps] =>
      destruct (drop_from_owner t m a b ps); done
  end.
Qed.

Lemma buildConstruct_on_false me gs x y constructType gs1 :
  buildConstruct_on me gs x y constructType = Some (false, gs1) → gs1 = gs.
Proof.
  unfold buildConstruct_on. intros H.
  destruct (arr_get (GameState.grid gs) y) as [row|]; [|done]. simpl in H.
  destruct (arr_get row x) as [tile|]; [|done]. simpl in H.
  destruct (negb (is_id (Tile.ownerId tile) me)); [by injection H|].
  destruct (bool_decide (is_Some (Tile.construct tile))); [by injection H|].
  destruct (construct_cost constructType); [|by injection H].
  destruct (lookup_player me (GameState.players gs)) as [player|]; [|done].
  simpl in H.
  destruct (num_lt (Player.gold player) _); [by injection H|].
  by destruct constructType.
Qed.

Lemma demolishConstruct_on_false me gs x y gs1 :
  demolishConstruct_on me gs x y = Some (false, gs1) → gs1 = gs.
Proof.
  unfold demolishConstruct_on. intros H.
  destruct (arr_get (GameState.grid gs) y) as [row|]; [|done]. simpl in H.
  destruct (arr_get row x) as [tile|]; [|done]. simpl in H.
  destruct (negb (is_id (Tile.ownerId tile) me)); [by injection H|].
  destruct (Tile.construct tile) as [c|]; [|by injection H].
  destruct (Construct.type c); simpl in H;
    try (destruct (lookup_player me (GameState.players gs)); [|done]; simpl in H);
    done.
Qed.

Lemma reachable_ok gs : reachable gs → snapshot_ok gs.
Proof.
  induction 1 as [now ps Hps|gs me x y gc uc gs1 _ IH Hc|gs me x y ty gs1 _ IH Hb
                 |gs me x y gs1 _ IH Hd|gs now _ IH _].
  - by apply initializeGameState_ok.
  - by eapply claimTile_on_ok.
  - by eapply buildConstruct_on_ok.
  - by eapply demolishConstruct_on_ok.
  - by apply updateResources_ok.
Qed.

Lemma ann_and_bob_lobby : lobby_roster ann_and_bob.
Proof.
  split; [split|].
  - unfold roster_keys. simpl. by apply (bool_decide_unpack _).
  - intros k p Hin. repeat (apply elem_of_cons in Hin as [[= -> ->]|Hin]; [done|]).
    by apply elem_of_nil in Hin.
  - intros [|[|i]] k p; simpl; [intros _; lia..|]. done.
Qed.

(** ** The claims *)

(** C1.  [snapshot_ok] says that every player's [tiles], read as a set, is
    the set of coordinates [(x, y)] with [grid[y][x].ownerId] equal to the
    player's id (and that the roster is keyed by the players' ids).  Game
    start establishes it; [claimTile], [buildConstruct] and
    [demolishConstruct] keep it, whatever they return; so it holds for every
    player at every snapshot reachable from a game start by these actions and
    by ticks. *)
Theorem tiles_always_match_grid :
  (∀ now ps, lobby_roster ps → snapshot_ok (initializeGameState now ps)) ∧
  (∀ gs, snapshot_ok gs →
     (∀ me x y goldCost unitCost r,
        claimTile_on me gs x y goldCost unitCost = Some r → snapshot_ok r.2) ∧
     (∀ me x y constructType r,
        buildConstruct_on me gs x y constructType = Some r → snapshot_ok r.2) ∧
     (∀ me x y r,
        demolishConstruct_on me gs x y = Some r → snapshot_ok r.2)) ∧
  (∀ gs, reachable gs → tiles_match_grid gs).
Proof.
  split; [exact initializeGameState_ok|]. split.
  - intros gs Hok. split; [|split].
    + intros me x y gc uc [[] gs1] Hr; simpl.
      * by eapply claimTile_on_ok.
      * by apply claimTile_on_false in Hr as ->.
    + intros me x y ty [[] gs1] Hr; simpl.
      * by eapply buildConstruct_on_ok.
      * by apply buildConstruct_on_false in Hr as ->.
    + intros me x y [[] gs1] Hr; simpl.
      * by eapply demolishConstruct_on_ok.
      * by apply demolishConstruct_on_false in Hr as ->.
  - intros gs Hreach. by apply reachable_ok.
Qed.

(** Ann and Bob start a game and one tick passes. *)
Lemma tiles_always_match_grid_witness :
  reachable game_ticked ∧ tiles_match_grid game_ticked.
Proof.
  assert (reachable game_ticked) as Hreach.
  { apply reach_tick; [|reflexivity].
    apply reach_start. exact ann_and_bob_lobby. }
  split; [exact Hreach|].
  exact (proj2 (proj2 tiles_always_match_grid) game_ticked Hreach).
Defined.

(** *** Comparisons and adjacency *)

Lemma num_lt_false a b : (b <= a)%Q → num_lt a b = false.
Proof.
  intros Hle. unfold num_lt. destruct (Qcompare a b) eqn:E; try done.
  apply Qlt_alt in E. exfalso. by apply (Qlt_not_le a b).
Qed.

Lemma adjacent_to_spec x y c : adjacent_to x y c = true ↔ four_adjacent c x y.
Proof.
  unfold adjacent_to, four_adjacent.
  rewrite orb_true_iff, !andb_true_iff, !Z.eqb_eq. tauto.
Qed.

Lemma existsb_adjacent x y (l : list Coord.t) :
  existsb (adjacent_to x y) l = true ↔ ∃ c, c ∈ l ∧ four_adjacent c x y.
Proof.
  rewrite existsb_exists. split; intros (c & Hin & Hadj); exists c.
  - by rewrite list_elem_of_In, <- adjacent_to_spec.
  - by rewrite <- list_elem_of_In, adjacent_to_spec.
Qed.

Lemma existsb_not_adjacent x y (l : list Coord.t) :
  (∀ c, c ∈ l → ¬ four_adjacent c x y) → existsb (adjacent_to x y) l = false.
Proof.
  intros Hno. apply not_true_is_false. intros (c & Hin & Hadj)%existsb_adjacent.
  by apply (Hno c).
Qed.

(** The provider's [claimTile] succeeds exactly when the engine's does. *)
Lemma claimTile_true me st x y goldCost unitCost st1 :
  claimTile me st x y goldCost unitCost = Some (true, st1) ↔
  ∃ gs gs1, gameState st = Some gs ∧ is_Some (lobbyState st) ∧
            claimTile_on me gs x y goldCost unitCost = Some (true, gs1) ∧
            st1 = mkStore (lobbyState st) (Some gs1).
Proof.
  unfold claimTile. split.
  - destruct (gameState st) as [gs|]; [|done].
    destruct (lobbyState st) as [lobby|]; [|done].
    destruct (claimTile_on me gs x y goldCost unitCost) as [[[] gs1]|] eqn:Hon;
      [|done..].
    intros [= <-]. exists gs, gs1. split; [done|]. split; [by eexists|]. done.
  - intros (gs & gs1 & Hgs & [lobby Hlobby] & Hon & ->).
    by rewrite Hgs, Hlobby, Hon.
Qed.

(** With [tiles] and the grid in step, "no adjacent tile in [tiles]" and
    "no adjacent tile owned on the grid" are the same condition. *)
Lemma not_adjacent_on_grid gs me player x y :
  snapshot_ok gs →
  lookup_player me (GameState.players gs) = Some player →
  (∀ a b, owns gs me a b → ¬ four_adjacent (Coord.mk a b) x y) →
  ∀ c, c ∈ Player.tiles player → ¬ four_adjacent c x y.
Proof.
  intros [Hwf Hinv] Hme Hgrid [a b] Hin.
  apply Hgrid. rewrite <- (roster_wf_lookup _ _ _ Hwf Hme).
  by apply (Hinv me player (lookup_player_elem _ _ _ Hme)).
Qed.

Lemma adjacent_on_grid gs me player x y :
  lookup_player me (GameState.players gs) = Some player →
  (∃ c, c ∈ Player.tiles player ∧ four_adjacent c x y)
  ∨ (snapshot_ok gs ∧
     ∃ a b, owns gs me a b ∧ four_adjacent (Coord.mk a b) x y) →
  ∃ c, c ∈ Player.tiles player ∧ four_adjacent c x y.
Proof.
  intros Hme [Hlist|[[Hwf Hinv] (a & b & Hown & Hadj)]]; [done|].
  exists (Coord.mk a b). split; [|done].
  apply (Hinv me player (lookup_player_elem _ _ _ Hme)).
  by rewrite (roster_wf_lookup _ _ _ Hwf Hme).
Qed.

(** C2.  A target inside the grid that is not 4-directionally adjacent to
    any tile the acting player owns is refused: [claimTile] returns [false]
    and the store is the one it was called on, whatever gold and units the
    player has and whatever the costs are.  The tiles the player owns are
    those of [player.tiles], which the code reads, or, in a snapshot where
    [tiles] and the grid are in step, those with the player's id on the
    grid. *)
Theorem claimTile_rejects_non_adjacent me st x y goldCost unitCost :
  (∀ gs, gameState st = Some gs →
     ∃ tile player,
       grid_at (GameState.grid gs) x y = Some tile ∧
       lookup_player me (GameState.players gs) = Some player ∧
       ((∀ c, c ∈ Player.tiles player → ¬ four_adjacent c x y)
        ∨ (snapshot_ok gs ∧
           ∀ a b, owns gs me a b → ¬ four_adjacent (Coord.mk a b) x y))) →
  claimTile me st x y goldCost unitCost = Some (false, st).
Proof.
  intros Hgame. unfold claimTile.
  destruct (gameState st) as [gs|]; [|done].
  destruct (lobbyState st) as [lobby|]; [|done].
  destruct (Hgame gs eq_refl) as (tile & player & Hat & Hme & Hfar).
  assert (∀ c, c ∈ Player.tiles player → ¬ four_adjacent c x y) as Hfar'.
  { destruct Hfar as [Hlist|[Hok Hgrid]]; [done|].
    by apply (not_adjacent_on_grid gs me). }
  unfold claimTile_on. unfold grid_at in Hat.
  destruct (arr_get (GameState.grid gs) y) as [row|]; [|done]. simpl in *.
  rewrite Hme, Hat. simpl.
  destruct (num_lt (Player.gold player) goldCost); [done|].
  destruct (is_contested tile me && num_lt (Player.units player) unitCost); [done|].
  by rewrite existsb_not_adjacent.
Qed.

(** [A], alone at (3, 3) with 10 gold, asks for (10, 10) at a price of 10. *)
Lemma claimTile_rejects_non_adjacent_witness :
  claimTile "A" lone_owner_store 10 10 10 0 = Some (false, lone_owner_store).
Proof.
  apply claimTile_rejects_non_adjacent.
  intros gs [= <-]. eexists _, player_A.
  split; [vm_compute; reflexivity|]. split; [reflexivity|]. left.
  intros c [->|[]%elem_of_nil]%elem_of_cons [[_ H]|[H _]]; vm_compute in H; discriminate H.
Defined.

(** *** Accepted claims *)

Lemma claimTile_on_succeeds me gs x y goldCost unitCost tile player :
  grid_at (GameState.grid gs) x y = Some tile →
  lookup_player me (GameState.players gs) = Some player →
  num_lt (Player.gold player) goldCost = false →
  existsb (adjacent_to x y) (Player.tiles player) = true →
  (∀ o, Tile.ownerId tile = Some o → o ≠ me →
        num_lt (Player.units player) unitCost = false ∧
        is_Some (lookup_player o (GameState.players gs))) →
  ∃ gs1, claimTile_on me gs x y goldCost unitCost = Some (true, gs1).
Proof.
  intros Hat Hme Hgold Hadj Hcontest. unfold claimTile_on. unfold grid_at in Hat.
  destruct (arr_get (GameState.grid gs) y) as [row|]; [|done]. simpl in *.
  rewrite Hme. simpl. rewrite Hgold, Hat. simpl.
  assert (is_contested tile me && num_lt (Player.units player) unitCost = false)
    as ->.
  { destruct (is_contested tile me) eqn:Hc; [|done]. simpl.
    apply is_contested_spec in Hc as (o & Ho & Hne). by apply (Hcontest o). }
  rewrite Hadj. simpl.
  match goal with
  | |- context [drop_from_owner ?t ?m ?a ?b ?ps] =>
      assert (is_Some (drop_from_owner t m a b ps)) as [players3 ->]
  end.
  { unfold drop_from_owner. destruct (Tile.ownerId tile) as [o|] eqn:Ho; [|done].
    destruct (String.eqb_spec o me) as [->|Hne]; simpl; [done|].
    destruct (Hcontest o eq_refl Hne) as [_ [prev Hprev]].
    assert (is_contested tile me = true) as -> by (apply is_contested_spec; eauto).
    rewrite !lookup_alter_player_ne, Hprev by done. done. }
  simpl. by eexists.
Qed.

(** C3.  When the acting player has at least [goldCost] gold, the target
    tile is adjacent to a tile the player owns (one of [player.tiles], or, in
    a snapshot where [tiles] and the grid are in step, one with the player's
    id on the grid) and, if the tile belongs to
    another player of the roster, the actor has at least [unitCost] units,
    [claimTile] returns [true] and stores a snapshot in which the tile carries
    the actor's id and colour, the actor's gold is lower by [goldCost] and
    [(x, y)] ends the actor's tile list.  If the tile had no owner, or the
    actor as owner, the actor's units are as before; if it belonged to another
    player, the actor's units are lower by [unitCost] and that player's tile
    list has lost [(x, y)]. *)
Theorem claimTile_succeeds me lobby gs x y goldCost unitCost tile player :
  grid_at (GameState.grid gs) x y = Some tile →
  lookup_player me (GameState.players gs) = Some player →
  (goldCost <= Player.gold player)%Q →
  ((∃ c, c ∈ Player.tiles player ∧ four_adjacent c x y)
   ∨ (snapshot_ok gs ∧
      ∃ a b, owns gs me a b ∧ four_adjacent (Coord.mk a b) x y)) →
  (∀ o, Tile.ownerId tile = Some o → o ≠ me →
        (unitCost <= Player.units player)%Q ∧
        is_Some (lookup_player o (GameState.players gs))) →
  ∃ gs1 actor,
    claimTile me (mkStore (Some lobby) (Some gs)) x y goldCost unitCost
      = Some (true, mkStore (Some lobby) (Some gs1)) ∧
    grid_at (GameState.grid gs1) x y
      = Some (Tile.mk (Tile.x tile) (Tile.y tile) (Some me)
                      (Some (Player.color player))
                      (Tile.construct tile) (Tile.defenseBonus tile)) ∧
    lookup_player me (GameState.players gs1) = Some actor ∧
    (Player.gold actor = Player.gold player - goldCost)%Q ∧
    Player.tiles actor = Player.tiles player ++ [Coord.mk x y] ∧
    (Player.id actor, Player.name actor, Player.isReady actor, Player.color actor,
     Player.faction actor, Player.goldRate actor, Player.unitRate actor)
    = (Player.id player, Player.name player, Player.isReady player,
       Player.color player, Player.faction player, Player.goldRate player,
       Player.unitRate player) ∧
    (Tile.ownerId tile = None ∨ Tile.ownerId tile = Some me →
     Player.units actor = Player.units player) ∧
    (∀ o, Tile.ownerId tile = Some o → o ≠ me →
       (Player.units actor = Player.units player - unitCost)%Q ∧
       ∀ prev, lookup_player o (GameState.players gs) = Some prev →
         ∃ prev1,
           lookup_player o (GameState.players gs1) = Some prev1 ∧
           (∀ c, c ∈ Player.tiles prev1 ↔
                 c ∈ Player.tiles prev ∧ c ≠ Coord.mk x y) ∧
           (Player.gold prev1, Player.units prev1) = (Player.gold prev, Player.units prev)).
Proof.
  intros Hat Hme Hgold Hadj Hcontest.
  apply (adjacent_on_grid gs me player x y Hme) in Hadj.
  destruct (claimTile_on_succeeds me gs x y goldCost unitCost tile player)
    as [gs1 Hclaim]; try done.
  { by apply num_lt_false. }
  { by apply existsb_adjacent. }
  { intros o Ho Hne. destruct (Hcontest o Ho Hne) as [Hunits Hprev].
    split; [by apply num_lt_false|done]. }
  destruct (claimTile_on_true _ _ _ _ _ _ _ Hclaim)
    as (tile' & player' & Hat' & Hme' & _ & _ & _ & _ & Hat1 & _ & Hactor
        & Hloser & _).
  rewrite Hat in Hat'. injection Hat' as <-.
  rewrite Hme in Hme'. injection Hme' as <-.
  exists gs1, (actor_after (is_contested tile me) goldCost unitCost x y player).
  split.
  { apply claimTile_true. exists gs, gs1. simpl. split; [done|].
    split; [by eexists|]. done. }
  split; [done|]. split; [done|]. split; [done|]. split; [done|]. split; [done|].
  split.
  - intros Hown. simpl.
    assert (is_contested tile me = false) as ->; [|done].
    unfold is_contested. destruct Hown as [->| ->]; [done|].
    by rewrite String.eqb_refl.
  - intros o Ho Hne.
    assert (is_contested tile me = true) as ->.
    { apply is_contested_spec. eauto. }
    split; [done|]. intros prev Hprev. exists (loser_after x y prev).
    split; [by apply (Hloser o prev)|]. split; [|done].
    intros [a b]. simpl. rewrite elem_of_drop_tile. split.
    + intros [Hin Hne']. split; [done|]. intros [= -> ->]. by apply Hne'.
    + intros [Hin Hne']. split; [done|]. intros [-> ->]. by apply Hne'.
Qed.

(** The two examples of the specification.  [A] alone at (3, 3) with 10 gold
    claims the free tile (4, 3) for 10 gold; [A], with 12 gold and 16 units,
    takes (5, 5) from [B] for 12 gold and 15 units. *)
Lemma claimTile_succeeds_witness :
  (∃ gs1 a1,
     claimTile "A" lone_owner_store 4 3 10 5
       = Some (true, mkStore (Some (a_lobby [("A", player_A)])) (Some gs1)) ∧
     lookup_player "A" (GameState.players gs1) = Some a1 ∧
     (Player.gold a1 == 0)%Q ∧ Player.units a1 = 0%Q ∧
     Player.tiles a1 = [Coord.mk 3 3; Coord.mk 4 3] ∧
     ∃ t, grid_at (GameState.grid gs1) 4 3 = Some t ∧ Tile.ownerId t = Some "A")
  ∧ (∃ gs1 a1 b1,
       claimTile "A" two_owner_store 5 5 12 15
         = Some (true, mkStore (Some (a_lobby [("A", rich_A); ("B", fort_B)]))
                               (Some gs1)) ∧
       lookup_player "A" (GameState.players gs1) = Some a1 ∧
       (Player.gold a1 == 0)%Q ∧ (Player.units a1 == 1)%Q ∧
       Player.tiles a1 = [Coord.mk 3 3; Coord.mk 4 3; Coord.mk 5 4; Coord.mk 5 5] ∧
       lookup_player "B" (GameState.players gs1) = Some b1 ∧
       (Coord.mk 5 5 ∉ Player.tiles b1) ∧ (Coord.mk 10 10 ∈ Player.tiles b1)).
Proof.
  split.
  - destruct (claimTile_succeeds "A" (a_lobby [("A", player_A)]) lone_owner_game
                4 3 10 5 (emptyTile 4 3) player_A)
      as (gs1 & a1 & Hclaim & Htile & Hactor & Hgold & Htiles & _ & Hfree & _).
    + vm_compute. reflexivity.
    + reflexivity.
    + vm_compute. discriminate.
    + left. exists (Coord.mk 3 3). split; [left|]. left. vm_compute.
      split; reflexivity.
    + intros o Ho. vm_compute in Ho. discriminate Ho.
    + exists gs1, a1. split; [exact Hclaim|]. split; [exact Hactor|].
      split; [rewrite Hgold; reflexivity|].
      split; [exact (Hfree (or_introl eq_refl))|].
      split; [exact Htiles|].
      eexists. split; [exact Htile|]. reflexivity.
  - destruct (claimTile_succeeds "A" (a_lobby [("A", rich_A); ("B", fort_B)])
                two_owner_game 5 5 12 15
                (fortify "B" (own "B" ROBOTS (emptyTile 5 5))) rich_A)
      as (gs1 & a1 & Hclaim & _ & Hactor & Hgold & Htiles & _ & _ & Htaken).
    + vm_compute. reflexivity.
    + reflexivity.
    + vm_compute. discriminate.
    + left. exists (Coord.mk 5 4). split; [right; right; left|]. right.
      vm_compute. split; reflexivity.
    + intros o Ho _. vm_compute in Ho. injection Ho as <-.
      split; [vm_compute; discriminate|]. by eexists.
    + destruct (Htaken "B" eq_refl) as [Hunits Hprev]; [discriminate|].
      destruct (Hprev fort_B eq_refl) as (b1 & Hb1 & Hb1tiles & _).
      exists gs1, a1, b1. split; [exact Hclaim|]. split; [exact Hactor|].
      split; [rewrite Hgold; reflexivity|].
      split; [rewrite Hunits; reflexivity|].
      split; [exact Htiles|]. split; [exact Hb1|]. split.
      * intros Hin. apply Hb1tiles in Hin as [_ Hne]. by apply Hne.
      * apply Hb1tiles. split; [right; left|discriminate].
Defined.

(** C10.  A tile the acting player already owns is not refused: if it is
    adjacent to a tile the player owns (in [player.tiles], or on the grid of
    a snapshot where the two are in step) and the player has [goldCost] gold,
    [claimTile] returns [true], takes [goldCost] gold and no units, and adds
    [(x, y)] to the end of the player's tile list, where (with [tiles] and
    the grid in step) it already occurs. *)
Theorem claimTile_accepts_own_tile me lobby gs x y goldCost unitCost tile player :
  grid_at (GameState.grid gs) x y = Some tile →
  Tile.ownerId tile = Some me →
  lookup_player me (GameState.players gs) = Some player →
  ((∃ c, c ∈ Player.tiles player ∧ four_adjacent c x y)
   ∨ (snapshot_ok gs ∧
      ∃ a b, owns gs me a b ∧ four_adjacent (Coord.mk a b) x y)) →
  (goldCost <= Player.gold player)%Q →
  ∃ gs1 player1,
    claimTile me (mkStore (Some lobby) (Some gs)) x y goldCost unitCost
      = Some (true, mkStore (Some lobby) (Some gs1)) ∧
    lookup_player me (GameState.players gs1) = Some player1 ∧
    Player.gold player1 = (Player.gold player - goldCost)%Q ∧
    Player.units player1 = Player.units player ∧
    Player.tiles player1 = (Player.tiles player ++ [Coord.mk x y])%list ∧
    (snapshot_ok gs → Coord.mk x y ∈ Player.tiles player).
Proof.
  intros Hat Hown Hme Hadj Hgold.
  apply (adjacent_on_grid gs me player x y Hme) in Hadj.
  destruct (claimTile_on_succeeds me gs x y goldCost unitCost tile player)
    as [gs1 Hclaim]; try done.
  { by apply num_lt_false. }
  { by apply existsb_adjacent. }
  { intros o Ho Hne. congruence. }
  destruct (claimTile_on_true _ _ _ _ _ _ _ Hclaim)
    as (tile' & player' & Hat' & Hme' & _ & _ & _ & _ & _ & _ & Hactor & _).
  rewrite Hat in Hat'. injection Hat' as <-.
  rewrite Hme in Hme'. injection Hme' as <-.
  exists gs1. eexists. split.
  { apply claimTile_true. exists gs, gs1. simpl. split; [done|].
    split; [by eexists|]. done. }
  split; [exact Hactor|].
  assert (is_contested tile me = false) as ->.
  { unfold is_contested. by rewrite Hown, String.eqb_refl. }
  simpl. repeat (split; [done|]).
  intros [Hwf Hinv].
  apply (Hinv me player (lookup_player_elem _ _ _ Hme)).
  rewrite (roster_wf_lookup _ _ _ Hwf Hme). by exists tile.
Qed.

Lemma claimTile_accepts_own_tile_witness :
  ∃ gs1 a1,
    claimTile "A" two_owner_store 4 3 12 5
      = Some (true, mkStore (Some (a_lobby [("A", rich_A); ("B", fort_B)])) (Some gs1)) ∧
    lookup_player "A" (GameState.players gs1) = Some a1 ∧
    Player.gold a1 = (12 - 12)%Q ∧
    Player.units a1 = 16%Q ∧
    Player.tiles a1 = [Coord.mk 3 3; Coord.mk 4 3; Coord.mk 5 4; Coord.mk 4 3].
Proof.
  destruct (claimTile_accepts_own_tile "A" (a_lobby [("A", rich_A); ("B", fort_B)])
              two_owner_game 4 3 12 5 (own "A" HUMANS (emptyTile 4 3)) rich_A)
    as (gs1 & a1 & Hclaim & Hactor & Hg & Hu & Ht & _).
  - vm_compute. reflexivity.
  - reflexivity.
  - reflexivity.
  - left. exists (Coord.mk 3 3). split; [left|]. left. vm_compute.
    split; reflexivity.
  - vm_compute. discriminate.
  - exists gs1, a1. split; [exact Hclaim|]. split; [exact Hactor|].
    split; [exact Hg|]. split; [exact Hu|]. exact Ht.
Defined.

(** *** Elimination *)

Lemma claimTile_on_flags me gs x y goldCost unitCost gs1 :
  claimTile_on me gs x y goldCost unitCost = Some (true, gs1) →
  ∃ updated,
    gs1 = check_elimination updated ∧
    GameState.gameStarted updated = GameState.gameStarted gs ∧
    GameState.currentTurn updated = GameState.currentTurn gs ∧
    GameState.gameEndTime updated = GameState.gameEndTime gs ∧
    GameState.gameOver updated = GameState.gameOver gs ∧
    GameState.winner updated = GameState.winner gs.
Proof.
  intros H. claim_guards H; try discriminate H.
  match type of H with
  | context [drop_from_owner ?t ?m ?a ?b ?ps] =>
      destruct (drop_from_owner t m a b ps) as [players3|]; [|done]
  end.
  simpl in H. injection H as <-. eexists. split; [done|]. done.
Qed.

Lemma check_elimination_cases updated :
  (∃ p, activePlayers updated = [p] ∧
        GameState.gameOver (check_elimination updated) = true ∧
        GameState.winner (check_elimination updated) = Some (Player.id p))
  ∨ (length (activePlayers updated) ≠ 1%nat ∧ check_elimination updated = updated).
Proof.
  unfold check_elimination.
  destruct (activePlayers updated) as [|p [|q l]] eqn:E.
  - right. done.
  - left. by exists p.
  - right. done.
Qed.

Lemma check_elimination_active updated :
  activePlayers (check_elimination updated) = activePlayers updated.
Proof. unfold activePlayers. by rewrite check_elimination_players. Qed.

Lemma is_active_tiles p : is_active p = true ↔ Player.tiles p ≠ [].
Proof. unfold is_active. destruct (Player.tiles p); simpl; [|done]. by split. Qed.

(** A player who is the only one of the roster to hold tiles is the whole
    filtered list. *)
Lemma sole_holder_active (ps : Roster) k p :
  NoDup (roster_keys ps) →
  lookup_player k ps = Some p → Player.tiles p ≠ [] →
  (∀ k' p', lookup_player k' ps = Some p' → Player.tiles p' ≠ [] → k' = k) →
  List.filter is_active (roster_values ps) = [p].
Proof.
  unfold roster_keys, roster_values.
  induction ps as [|[k0 p0] ps IH]; intros Hnd Hk Hp Hsole; [done|].
  rewrite fmap_cons in Hnd. apply NoDup_cons in Hnd as [Hk0 Hnd].
  rewrite fmap_cons. cbn [List.filter snd]. simpl in Hk.
  destruct (String.eqb_spec k0 k) as [->|Hne].
  - injection Hk as ->. rewrite (proj2 (is_active_tiles p) Hp). f_equal.
    assert (Forall (λ q, is_active q = false) ps.*2) as Hnone.
    { apply Forall_forall. intros q ([k' q'] & -> & Hin)%list_elem_of_fmap. simpl.
      destruct (is_active q') eqn:Hq; [|done]. exfalso.
      assert (k' ≠ k) as Hk'.
      { intros ->. apply Hk0. apply list_elem_of_fmap. by exists (k, q'). }
      apply Hk'. apply (Hsole k' q'); [|by apply is_active_tiles].
      simpl. rewrite (proj2 (String.eqb_neq k k')) by done.
      by apply elem_lookup_player. }
    clear -Hnone. induction Hnone as [|q l Hq _ IHl]; [done|]. simpl.
    by rewrite Hq.
  - assert (is_active p0 = false) as ->.
    { destruct (is_active p0) eqn:Hp0; [|done]. exfalso. apply Hne.
      apply (Hsole k0 p0); [|by apply is_active_tiles].
      simpl. by rewrite String.eqb_refl. }
    apply IH; try done. intros k' p' Hk' Hp'. apply (Hsole k' p'); [|done].
    simpl. destruct (String.eqb_spec k0 k') as [->|_]; [|done].
    exfalso. apply Hk0. apply list_elem_of_fmap. exists (k', p').
    split; [done|]. by apply lookup_player_elem.
Qed.

Lemma holder_active (ps : Roster) k p :
  lookup_player k ps = Some p → Player.tiles p ≠ [] →
  (1 ≤ length (List.filter is_active (roster_values ps)))%nat.
Proof.
  unfold roster_values. induction ps as [|[k0 p0] ps IH]; intros Hk Hp; [done|].
  rewrite fmap_cons. cbn [List.filter snd]. simpl in Hk.
  destruct (String.eqb k0 k).
  - injection Hk as ->. rewrite (proj2 (is_active_tiles p) Hp). simpl. lia.
  - specialize (IH Hk Hp). destruct (is_active p0); simpl; lia.
Qed.

(** Two players who hold tiles are two elements of the filtered list. *)
Lemma two_holders_active (ps : Roster) k1 p1 k2 p2 :
  k1 ≠ k2 →
  lookup_player k1 ps = Some p1 → Player.tiles p1 ≠ [] →
  lookup_player k2 ps = Some p2 → Player.tiles p2 ≠ [] →
  (2 ≤ length (List.filter is_active (roster_values ps)))%nat.
Proof.
  unfold roster_values.
  induction ps as [|[k0 p0] ps IH]; intros Hne H1 Hp1 H2 Hp2; [done|].
  rewrite fmap_cons. cbn [List.filter snd]. simpl in H1, H2.
  destruct (String.eqb_spec k0 k1) as [->|Hk1].
  - injection H1 as ->. rewrite (proj2 (String.eqb_neq k1 k2)) in H2 by done.
    rewrite (proj2 (is_active_tiles p1) Hp1). simpl.
    pose proof (holder_active ps k2 p2 H2 Hp2) as Hlen.
    unfold roster_values in Hlen. lia.
  - destruct (String.eqb_spec k0 k2) as [->|Hk2].
    + injection H2 as ->. rewrite (proj2 (is_active_tiles p2) Hp2). simpl.
      pose proof (holder_active ps k1 p1 H1 Hp1) as Hlen.
      unfold roster_values in Hlen. lia.
    + specialize (IH Hne H1 Hp1 H2 Hp2). destruct (is_active p0); simpl; lia.
Qed.

(** C4.  After a claim that returned [true], on a roster whose keys are
    distinct: if exactly one player of the resulting roster has a non-empty
    tile list, the stored snapshot has [gameOver = true] and [winner] is that
    player's [id]; if two players hold tiles, [gameOver] and [winner] are
    what they were before the claim. *)
Theorem claimTile_declares_sole_survivor me st x y goldCost unitCost st1 gs gs1 :
  gameState st = Some gs →
  NoDup (roster_keys (GameState.players gs)) →
  claimTile me st x y goldCost unitCost = Some (true, st1) →
  gameState st1 = Some gs1 →
  (∀ k p,
     lookup_player k (GameState.players gs1) = Some p →
     Player.tiles p ≠ [] →
     (∀ k' p', lookup_player k' (GameState.players gs1) = Some p' →
               Player.tiles p' ≠ [] → k' = k) →
     GameState.gameOver gs1 = true ∧ GameState.winner gs1 = Some (Player.id p))
  ∧ (∀ k1 p1 k2 p2,
       k1 ≠ k2 →
       lookup_player k1 (GameState.players gs1) = Some p1 → Player.tiles p1 ≠ [] →
       lookup_player k2 (GameState.players gs1) = Some p2 → Player.tiles p2 ≠ [] →
       GameState.gameOver gs1 = GameState.gameOver gs ∧
       GameState.winner gs1 = GameState.winner gs).
Proof.
  intros Hgs Hnd (gs' & gs1' & Hgs' & _ & Hclaim & ->)%claimTile_true Hgs1.
  simpl in Hgs1. injection Hgs1 as ->. rewrite Hgs in Hgs'. injection Hgs' as <-.
  assert (NoDup (roster_keys (GameState.players gs1))) as Hnd1.
  { destruct (claimTile_on_true _ _ _ _ _ _ _ Hclaim)
      as (? & ? & _ & _ & _ & _ & _ & _ & _ & _ & _ & _ & _ & Hkeys).
    by rewrite Hkeys. }
  destruct (claimTile_on_flags _ _ _ _ _ _ _ Hclaim)
    as (updated & -> & _ & _ & _ & Hover & Hwin).
  rewrite check_elimination_players in *.
  destruct (check_elimination_cases updated) as [(q & Hq & Ho & Hw)|[Hlen Heq]];
    unfold activePlayers in *.
  - split.
    + intros k p Hk Hp Hsole.
      rewrite (sole_holder_active _ k p Hnd1 Hk Hp Hsole) in Hq.
      injection Hq as <-. done.
    + intros k1 p1 k2 p2 Hne H1 Hp1 H2 Hp2.
      pose proof (two_holders_active _ k1 p1 k2 p2 Hne H1 Hp1 H2 Hp2) as Hlen.
      rewrite Hq in Hlen. simpl in Hlen. lia.
  - rewrite Heq. split.
    + intros k p Hk Hp Hsole.
      rewrite (sole_holder_active _ k p Hnd1 Hk Hp Hsole) in Hlen. done.
    + done.
Qed.

(** The contested claim of the specification: [A] takes (5, 5), the only
    tile of [B], and is the only player left with tiles. *)
Lemma claimTile_declares_sole_survivor_witness :
  ∃ gs1,
    claimTile "A" last_tile_store 5 5 12 15
      = Some (true, mkStore (lobbyState last_tile_store) (Some gs1)) ∧
    GameState.gameOver gs1 = true ∧ GameState.winner gs1 = Some "A".
Proof.
  destruct (claimTile "A" last_tile_store 5 5 12 15) as [[ok st1]|] eqn:Hclaim;
    [|vm_compute in Hclaim; discriminate Hclaim].
  assert (ok = true ∧
          ∃ gs1, st1 = mkStore (lobbyState last_tile_store) (Some gs1) ∧
                 GameState.players gs1
                 = [("A", actor_after true 12 15 5 5 rich_A);
                    ("B", loser_after 5 5 last_tile_B)])
    as [-> (gs1 & -> & Hplayers)].
  { vm_compute in Hclaim. injection Hclaim as <- <-. split; [reflexivity|].
    eexists. split; reflexivity. }
  exists gs1. split; [reflexivity|].
  apply (proj1 (claimTile_declares_sole_survivor "A" last_tile_store 5 5 12 15
                  _ last_tile_game gs1 eq_refl
                  ltac:(by apply (bool_decide_unpack _)) Hclaim eq_refl)
           "A" (actor_after true 12 15 5 5 rich_A)).
  - rewrite Hplayers. reflexivity.
  - discriminate.
  - rewrite Hplayers. intros k' p' Hk' Hp'. cbn [lookup_player] in Hk'.
    destruct (String.eqb_spec "A" k') as [<-|_]; [done|].
    destruct (String.eqb_spec "B" k') as [<-|_]; [|done].
    injection Hk' as <-. by destruct Hp'.
Defined.

(** *** What a capture leaves alone *)

(** C9, as stated, fails: a capture can also change [gameOver] and
    [winner].  [A] takes the last tile of [B]; before, the game is not over
    and has no winner; after, it is over and [A] has won. *)
Lemma capture_can_end_the_game :
  ∃ gs1,
    claimTile "A" last_tile_store 5 5 12 15
      = Some (true, mkStore (lobbyState last_tile_store) (Some gs1)) ∧
    GameState.gameOver last_tile_game = false ∧
    GameState.winner last_tile_game = None ∧
    GameState.gameOver gs1 = true ∧
    GameState.winner gs1 = Some "A".
Proof. eexists. vm_compute. repeat split. Qed.

(** C9, amended.  A successful claim of a tile owned by another player [o]
    leaves the lobby, every other tile, every other player, the order of the
    roster and [gameStarted], [currentTurn] and [gameEndTime] as they were;
    on the captured tile only [ownerId] and [color] change, so its construct
    (with the construct's stored owner) and its [defenseBonus] are kept; in
    the actor's record only [gold], [units] and [tiles] change, in the
    previous owner's only [tiles]; [gameOver] and [winner] are kept unless
    exactly one player is left with tiles, who is then the winner. *)
Theorem capture_frame me st x y goldCost unitCost st1 gs gs1 tile o player prev :
  gameState st = Some gs →
  claimTile me st x y goldCost unitCost = Some (true, st1) →
  gameState st1 = Some gs1 →
  grid_at (GameState.grid gs) x y = Some tile →
  Tile.ownerId tile = Some o → o ≠ me →
  lookup_player me (GameState.players gs) = Some player →
  lookup_player o (GameState.players gs) = Some prev →
  lobbyState st1 = lobbyState st ∧
  grid_at (GameState.grid gs1) x y
    = Some (Tile.mk (Tile.x tile) (Tile.y tile) (Some me) (Some (Player.color player))
                    (Tile.construct tile) (Tile.defenseBonus tile)) ∧
  (∀ x' y', ¬ (x' = x ∧ y' = y) →
     grid_at (GameState.grid gs1) x' y' = grid_at (GameState.grid gs) x' y') ∧
  lookup_player me (GameState.players gs1)
    = Some (Player.mk (Player.id player) (Player.name player) (Player.isReady player)
              (Player.color player) (Player.faction player)
              (Player.gold player - goldCost)%Q (Player.units player - unitCost)%Q
              (Player.goldRate player) (Player.unitRate player)
              (Player.tiles player ++ [Coord.mk x y])%list) ∧
  lookup_player o (GameState.players gs1)
    = Some (Player.mk (Player.id prev) (Player.name prev) (Player.isReady prev)
              (Player.color prev) (Player.faction prev)
              (Player.gold prev) (Player.units prev)
              (Player.goldRate prev) (Player.unitRate prev)
              (List.filter (λ t, negb ((Coord.x t =? x) && (Coord.y t =? y)))
                           (Player.tiles prev))) ∧
  (∀ k, k ≠ me → k ≠ o →
     lookup_player k (GameState.players gs1) = lookup_player k (GameState.players gs)) ∧
  roster_keys (GameState.players gs1) = roster_keys (GameState.players gs) ∧
  GameState.gameStarted gs1 = GameState.gameStarted gs ∧
  GameState.currentTurn gs1 = GameState.currentTurn gs ∧
  GameState.gameEndTime gs1 = GameState.gameEndTime gs ∧
  ((GameState.gameOver gs1 = GameState.gameOver gs ∧
    GameState.winner gs1 = GameState.winner gs)
   ∨ (∃ p, activePlayers gs1 = [p] ∧ GameState.gameOver gs1 = true ∧
           GameState.winner gs1 = Some (Player.id p))).
Proof.
  intros Hgs (gs' & gs1' & Hgs' & _ & Hclaim & ->)%claimTile_true Hgs1
         Hat Ho Hne Hme Hprev.
  simpl in Hgs1. injection Hgs1 as ->. rewrite Hgs in Hgs'. injection Hgs' as <-.
  split; [done|].
  destruct (claimTile_on_true _ _ _ _ _ _ _ Hclaim)
    as (tile' & player' & Hat' & Hme' & _ & _ & _ & _ & Hat1 & Hgrid & Hactor
        & Hloser & Hother & Hkeys).
  rewrite Hat in Hat'. injection Hat' as <-.
  rewrite Hme in Hme'. injection Hme' as <-.
  assert (is_contested tile me = true) as Hc by (apply is_contested_spec; eauto).
  rewrite Hc in Hactor.
  split; [exact Hat1|]. split; [exact Hgrid|]. split; [exact Hactor|].
  split; [by apply Hloser|].
  split. { intros k Hk Hko. apply Hother; [done|]. intros [_ ?]. congruence. }
  split; [exact Hkeys|].
  destruct (claimTile_on_flags _ _ _ _ _ _ _ Hclaim)
    as (updated & -> & Hstarted & Hturn & Hend & Hover & Hwin).
  rewrite check_elimination_active.
  destruct (check_elimination_cases updated) as [(p & Hp & Hover' & Hw)|[_ Heq]].
  - unfold check_elimination in *. rewrite Hp in *. simpl.
    repeat (split; [done|]). right. by exists p.
  - rewrite Heq. repeat (split; [done|]). by left.
Qed.

(** [A] takes (5, 5) from [B], who keeps (10, 10): the defense construct
    built by [B] and the bonus of 10 stay on the tile. *)
Lemma capture_frame_witness :
  ∃ gs1,
    claimTile "A" two_owner_store 5 5 12 15
      = Some (true, mkStore (lobbyState two_owner_store) (Some gs1)) ∧
    grid_at (GameState.grid gs1) 5 5
      = Some (Tile.mk 5 5 (Some "A") (Some (baseColor HUMANS))
                      (Some (Construct.mk DEFENSE (Some "B"))) 10) ∧
    GameState.gameOver gs1 = false ∧ GameState.winner gs1 = None.
Proof.
  destruct (claimTile "A" two_owner_store 5 5 12 15) as [[ok st1]|] eqn:Hclaim;
    [|vm_compute in Hclaim; discriminate Hclaim].
  assert (ok = true ∧ ∃ gs1, st1 = mkStore (lobbyState two_owner_store) (Some gs1) ∧
                              GameState.gameOver gs1 = false ∧
                              GameState.winner gs1 = None)
    as [-> (gs1 & -> & Hover & Hwin)].
  { vm_compute in Hclaim. injection Hclaim as <- <-. split; [reflexivity|].
    eexists. repeat split. }
  exists gs1. split; [reflexivity|].
  destruct (capture_frame "A" two_owner_store 5 5 12 15 _ two_owner_game gs1
              (fortify "B" (own "B" ROBOTS (emptyTile 5 5))) "B" rich_A fort_B
              eq_refl Hclaim eq_refl)
    as (_ & Htile & _).
  - vm_compute. reflexivity.
  - reflexivity.
  - discriminate.
  - reflexivity.
  - reflexivity.
  - split; [exact Htile|]. split; [exact Hover|exact Hwin].
Defined.

(** *** Building and demolishing *)

Lemma Q_add_sub_1 (r : Q) : (r + 1 - 1)%Q = r.
Proof.
  destruct r as [n d]. unfold Qminus, Qplus, Qopp. simpl.
  rewrite !Pos.mul_1_r. f_equal. lia.
Qed.

Lemma is_id_true o k : is_id o k = true ↔ o = Some k.
Proof.
  unfold is_id. destruct o as [o|]; [|done].
  rewrite String.eqb_eq. split; [by intros ->|by intros [= ->]].
Qed.

Lemma buildConstruct_on_succeeds me gs x y constructType tile player goldCost :
  grid_at (GameState.grid gs) x y = Some tile →
  Tile.ownerId tile = Some me →
  Tile.construct tile = None →
  lookup_player me (GameState.players gs) = Some player →
  construct_cost constructType = Some goldCost →
  num_lt (Player.gold player) goldCost = false →
  ∃ gs1, buildConstruct_on me gs x y constructType = Some (true, gs1).
Proof.
  intros Hat Ho Hc Hme Hcost Hgold. unfold buildConstruct_on.
  unfold grid_at in Hat.
  destruct (arr_get (GameState.grid gs) y) as [row|]; [|done]. simpl in *.
  rewrite Hat. simpl. rewrite (proj2 (is_id_true _ _) Ho). simpl.
  rewrite Hc, bool_decide_eq_false_2 by by intros [? [=]].
  rewrite Hcost, Hme. simpl. rewrite Hgold.
  destruct constructType; by eexists.
Qed.

Lemma demolishConstruct_on_succeeds me gs x y tile construct :
  grid_at (GameState.grid gs) x y = Some tile →
  Tile.ownerId tile = Some me →
  Tile.construct tile = Some construct →
  is_Some (lookup_player me (GameState.players gs)) →
  ∃ gs1, demolishConstruct_on me gs x y = Some (true, gs1).
Proof.
  intros Hat Ho Hc [player Hme]. unfold demolishConstruct_on.
  unfold grid_at in Hat.
  destruct (arr_get (GameState.grid gs) y) as [row|]; [|done]. simpl in *.
  rewrite Hat. simpl. rewrite (proj2 (is_id_true _ _) Ho). simpl.
  rewrite Hc, Hme. destruct (Construct.type construct); by eexists.
Qed.

(** C7.  From a snapshot where the acting player owns the tile, the tile has
    no construct and the player can pay, [buildConstruct] of GOLD, UNIT or
    DEFENSE followed at once by [demolishConstruct] on the same tile both
    return [true] and leave the player's [goldRate] and [unitRate] at their
    values from before the build and the tile without a construct; after
    DEFENSE the tile's [defenseBonus] is 0. *)
Theorem build_then_demolish me lobby gs x y constructType tile player goldCost :
  grid_at (GameState.grid gs) x y = Some tile →
  Tile.ownerId tile = Some me →
  Tile.construct tile = None →
  lookup_player me (GameState.players gs) = Some player →
  construct_cost constructType = Some goldCost →
  (goldCost <= Player.gold player)%Q →
  ∃ gs1 gs2 player2 tile2,
    buildConstruct me (mkStore (Some lobby) (Some gs)) x y constructType
      = Some (true, mkStore (Some lobby) (Some gs1)) ∧
    demolishConstruct me (mkStore (Some lobby) (Some gs1)) x y
      = Some (true, mkStore (Some lobby) (Some gs2)) ∧
    lookup_player me (GameState.players gs2) = Some player2 ∧
    grid_at (GameState.grid gs2) x y = Some tile2 ∧
    Player.goldRate player2 = Player.goldRate player ∧
    Player.unitRate player2 = Player.unitRate player ∧
    Tile.construct tile2 = None ∧
    Tile.defenseBonus tile2
      = match constructType with DEFENSE => 0 | _ => Tile.defenseBonus tile end.
Proof.
  intros Hat Ho Hc Hme Hcost Hgold.
  destruct (buildConstruct_on_succeeds me gs x y constructType tile player goldCost)
    as [gs1 Hbuild]; try done.
  { by apply num_lt_false. }
  pose proof Hbuild as
    (tile' & player' & cost' & Hat' & _ & _ & Hcost' & Hme' & _ & Hgs1)%buildConstruct_on_true.
  rewrite Hat in Hat'. injection Hat' as <-.
  rewrite Hme in Hme'. injection Hme' as <-.
  rewrite Hcost in Hcost'. injection Hcost' as <-.
  assert (grid_at (GameState.grid gs1) x y = Some (built_tile me constructType tile))
    as Hat1.
  { rewrite Hgs1. simpl. by rewrite grid_at_alter_eq, Hat. }
  assert (lookup_player me (GameState.players gs1)
          = Some (built_player constructType goldCost player)) as Hme1.
  { rewrite Hgs1. simpl. by rewrite lookup_alter_player_eq, Hme. }
  destruct (demolishConstruct_on_succeeds me gs1 x y
              (built_tile me constructType tile)
              (Construct.mk constructType (Some me)))
    as [gs2 Hdemolish]; try done; try by eexists.
  pose proof Hdemolish as
    (tile1 & c1 & Hat1' & _ & Hc1 & Hgs2)%demolishConstruct_on_true.
  rewrite Hat1 in Hat1'. injection Hat1' as <-.
  simpl in Hc1. injection Hc1 as <-. simpl in Hgs2.
  exists gs1, gs2. eexists. eexists.
  split. { unfold buildConstruct. simpl. by rewrite Hbuild. }
  split. { unfold demolishConstruct. simpl. by rewrite Hdemolish. }
  split. { rewrite Hgs2. simpl. rewrite lookup_alter_player_eq, Hme1. done. }
  split. { rewrite Hgs2. simpl. rewrite grid_at_alter_eq, Hat1. done. }
  simpl. destruct constructType; simpl; try done;
    rewrite ?Q_add_sub_1; done.
Qed.

Lemma build_then_demolish_witness :
  ∃ gs1 gs2 a2 t2,
    buildConstruct "A" builder_store 4 3 GOLD
      = Some (true, mkStore (lobbyState builder_store) (Some gs1)) ∧
    demolishConstruct "A" (mkStore (lobbyState builder_store) (Some gs1)) 4 3
      = Some (true, mkStore (lobbyState builder_store) (Some gs2)) ∧
    lookup_player "A" (GameState.players gs2) = Some a2 ∧
    grid_at (GameState.grid gs2) 4 3 = Some t2 ∧
    Player.goldRate a2 = 1%Q ∧ Tile.construct t2 = None.
Proof.
  destruct (build_then_demolish "A" (a_lobby [("A", wealthy_A)])
              builder_game 4 3 GOLD (own "A" HUMANS (emptyTile 4 3)) wealthy_A 20)
    as (gs1 & gs2 & a2 & t2 & Hb & Hd & Ha & Ht & Hrate & _ & Hc & _).
  - vm_compute. reflexivity.
  - reflexivity.
  - reflexivity.
  - reflexivity.
  - reflexivity.
  - vm_compute. discriminate.
  - exists gs1, gs2, a2, t2. repeat (split; [assumption|]). assumption.
Defined.

(** *** Accrual *)

Lemma accrue_spec p :
  accrue p = match Player.tiles p with [] => p | _ => accrued p end.
Proof. unfold accrue. by destruct (Player.tiles p). Qed.

Lemma b64_lookup_player_fmap (f : Binary64.Player.t → Binary64.Player.t) k ps :
  Binary64.lookup_player k (prod_map id f <$> ps)
  = f <$> Binary64.lookup_player k ps.
Proof.
  induction ps as [|[k' p] ps IH]; [done|]. simpl.
  by destruct (String.eqb k' k).
Qed.

Lemma b64_accrue_spec p :
  Binary64.accrue p
  = match Binary64.Player.tiles p with [] => p | _ => Binary64.accrued p end.
Proof. unfold Binary64.accrue. by destruct (Binary64.Player.tiles p). Qed.

Lemma b64_tick_running now gs :
  Binary64.GameState.gameOver gs = false →
  Binary64.time_is_up now gs = false →
  Binary64.tick now (Some gs)
  = Some (Binary64.GameState.set_players
            (prod_map id Binary64.accrue <$> Binary64.GameState.players gs) gs).
Proof.
  intros Hover Hup. unfold Binary64.tick, Binary64.updateResources.
  by rewrite Hover, Hup.
Qed.

(** A player who holds tiles has accrued once per tick. *)
Lemma b64_run_ticks times : ∀ gs k p,
  Binary64.GameState.gameOver gs = false →
  Forall (λ now, Binary64.time_is_up now gs = false) times →
  Binary64.lookup_player k (Binary64.GameState.players gs) = Some p →
  Binary64.Player.tiles p ≠ [] →
  ∃ gs1,
    Binary64.run_ticks times (Some gs) = Some gs1 ∧
    Binary64.lookup_player k (Binary64.GameState.players gs1)
    = Some (Nat.iter (length times) Binary64.accrued p).
Proof.
  induction times as [|now times IH]; intros gs k p Hover Hup Hk Htiles.
  - exists gs. done.
  - apply Forall_cons in Hup as [Hnow Hup]. cbn [Binary64.run_ticks].
    rewrite (b64_tick_running now gs Hover Hnow).
    set (gs' := Binary64.GameState.set_players _ gs).
    destruct (IH gs' k (Binary64.accrued p)) as (gs1 & Hrun & Hk1); try done.
    { unfold gs'. simpl. rewrite b64_lookup_player_fmap, Hk. simpl.
      rewrite b64_accrue_spec. by destruct (Binary64.Player.tiles p). }
    exists gs1. split; [done|]. rewrite Hk1. f_equal.
    cbn [length]. by rewrite Nat.iter_succ_r.
Qed.

Lemma b64_iter_gold n p :
  Binary64.Player.gold (Nat.iter n Binary64.accrued p)
  = Nat.iter n (λ gold, PrimFloat.add gold
                          (PrimFloat.div (Binary64.Player.goldRate p) 10%float))
             (Binary64.Player.gold p) ∧
  Binary64.Player.goldRate (Nat.iter n Binary64.accrued p)
  = Binary64.Player.goldRate p.
Proof.
  induction n as [|n [IHgold IHrate]]; [done|].
  rewrite !Nat.iter_succ. simpl. by rewrite IHgold, IHrate.
Qed.

(** C8.  A tick while the game runs and its end time is not reached gives
    every player who holds tiles [gold + goldRate / 10] for gold and
    [units + unitRate / 10] for units, with [+] and [/] the binary64
    operations of the code, and leaves a player without tiles unchanged.  So
    a player who holds tiles, with no gold and a gold rate of 1, has after
    ten such ticks the double [0x1.fffffffffffffp-1] (0.9999999999999999):
    not 1, and within [2^-52], the machine epsilon, of 1. *)
Theorem tick_accrues_resources gs :
  Binary64.GameState.gameOver gs = false →
  (∀ now k p,
     Binary64.time_is_up now gs = false →
     Binary64.lookup_player k (Binary64.GameState.players gs) = Some p →
     ∃ gs1, Binary64.tick now (Some gs) = Some gs1 ∧
            Binary64.lookup_player k (Binary64.GameState.players gs1)
            = Some (match Binary64.Player.tiles p with
                    | [] => p
                    | _ => Binary64.accrued p
                    end))
  ∧ (∀ times k p,
       length times = 10%nat →
       Forall (λ now, Binary64.time_is_up now gs = false) times →
       Binary64.lookup_player k (Binary64.GameState.players gs) = Some p →
       Binary64.Player.tiles p ≠ [] →
       Binary64.Player.gold p = 0%float →
       Binary64.Player.goldRate p = 1%float →
       ∃ gs1 p1,
         Binary64.run_ticks times (Some gs) = Some gs1 ∧
         Binary64.lookup_player k (Binary64.GameState.players gs1) = Some p1 ∧
         Binary64.Player.gold p1 = 0x1.fffffffffffffp-1%float ∧
         PrimFloat.eqb (Binary64.Player.gold p1) 1%float = false ∧
         PrimFloat.leb (PrimFloat.abs (PrimFloat.sub (Binary64.Player.gold p1) 1%float))
                       0x1p-52%float = true).
Proof.
  intros Hover. split.
  - intros now k p Hup Hk. rewrite (b64_tick_running now gs Hover Hup).
    eexists. split; [done|]. simpl.
    by rewrite b64_lookup_player_fmap, Hk, <- b64_accrue_spec.
  - intros times k p Hlen Hup Hk Htiles Hgold Hrate.
    destruct (b64_run_ticks times gs k p Hover Hup Hk Htiles) as (gs1 & Hrun & Hk1).
    exists gs1, (Nat.iter (length times) Binary64.accrued p).
    split; [done|]. split; [done|].
    rewrite (proj1 (b64_iter_gold _ p)), Hlen, Hgold, Hrate.
    vm_compute. by repeat split.
Qed.

(** Ten ticks of the started game: Ann, who holds a tile, no gold and a gold
    rate of 1, ends with 0.9999999999999999. *)
Lemma tick_accrues_resources_witness :
  ∃ gs1 p1,
    Binary64.run_ticks [100; 200; 300; 400; 500; 600; 700; 800; 900; 1000]
                       (Some (Binary64.game_started
                                (grid_alter (own "bob" ALIENS) 20 20
                                   (grid_alter (own "ann" HUMANS) 3 3 emptyGrid))))
    = Some gs1 ∧
    Binary64.lookup_player "ann" (Binary64.GameState.players gs1) = Some p1 ∧
    Binary64.Player.gold p1 = 0x1.fffffffffffffp-1%float ∧
    PrimFloat.eqb (Binary64.Player.gold p1) 1%float = false ∧
    PrimFloat.leb (PrimFloat.abs (PrimFloat.sub (Binary64.Player.gold p1) 1%float))
                  0x1p-52%float = true.
Proof.
  apply (proj2 (tick_accrues_resources
                  (Binary64.game_started
                     (grid_alter (own "bob" ALIENS) 20 20
                        (grid_alter (own "ann" HUMANS) 3 3 emptyGrid)))
                  eq_refl)
           _ "ann" Binary64.ann).
  - reflexivity.
  - repeat constructor.
  - reflexivity.
  - discriminate.
  - reflexivity.
  - reflexivity.
Defined.

(** *** The end of the match *)

Lemma count_tiles_fold ps : ∀ acc,
  NoDup (acc.*1 ++ roster_keys ps) →
  fold_left (λ scores '(playerId, p),
               obj_set playerId (length (Player.tiles p)) scores) ps acc
  = acc ++ ((λ '(k, p), (k, length (Player.tiles p))) <$> ps).
Proof.
  induction ps as [|[k p] ps IH]; intros acc Hnd; simpl.
  - by rewrite app_nil_r.
  - assert (obj_set k (length (Player.tiles p)) acc
            = acc ++ [(k, length (Player.tiles p))]) as ->.
    { apply NoDup_app in Hnd as (_ & Hdisj & _).
      assert (k ∉ acc.*1) as Hk.
      { intros Hin. apply (Hdisj k Hin). left. }
      clear -Hk. induction acc as [|[k' v'] acc IH]; [done|]. simpl in *.
      apply not_elem_of_cons in Hk as [Hne Hk].
      rewrite (proj2 (String.eqb_neq k' k)) by done. by rewrite IH. }
    rewrite IH.
    + by rewrite <- app_assoc.
    + rewrite fmap_app. simpl. rewrite <- app_assoc. exact Hnd.
Qed.

Lemma count_tiles_wf ps :
  NoDup (roster_keys ps) →
  count_tiles ps = (λ '(k, p), (k, length (Player.tiles p))) <$> ps.
Proof. intros Hnd. unfold count_tiles. by rewrite count_tiles_fold. Qed.

(** The scan keeps the first entry that reaches the highest positive score. *)
Lemma find_max_spec scores :
  (∀ j k s, scores !! j = Some (k, s) → (s ≤ (find_max scores).1)%nat) ∧
  match (find_max scores).2 with
  | None => (find_max scores).1 = 0%nat
  | Some k =>
      ∃ i, scores !! i = Some (k, (find_max scores).1) ∧
           (0 < (find_max scores).1)%nat ∧
           ∀ j k' s', (j < i)%nat → scores !! j = Some (k', s') →
                      (s' < (find_max scores).1)%nat
  end.
Proof.
  induction scores as [|[k s] scores IH] using rev_ind.
  - split; [done|]. done.
  - unfold find_max in *. rewrite fold_left_app. simpl.
    destruct (fold_left find_max_step scores (0%nat, None)) as [m w].
    destruct IH as [Hle Hw]. simpl in *.
    destruct (Nat.ltb_spec m s) as [Hlt|Hge]; simpl.
    + split.
      * intros j k' s' Hj. apply lookup_app_Some in Hj as [Hj|[_ Hj]].
        -- specialize (Hle j k' s' Hj). lia.
        -- apply list_lookup_singleton_Some in Hj as [_ [= _ <-]]. lia.
      * exists (length scores). split; [|split].
        -- by rewrite lookup_app_r, Nat.sub_diag.
        -- lia.
        -- intros j k' s' Hj Hlook. rewrite lookup_app_l in Hlook by done.
           specialize (Hle j k' s' Hlook). lia.
    + split.
      * intros j k' s' Hj. apply lookup_app_Some in Hj as [Hj|[_ Hj]].
        -- by apply (Hle j k' s').
        -- apply list_lookup_singleton_Some in Hj as [_ [= _ <-]]. lia.
      * destruct w as [k0|]; [|done].
        destruct Hw as (i & Hi & Hpos & Hbefore). exists i.
        split; [by apply lookup_app_l_Some|]. split; [done|].
        intros j k' s' Hj Hlook.
        rewrite lookup_app_l in Hlook by (apply lookup_lt_Some in Hi; lia).
        by apply (Hbefore j k' s').
Qed.

(** C5, as stated, fails on a tie: the scan for the highest score starts
    from 0 with no winner and replaces the winner only on a strictly higher
    score, so of two players tied for the highest count the first in roster
    order wins.  Ann and Bob hold one tile each when the time is up. *)
Lemma tie_has_a_winner :
  GameState.gameEndTime game_started = Some 300000 ∧
  (length ∘ Player.tiles) <$> roster_values (GameState.players game_started)
    = [1%nat; 1%nat] ∧
  GameState.gameOver (updateResources 300000 game_started) = true ∧
  GameState.winner (updateResources 300000 game_started) = Some "ann" ∧
  GameState.winner (updateResources 300000 game_started) ≠ None.
Proof. vm_compute. repeat split. discriminate. Qed.

(** C5, amended.  When the ticker fires with [gameEndTime] set (to a
    non-zero timestamp) and [now >= gameEndTime], it sets [gameOver = true]
    and leaves grid and players alone; the winner is the first player in
    roster order among those with the highest tile count, if that count is
    positive, and [null] exactly when no player holds a tile.  So a player
    with the strictly highest count wins, and a tie for the highest count is
    won by the tied player who comes first in the roster. *)
Theorem time_up_declares_leader now gs t :
  NoDup (roster_keys (GameState.players gs)) →
  GameState.gameEndTime gs = Some t → t ≠ 0 → t ≤ now →
  let gs1 := updateResources now gs in
  GameState.gameOver gs1 = true ∧
  GameState.players gs1 = GameState.players gs ∧
  GameState.grid gs1 = GameState.grid gs ∧
  (∀ w, GameState.winner gs1 = Some w →
     ∃ i p, GameState.players gs !! i = Some (w, p) ∧
            Player.tiles p ≠ [] ∧
            (∀ j k q, GameState.players gs !! j = Some (k, q) →
                      (length (Player.tiles q) ≤ length (Player.tiles p))%nat) ∧
            (∀ j k q, (j < i)%nat → GameState.players gs !! j = Some (k, q) →
                      (length (Player.tiles q) < length (Player.tiles p))%nat)) ∧
  (GameState.winner gs1 = None ↔
     ∀ k q, (k, q) ∈ GameState.players gs → Player.tiles q = []) ∧
  (∀ k p, (k, p) ∈ GameState.players gs → Player.tiles p ≠ [] →
     (∀ k' q, (k', q) ∈ GameState.players gs → k' ≠ k →
              (length (Player.tiles q) < length (Player.tiles p))%nat) →
     GameState.winner gs1 = Some k).
Proof.
  intros Hnd Hend Ht0 Htnow gs1.
  assert (time_is_up now gs = true) as Hup.
  { unfold time_is_up. rewrite Hend. apply andb_true_iff. split.
    - by apply negb_true_iff, Z.eqb_neq.
    - by apply Z.leb_le. }
  unfold gs1, updateResources. rewrite Hup. simpl.
  rewrite (count_tiles_wf _ Hnd).
  set (score := λ '(k, p), (k, length (Player.tiles p))).
  pose proof (find_max_spec (score <$> GameState.players gs)) as [Hle Hw].
  destruct (find_max (score <$> GameState.players gs)) as [m w]. simpl in *.
  assert (∀ j k q, GameState.players gs !! j = Some (k, q) →
                   (length (Player.tiles q) ≤ m)%nat) as Hle'.
  { intros j k q Hj. apply (Hle j k). by rewrite list_lookup_fmap, Hj. }
  assert (∀ w0, w = Some w0 →
     ∃ i p, GameState.players gs !! i = Some (w0, p) ∧
            Player.tiles p ≠ [] ∧
            (∀ j k q, GameState.players gs !! j = Some (k, q) →
                      (length (Player.tiles q) ≤ length (Player.tiles p))%nat) ∧
            (∀ j k q, (j < i)%nat → GameState.players gs !! j = Some (k, q) →
                      (length (Player.tiles q) < length (Player.tiles p))%nat))
    as Hwinner.
  { intros w0 ->. destruct Hw as (i & Hi & Hpos & Hbefore).
    rewrite list_lookup_fmap in Hi.
    destruct (GameState.players gs !! i) as [[k p]|] eqn:Hp; [|done].
    simpl in Hi. injection Hi as -> <-. exists i, p. split; [done|].
    split. { intros Hnil. rewrite Hnil in Hpos. simpl in Hpos. lia. }
    split; [done|].
    intros j k q Hj Hq. apply (Hbefore j k). { done. }
    by rewrite list_lookup_fmap, Hq. }
  assert (w = None ↔ ∀ k q, (k, q) ∈ GameState.players gs → Player.tiles q = [])
    as Hnone.
  { split.
    - intros ->. intros k q (j & Hj)%list_elem_of_lookup.
      specialize (Hle' j k q Hj). rewrite Hw in Hle'.
      destruct (Player.tiles q); [done|]. simpl in Hle'. lia.
    - intros Hall. destruct w as [w0|]; [|done].
      destruct (Hwinner w0 eq_refl) as (i & p & Hi & Htiles & _).
      exfalso. apply Htiles, (Hall w0). apply list_elem_of_lookup. by exists i. }
  repeat (split; [done|]).
  intros k p Hin Htiles Hstrict.
  destruct w as [w0|].
  - destruct (Hwinner w0 eq_refl) as (i & q & Hi & _ & Hmax & _).
    destruct (decide (w0 = k)) as [->|Hne]; [done|].
    apply list_elem_of_lookup in Hin as [j Hj].
    pose proof (Hmax j k p Hj) as Hpq.
    assert ((w0, q) ∈ GameState.players gs) as Hq
      by (apply list_elem_of_lookup; by exists i).
    specialize (Hstrict w0 q Hq Hne). lia.
  - exfalso. apply Htiles. by apply (proj1 Hnone eq_refl k).
Qed.

(** At the end of the match Ann holds two tiles and Bob one. *)
Lemma time_up_declares_leader_witness :
  GameState.gameOver (updateResources 300000 leader_game) = true ∧
  GameState.winner (updateResources 300000 leader_game) = Some "ann".
Proof.
  destruct (time_up_declares_leader 300000 leader_game 300000)
    as (Hover & _ & _ & _ & _ & Hstrict).
  - by apply (bool_decide_unpack _).
  - reflexivity.
  - discriminate.
  - reflexivity.
  - split; [exact Hover|].
    apply (Hstrict "ann" (Player.set_tiles [Coord.mk 3 3; Coord.mk 4 3]
                            (placed_player (Coord.mk 3 3) ann))).
    + left.
    + discriminate.
    + intros k' q Hin Hne.
      apply elem_of_cons in Hin as [[= -> ->]|Hin]; [done|].
      apply elem_of_cons in Hin as [[= -> ->]|Hin]; [simpl; lia|].
      by apply elem_of_nil in Hin.
Defined.

(** *** The start of the match *)

Lemma startingPositions_eq :
  startingPositions = [Coord.mk 3 3; Coord.mk 20 20; Coord.mk 3 20].
Proof. reflexivity. Qed.

Lemma grid_alter_shape f x y (g : Grid) n m :
  length g = n → Forall (λ row, length row = m) g →
  length (grid_alter f x y g) = n ∧
  Forall (λ row, length row = m) (grid_alter f x y g).
Proof.
  intros Hn Hm. unfold grid_alter, arr_alter.
  destruct (y <? 0); [done|]. split; [by rewrite length_alter|].
  apply Forall_alter; [done|]. intros row _ Hrow.
  destruct (x <? 0); [done|]. by rewrite length_alter.
Qed.

Lemma forEach_place_shape es : ∀ i (g : Grid) n m,
  length g = n → Forall (λ row, length row = m) g →
  length (forEach_place i g es).1 = n ∧
  Forall (λ row, length row = m) (forEach_place i g es).1.
Proof.
  induction es as [|[k p] es IH]; intros i g n m Hn Hm; [done|].
  cbn [forEach_place].
  assert (length (place_player i g (k, p)).1 = n ∧
          Forall (λ row, length row = m) (place_player i g (k, p)).1) as [Hn1 Hm1].
  { unfold place_player. destruct (startingPositions !! i) as [pos|]; [|done].
    simpl.
    destruct (grid_alter_shape (Tile.set_ownerId (Some k)) (Coord.x pos)
                (Coord.y pos) g n m Hn Hm) as [Hn0 Hm0].
    by apply grid_alter_shape. }
  destruct (place_player i g (k, p)) as [g1 e1].
  specialize (IH (S i) g1 n m Hn1 Hm1).
  by destruct (forEach_place (S i) g1 es) as [g2 es2].
Qed.

(** C6, as stated, fails: the second and third starting positions are
    [GRID_SIZE - 4 = 20], not 21, and the Aliens rule is inside the guard
    [index < startingPositions.length].  Of four players, Bob starts on
    (20, 20) and Cy on (3, 20), the tiles (21, 21) and (3, 21) stay unowned,
    and Dee, an Alien in fourth place, keeps a unit rate of 0. *)
Lemma start_is_at_20_and_skips_the_fourth :
  let gs := initializeGameState 0 four_players in
  Player.tiles <$> lookup_player "bob" (GameState.players gs) = Some [Coord.mk 20 20] ∧
  Player.tiles <$> lookup_player "cy" (GameState.players gs) = Some [Coord.mk 3 20] ∧
  Tile.ownerId <$> grid_at (GameState.grid gs) 21 21 = Some None ∧
  Tile.ownerId <$> grid_at (GameState.grid gs) 3 21 = Some None ∧
  Tile.ownerId <$> grid_at (GameState.grid gs) 20 20 = Some (Some "bob") ∧
  Tile.ownerId <$> grid_at (GameState.grid gs) 3 20 = Some (Some "cy") ∧
  Player.faction <$> lookup_player "dee" (GameState.players gs) = Some ALIENS ∧
  Player.unitRate <$> lookup_player "dee" (GameState.players gs) = Some 0%Q.
Proof. vm_compute. repeat split. Qed.

(** C6, amended.  Game start builds a 24 x 24 grid and gives the starting
    coordinates (3, 3), (20, 20), (3, 20), in roster order, to the first
    [min (playerCount, 3)] players: the starting tile gets the player's id
    and colour, the player's [tiles] becomes that one coordinate, and such a
    player's [unitRate] becomes 1 if the faction is ALIENS and is kept
    otherwise (0 for a player fresh from the lobby).  Every other tile is
    empty, every player after the third is left unchanged, [gameEndTime] is
    [now + 300000], [gameOver] is [false] and [winner] is [null]. *)
Theorem initializeGameState_spec now ps :
  NoDup (roster_keys ps) →
  let gs := initializeGameState now ps in
  length (GameState.grid gs) = 24%nat ∧
  Forall (λ row, length row = 24%nat) (GameState.grid gs) ∧
  (∀ i k p pos,
     ps !! i = Some (k, p) →
     [Coord.mk 3 3; Coord.mk 20 20; Coord.mk 3 20] !! i = Some pos →
     grid_at (GameState.grid gs) (Coord.x pos) (Coord.y pos)
       = Some (Tile.mk (Coord.x pos) (Coord.y pos) (Some k)
                       (Some (Player.color p)) None 0) ∧
     GameState.players gs !! i
       = Some (k, Player.mk (Player.id p) (Player.name p) (Player.isReady p)
                    (Player.color p) (Player.faction p)
                    (Player.gold p) (Player.units p) (Player.goldRate p)
                    (if Faction_eqb (Player.faction p) ALIENS then 1%Q
                     else Player.unitRate p)
                    [pos])) ∧
  (∀ a b,
     0 ≤ a < 24 → 0 ≤ b < 24 →
     (∀ i pos, (i < length ps)%nat →
               [Coord.mk 3 3; Coord.mk 20 20; Coord.mk 3 20] !! i = Some pos →
               ¬ (a = Coord.x pos ∧ b = Coord.y pos)) →
     grid_at (GameState.grid gs) a b = Some (Tile.mk a b None None None 0)) ∧
  (∀ i e, ps !! i = Some e → (3 ≤ i)%nat → GameState.players gs !! i = Some e) ∧
  length (GameState.players gs) = length ps ∧
  GameState.gameEndTime gs = Some (now + 300000) ∧
  GameState.gameOver gs = false ∧
  GameState.winner gs = None.
Proof.
  intros _ gs. unfold gs. rewrite initializeGameState_unfold. simpl.
  rewrite <- startingPositions_eq.
  destruct (forEach_place_shape ps 0 emptyGrid 24 24) as [Hrows Hcols];
    [apply emptyGrid_rows..|].
  split; [done|]. split; [done|]. split; [|split; [|split]].
  - intros i k p pos Hi Hpos. split.
    + apply (forEach_place_grid_start ps 0 emptyGrid i k p pos
               (emptyTile (Coord.x pos) (Coord.y pos))); try done.
      by eapply startingPositions_in_grid.
    + rewrite (forEach_place_players ps 0 emptyGrid i k p Hi). simpl.
      by rewrite Hpos.
  - intros a b Ha Hb Hfree.
    rewrite forEach_place_grid_other by done.
    rewrite grid_at_emptyGrid, decide_True by done. done.
  - intros i [k p] Hi Hge.
    rewrite (forEach_place_players ps 0 emptyGrid i k p Hi). simpl.
    by rewrite (lookup_ge_None_2 startingPositions i).
  - split; [apply forEach_place_length|]. done.
Qed.

Lemma initializeGameState_spec_witness :
  grid_at (GameState.grid (initializeGameState 0 ann_and_bob)) 20 20
    = Some (Tile.mk 20 20 (Some "bob") (Some (baseColor ALIENS)) None 0) ∧
  GameState.players (initializeGameState 0 ann_and_bob) !! 1%nat
    = Some ("bob", Player.mk "bob" "Bob" false (baseColor ALIENS) ALIENS
                     0%Q 0%Q 1%Q 1%Q [Coord.mk 20 20]) ∧
  GameState.gameEndTime (initializeGameState 0 ann_and_bob) = Some 300000.
Proof.
  destruct (initializeGameState_spec 0 ann_and_bob)
    as (_ & _ & Hstart & _ & _ & _ & Hend & _).
  - by apply (bool_decide_unpack _).
  - destruct (Hstart 1%nat "bob" bob (Coord.mk 20 20) eq_refl eq_refl)
      as [Htile Hbob].
    split; [exact Htile|]. split; [exact Hbob|exact Hend].
Defined.

(** * The rest of the provider *)

(** ** Writing a key of a roster *)

Lemma lookup_obj_set_eq k p (ps : Roster) :
  lookup_player k (obj_set k p ps) = Some p.
Proof.
  induction ps as [|[k' p'] ps IH]; simpl.
  - by rewrite String.eqb_refl.
  - destruct (String.eqb k' k) eqn:E; simpl; by rewrite E.
Qed.

Lemma lookup_obj_set_ne k k' p (ps : Roster) :
  k ≠ k' → lookup_player k' (obj_set k p ps) = lookup_player k' ps.
Proof.
  intros Hne. induction ps as [|[k0 p0] ps IH]; simpl.
  - by rewrite (proj2 (String.eqb_neq k k')).
  - destruct (String.eqb k0 k) eqn:E; simpl.
    + apply String.eqb_eq in E as ->. by rewrite (proj2 (String.eqb_neq k k')).
    + by rewrite IH.
Qed.

Lemma keys_obj_set_old k p (ps : Roster) :
  k ∈ roster_keys ps → roster_keys (obj_set k p ps) = roster_keys ps.
Proof.
  unfold roster_keys. induction ps as [|[k' p'] ps IH]; simpl.
  - by intros ?%elem_of_nil.
  - destruct (String.eqb_spec k' k) as [->|Hne]; [done|].
    intros [?|Hin]%elem_of_cons; [congruence|]. simpl. f_equal. by apply IH.
Qed.

Lemma keys_obj_set_new k p (ps : Roster) :
  k ∉ roster_keys ps → roster_keys (obj_set k p ps) = roster_keys ps ++ [k].
Proof.
  unfold roster_keys. induction ps as [|[k' p'] ps IH]; simpl; [done|].
  intros [Hne Hnotin]%not_elem_of_cons.
  rewrite (proj2 (String.eqb_neq k' k)) by done. simpl. f_equal. by apply IH.
Qed.

Lemma obj_set_alter k p (ps : Roster) :
  is_Some (lookup_player k ps) → obj_set k p ps = alter_player (λ _, p) k ps.
Proof.
  induction ps as [|[k' p'] ps IH]; simpl; [by intros [? [=]]|].
  destruct (String.eqb k' k); [done|]. intros H. by rewrite IH.
Qed.

Lemma obj_set_twice k p q (ps : Roster) :
  obj_set k q (obj_set k p ps) = obj_set k q ps.
Proof.
  induction ps as [|[k' p'] ps IH]; simpl.
  - by rewrite String.eqb_refl.
  - destruct (String.eqb k' k) eqn:E; simpl; rewrite E; [done|]. by rewrite IH.
Qed.

Lemma alter_player_twice f k (ps : Roster) :
  (∀ p, f (f p) = f p) →
  alter_player f k (alter_player f k ps) = alter_player f k ps.
Proof.
  intros Hf. rewrite alter_player_compose. by apply alter_player_ext.
Qed.

Lemma store_eta st : mkStore (lobbyState st) (gameState st) = st.
Proof. by destruct st. Qed.

Lemma lobby_eta l :
  LobbyState.mk (LobbyState.lobbyId l) (LobbyState.players l)
                (LobbyState.host l) (LobbyState.gameStarted l) = l.
Proof. by destruct l. Qed.

(** ** Ready flag and faction *)

(** X1.  [toggleReady] does nothing without a lobby and raises a
    [TypeError] in a lobby that lacks the caller's record.  Otherwise it
    flips [isReady] in the caller's record and changes nothing else: not
    another field of that record, not another player, not the lobby id, the
    host or [gameStarted], not the game state.  Called twice it gives back
    the state it started from. *)
Theorem toggleReady_twice myId st :
  match lobbyState st with
  | None => toggleReady myId st = Some st
  | Some lobby =>
      match lookup_player myId (LobbyState.players lobby) with
      | None => toggleReady myId st = None
      | Some me =>
          ∃ st1 lobby1,
            toggleReady myId st = Some st1 ∧
            lobbyState st1 = Some lobby1 ∧
            gameState st1 = gameState st ∧
            LobbyState.lobbyId lobby1 = LobbyState.lobbyId lobby ∧
            LobbyState.host lobby1 = LobbyState.host lobby ∧
            LobbyState.gameStarted lobby1 = LobbyState.gameStarted lobby ∧
            roster_keys (LobbyState.players lobby1)
            = roster_keys (LobbyState.players lobby) ∧
            lookup_player myId (LobbyState.players lobby1)
            = Some (Player.mk (Player.id me) (Player.name me)
                      (negb (Player.isReady me)) (Player.color me)
                      (Player.faction me) (Player.gold me) (Player.units me)
                      (Player.goldRate me) (Player.unitRate me) (Player.tiles me)) ∧
            (∀ k, k ≠ myId →
               lookup_player k (LobbyState.players lobby1)
               = lookup_player k (LobbyState.players lobby)) ∧
            toggleReady myId st1 = Some st
      end
  end.
Proof.
  unfold toggleReady. destruct (lobbyState st) as [lobby|] eqn:Hlobby; [|done].
  destruct (lookup_player myId (LobbyState.players lobby)) as [me|] eqn:Hme; [|done].
  simpl. eexists _, _. split; [done|]. split; [done|]. simpl.
  split; [done|]. split; [done|]. split; [done|]. split; [done|].
  split; [apply keys_alter_player|].
  split. { by rewrite lookup_alter_player_eq, Hme. }
  split. { intros k Hk. by rewrite lookup_alter_player_ne. }
  rewrite lookup_alter_player_eq, Hme. simpl.
  f_equal. rewrite alter_player_compose.
  rewrite (alter_player_id _ myId).
  - unfold lobby_set_players. simpl. rewrite lobby_eta, <- Hlobby.
    apply store_eta.
  - intros [? ? r ? ? ? ? ? ? ?]. unfold player_set_isReady. simpl.
    by rewrite negb_involutive.
Qed.

(** Ann presses ready in the lobby she created, and presses again. *)
Lemma toggleReady_twice_witness :
  ∃ st1 lobby1,
    toggleReady "ann" (mkStore (Some (createLobby "ann" "Ann" "lobby1")) None)
    = Some st1 ∧
    lobbyState st1 = Some lobby1 ∧
    Player.isReady <$> lookup_player "ann" (LobbyState.players lobby1) = Some true ∧
    (LobbyState.lobbyId lobby1, LobbyState.host lobby1, LobbyState.gameStarted lobby1)
    = ("lobby1", "ann", false) ∧
    toggleReady "ann" st1
    = Some (mkStore (Some (createLobby "ann" "Ann" "lobby1")) None).
Proof.
  destruct (toggleReady_twice "ann"
              (mkStore (Some (createLobby "ann" "Ann" "lobby1")) None))
    as (st1 & lobby1 & H1 & Hl & _ & Hid & Hhost & Hstarted & _ & Hme & _ & H2).
  exists st1, lobby1. split; [exact H1|]. split; [exact Hl|].
  split; [by rewrite Hme|]. split; [by rewrite Hid, Hhost, Hstarted|exact H2].
Defined.

(** X2.  [changeFaction] does nothing without a lobby, raises a [TypeError]
    in a lobby that lacks the caller's record, and leaves the state as it is
    while the caller is ready.  For a caller who is not ready it sets the
    faction and the faction's base colour in the caller's record and changes
    nothing else: not another field of that record, not another player, not
    the lobby id, the host or [gameStarted], not the game state. *)
Theorem changeFaction_respects_ready myId faction st :
  match lobbyState st with
  | None => changeFaction myId faction st = Some st
  | Some lobby =>
      match lookup_player myId (LobbyState.players lobby) with
      | None => changeFaction myId faction st = None
      | Some me =>
          if Player.isReady me then changeFaction myId faction st = Some st
          else
            ∃ lobby1,
              changeFaction myId faction st
              = Some (mkStore (Some lobby1) (gameState st)) ∧
              LobbyState.lobbyId lobby1 = LobbyState.lobbyId lobby ∧
              LobbyState.host lobby1 = LobbyState.host lobby ∧
              LobbyState.gameStarted lobby1 = LobbyState.gameStarted lobby ∧
              roster_keys (LobbyState.players lobby1)
              = roster_keys (LobbyState.players lobby) ∧
              lookup_player myId (LobbyState.players lobby1)
              = Some (Player.mk (Player.id me) (Player.name me) false
                        (baseColor faction) faction (Player.gold me)
                        (Player.units me) (Player.goldRate me)
                        (Player.unitRate me) (Player.tiles me)) ∧
              (∀ k, k ≠ myId →
                 lookup_player k (LobbyState.players lobby1)
                 = lookup_player k (LobbyState.players lobby))
      end
  end.
Proof.
  unfold changeFaction. destruct (lobbyState st) as [lobby|] eqn:Hlobby; [|done].
  destruct (lookup_player myId (LobbyState.players lobby)) as [me|] eqn:Hme; [|done].
  simpl. destruct (Player.isReady me) eqn:Hready; [done|].
  eexists. split; [done|]. simpl.
  split; [done|]. split; [done|]. split; [done|].
  split; [apply keys_alter_player|].
  split.
  { rewrite lookup_alter_player_eq, Hme.
    unfold player_set_color, player_set_faction. simpl. by rewrite Hready. }
  intros k Hk. by rewrite lookup_alter_player_ne.
Qed.

(** Ann, not yet ready in the lobby she created, chooses the Robots; once
    ready she asks for the Aliens and nothing happens. *)
Lemma changeFaction_respects_ready_witness :
  (∃ lobby1,
     changeFaction "ann" ROBOTS
       (mkStore (Some (createLobby "ann" "Ann" "lobby1")) None)
     = Some (mkStore (Some lobby1) None) ∧
     (LobbyState.lobbyId lobby1, LobbyState.host lobby1, LobbyState.gameStarted lobby1)
     = ("lobby1", "ann", false) ∧
     lookup_player "ann" (LobbyState.players lobby1)
     = Some (new_player "ann" "Ann" (baseColor ROBOTS) ROBOTS))
  ∧ changeFaction "ann" ALIENS (mkStore (Some ann_ready_lobby) None)
    = Some (mkStore (Some ann_ready_lobby) None).
Proof.
  split.
  - destruct (changeFaction_respects_ready "ann" ROBOTS
                (mkStore (Some (createLobby "ann" "Ann" "lobby1")) None))
      as (lobby1 & H1 & Hid & Hhost & Hstarted & _ & Hme & _).
    exists lobby1. split; [exact H1|]. split; [by rewrite Hid, Hhost, Hstarted|].
    exact Hme.
  - exact (changeFaction_respects_ready "ann" ALIENS
             (mkStore (Some ann_ready_lobby) None)).
Defined.

(** ** Joining *)

Lemma roster_keys_length (ps : Roster) : length (roster_keys ps) = length ps.
Proof. unfold roster_keys. apply length_fmap. Qed.

Lemma obj_set_wf k p (ps : Roster) :
  Player.id p = k → roster_wf ps → roster_wf (obj_set k p ps).
Proof.
  intros Hid [Hnd Hids].
  assert (NoDup (roster_keys (obj_set k p ps))) as Hnd'.
  { destruct (decide (k ∈ roster_keys ps)) as [Hin|Hnotin].
    - by rewrite keys_obj_set_old.
    - rewrite keys_obj_set_new by done. apply NoDup_app. split; [done|].
      split; [|apply NoDup_singleton].
      intros k' Hk' ->%list_elem_of_singleton. done. }
  split; [done|]. intros k' p' Hin%elem_lookup_player; [|done].
  destruct (decide (k = k')) as [<-|Hne].
  - rewrite lookup_obj_set_eq in Hin. by injection Hin as <-.
  - rewrite lookup_obj_set_ne in Hin by done. by apply Hids, lookup_player_elem.
Qed.

(** X3.  [joinLobby] refuses exactly the lobbies that already hold three
    players or more.  Otherwise the stored lobby gains the joiner's fresh
    record under the joiner's id (at the end, or in place of a record stored
    under that id before) and keeps its code, its host, its started flag and
    every other player; it never holds more than three players afterwards,
    and a roster keyed by the players' ids stays so. *)
Theorem joinLobby_outcome myId playerName lobby game :
  ((3 ≤ length (LobbyState.players lobby))%nat →
   joinLobby myId playerName (LobbyData lobby game) = JoinError "Lobby is full") ∧
  ((length (LobbyState.players lobby) < 3)%nat →
   ∃ lobby1 faction color,
     joinLobby myId playerName (LobbyData lobby game) = Joined lobby1 ∧
     lookup_player myId (LobbyState.players lobby1)
       = Some (Player.mk myId playerName false color faction 0%Q 0%Q 1%Q 0%Q []) ∧
     (∀ k, k ≠ myId →
        lookup_player k (LobbyState.players lobby1)
        = lookup_player k (LobbyState.players lobby)) ∧
     roster_keys (LobbyState.players lobby1)
       = (if bool_decide (myId ∈ roster_keys (LobbyState.players lobby))
          then roster_keys (LobbyState.players lobby)
          else roster_keys (LobbyState.players lobby) ++ [myId]) ∧
     (length (LobbyState.players lobby1) ≤ 3)%nat ∧
     LobbyState.lobbyId lobby1 = LobbyState.lobbyId lobby ∧
     LobbyState.host lobby1 = LobbyState.host lobby ∧
     LobbyState.gameStarted lobby1 = LobbyState.gameStarted lobby ∧
     (roster_wf (LobbyState.players lobby) → roster_wf (LobbyState.players lobby1))).
Proof.
  unfold joinLobby. rewrite roster_keys_length. split; intros Hlen.
  - by rewrite (proj2 (Nat.leb_le _ _) Hlen).
  - rewrite (proj2 (Nat.leb_gt _ _) Hlen).
    eexists _, _, _. split; [done|]. simpl.
    split; [apply lookup_obj_set_eq|].
    split. { intros k Hk. by apply lookup_obj_set_ne. }
    assert (roster_keys (obj_set myId
              (new_player myId playerName
                 (select_color (LobbyState.players lobby)
                    (select_faction (LobbyState.players lobby)))
                 (select_faction (LobbyState.players lobby)))
              (LobbyState.players lobby))
            = if bool_decide (myId ∈ roster_keys (LobbyState.players lobby))
              then roster_keys (LobbyState.players lobby)
              else roster_keys (LobbyState.players lobby) ++ [myId]) as Hkeys.
    { case_bool_decide.
      - by apply keys_obj_set_old.
      - by apply keys_obj_set_new. }
    split; [exact Hkeys|].
    split.
    { rewrite <- roster_keys_length, Hkeys. case_bool_decide.
      - rewrite roster_keys_length. lia.
      - rewrite length_app, roster_keys_length. simpl. lia. }
    repeat (split; [done|]). by apply obj_set_wf.
Qed.

(** Bob finds Ann's lobby and joins it. *)
Lemma joinLobby_outcome_witness :
  ∃ lobby1,
    joinLobby "bob" "Bob" (LobbyData (createLobby "ann" "Ann" "lobby1") None)
      = Joined lobby1 ∧
    roster_keys (LobbyState.players lobby1) = ["ann"; "bob"] ∧
    LobbyState.host lobby1 = "ann".
Proof.
  destruct (proj2 (joinLobby_outcome "bob" "Bob"
                     (createLobby "ann" "Ann" "lobby1") None))
    as (lobby1 & f & c & Hjoin & _ & _ & Hkeys & _ & _ & Hhost & _).
  - simpl. lia.
  - exists lobby1. split; [exact Hjoin|]. split; [exact Hkeys|exact Hhost].
Defined.

(** *** A free faction and a free colour *)

Lemma includes_faction_spec f (l : list Faction) :
  includes_faction f l = true ↔ f ∈ l.
Proof.
  unfold includes_faction. rewrite existsb_exists, list_elem_of_In. split.
  - intros (g & Hin & Heq). by destruct f, g.
  - intros Hin. exists f. split; [done|]. by destruct f.
Qed.

Lemma includes_color_spec c (l : list string) :
  includes_color c l = true ↔ c ∈ l.
Proof.
  unfold includes_color. rewrite existsb_exists, list_elem_of_In. split.
  - by intros (d & Hin & ->%String.eqb_eq).
  - intros Hin. exists c. split; [done|]. apply String.eqb_refl.
Qed.

Lemma select_faction_free (ps : Roster) :
  (length ps < 3)%nat →
  select_faction ps ∉ Player.faction <$> roster_values ps.
Proof.
  intros Hlen. unfold select_faction.
  assert (length (Player.faction <$> roster_values ps) < 3)%nat as Hused.
  { unfold roster_values. by rewrite !length_fmap. }
  rewrite <- includes_faction_spec.
  destruct (Player.faction <$> roster_values ps) as [|a [|b [|c used]]];
    [..|simpl in Hused; lia].
  - done.
  - by destruct a.
  - by destruct a, b.
Qed.

Lemma baseColor_inj f g : baseColor f = baseColor g → f = g.
Proof. by destruct f, g. Qed.

Lemma select_color_free (ps : Roster) f :
  (length ps < 3)%nat →
  select_color ps f ∉ Player.color <$> roster_values ps.
Proof.
  intros Hlen. unfold select_color.
  assert (length (Player.color <$> roster_values ps) < 3)%nat as Hused.
  { unfold roster_values. by rewrite !length_fmap. }
  set (used := Player.color <$> roster_values ps) in *.
  destruct (includes_color (baseColor f) used) eqn:Hf.
  - destruct (List.find _ all_factions) as [g|] eqn:Hfind.
    + apply find_some in Hfind as [_ Hg].
      apply negb_true_iff in Hg. rewrite <- includes_color_spec. congruence.
    + exfalso.
      assert (∀ g, baseColor g ∈ used) as Hall.
      { intros g. apply includes_color_spec.
        pose proof (find_none _ _ Hfind g) as Hg. simpl in Hg.
        apply negb_false_iff, Hg. destruct g; tauto. }
      pose proof (Hall HUMANS) as HH. pose proof (Hall ALIENS) as HA.
      pose proof (Hall ROBOTS) as HR.
      destruct used as [|a [|b [|c used]]]; [..|simpl in Hused; lia].
      * by apply elem_of_nil in HH.
      * apply list_elem_of_singleton in HH, HA.
        assert (HUMANS = ALIENS) by (apply baseColor_inj; congruence). done.
      * apply elem_of_cons in HH as [HH|HH%list_elem_of_singleton];
          apply elem_of_cons in HA as [HA|HA%list_elem_of_singleton];
          apply elem_of_cons in HR as [HR|HR%list_elem_of_singleton];
          match goal with
          | H1 : baseColor ?f = ?a, H2 : baseColor ?g = ?a |- _ =>
              assert (f = g) by (apply baseColor_inj; congruence); discriminate
          end.
  - rewrite <- includes_color_spec. congruence.
Qed.

(** X4.  A player who joins a lobby of fewer than three gets a faction that
    no player of the stored lobby has and a colour that no player of the
    stored lobby has. *)
Theorem joinLobby_picks_free_faction_and_color myId playerName lobby game :
  (length (LobbyState.players lobby) < 3)%nat →
  ∃ lobby1 me,
    joinLobby myId playerName (LobbyData lobby game) = Joined lobby1 ∧
    lookup_player myId (LobbyState.players lobby1) = Some me ∧
    ∀ k p, (k, p) ∈ LobbyState.players lobby →
           Player.faction p ≠ Player.faction me ∧ Player.color p ≠ Player.color me.
Proof.
  intros Hlen. unfold joinLobby. rewrite roster_keys_length.
  rewrite (proj2 (Nat.leb_gt _ _) Hlen).
  eexists _, _. split; [done|]. simpl. split; [apply lookup_obj_set_eq|].
  intros k p Hin. simpl. split; intros Heq.
  - apply (select_faction_free _ Hlen). rewrite <- Heq.
    apply list_elem_of_fmap. exists p. split; [done|].
    apply list_elem_of_fmap. by exists (k, p).
  - apply (select_color_free (LobbyState.players lobby)
             (select_faction (LobbyState.players lobby)) Hlen).
    rewrite <- Heq.
    apply list_elem_of_fmap. exists p. split; [done|].
    apply list_elem_of_fmap. by exists (k, p).
Qed.

(** Bob joins Ann, a Human in blue, and is given the Aliens and green. *)
Lemma joinLobby_picks_free_faction_and_color_witness :
  ∃ lobby1 me,
    joinLobby "bob" "Bob" (LobbyData (createLobby "ann" "Ann" "lobby1") None)
      = Joined lobby1 ∧
    lookup_player "bob" (LobbyState.players lobby1) = Some me ∧
    Player.faction me = ALIENS ∧ Player.color me = baseColor ALIENS.
Proof.
  destruct (joinLobby_picks_free_faction_and_color "bob" "Bob"
              (createLobby "ann" "Ann" "lobby1") None)
    as (lobby1 & me & Hjoin & Hme & _).
  - simpl. lia.
  - vm_compute in Hjoin. injection Hjoin as <-.
    vm_compute in Hme. injection Hme as <-.
    eexists _, _. split; [reflexivity|]. split; [reflexivity|]. split; reflexivity.
Defined.

(** ** Reset and restart *)

Lemma lookup_player_fmap_keyed (g : string → Player.t → Player.t) k (ps : Roster) :
  lookup_player k ((λ '(id, p), (id, g id p)) <$> ps) = g k <$> lookup_player k ps.
Proof.
  induction ps as [|[k' p] ps IH]; [done|]. simpl.
  destruct (String.eqb_spec k' k) as [->|Hne]; [done|]. apply IH.
Qed.

Lemma roster_keys_fmap_keyed (g : string → Player.t → Player.t) (ps : Roster) :
  roster_keys ((λ '(id, p), (id, g id p)) <$> ps) = roster_keys ps.
Proof.
  unfold roster_keys. rewrite <- list_fmap_compose.
  by apply list_fmap_ext; intros ? [].
Qed.

Lemma reset_roster_lobby myId (ps : Roster) :
  roster_wf ps →
  lobby_roster ((λ '(id, p), (id, reset_player myId id p)) <$> ps).
Proof.
  intros [Hnd Hid]. split; [split|].
  - by rewrite roster_keys_fmap_keyed.
  - intros k p ([k' p'] & [= -> ->] & Hin)%list_elem_of_fmap. simpl.
    by apply Hid.
  - intros i k p Hi _. rewrite list_lookup_fmap in Hi.
    destruct (ps !! i) as [[k' p']|]; [|done]. by injection Hi as <- <-.
Qed.

(** X5.  A game started after [resetGame] is one of the reachable
    snapshots, whatever the previous game left in the lobby's records: the
    reset clears every player's tiles, gold and units and sets the gold rate
    to 1, and the start then gives the lobby and the game the same roster,
    with [tiles] and the grid in step. *)
Theorem reset_then_start myId now st lobby :
  lobbyState st = Some lobby →
  roster_wf (LobbyState.players lobby) →
  ∃ gs lobby1,
    startGame now (resetGame myId st) = mkStore (Some lobby1) (Some gs) ∧
    reachable gs ∧ snapshot_ok gs ∧
    LobbyState.players lobby1 = GameState.players gs ∧
    LobbyState.gameStarted lobby1 = true ∧
    LobbyState.host lobby1 = LobbyState.host lobby ∧
    roster_keys (GameState.players gs) = roster_keys (LobbyState.players lobby) ∧
    ∀ k p, (k, p) ∈ GameState.players gs →
           (Player.gold p == 0)%Q ∧ (Player.units p == 0)%Q ∧
           (Player.goldRate p == 1)%Q ∧ Player.isReady p = false.
Proof.
  intros Hlobby Hwf. unfold resetGame, startGame. rewrite Hlobby. simpl.
  set (ps := (λ '(id, p), (id, reset_player myId id p)) <$> LobbyState.players lobby).
  assert (lobby_roster ps) as Hps by by apply reset_roster_lobby.
  eexists _, _. split; [done|]. simpl.
  split; [by apply reach_start|]. split; [by apply initializeGameState_ok|].
  split; [done|]. split; [done|]. split; [done|].
  rewrite initializeGameState_unfold. simpl. split.
  { rewrite forEach_place_keys. apply roster_keys_fmap_keyed. }
  intros k p (i & Hi)%list_elem_of_lookup.
  destruct (ps !! i) as [[k' p']|] eqn:Hpi.
  - rewrite (forEach_place_players ps 0 emptyGrid i k' p' Hpi) in Hi.
    injection Hi as -> <-.
    unfold ps in Hpi. rewrite list_lookup_fmap in Hpi.
    destruct (LobbyState.players lobby !! i) as [[k0 p0]|]; [|done].
    injection Hpi as <- <-.
    change (0 + i)%nat with i.
    destruct (startingPositions !! i); simpl; done.
  - apply lookup_ge_None in Hpi. apply lookup_lt_Some in Hi.
    rewrite forEach_place_length in Hi. lia.
Qed.

(** Ann resets the lobby that the game of Ann and Bob left and starts
    again. *)
Lemma reset_then_start_witness :
  ∃ gs lobby1,
    startGame 500000 (resetGame "ann" started_store)
      = mkStore (Some lobby1) (Some gs) ∧
    reachable gs ∧ snapshot_ok gs.
Proof.
  destruct (reset_then_start "ann" 500000 started_store
              (LobbyState.mk "lobby1" (GameState.players game_started) "ann" true))
    as (gs & lobby1 & Hstart & Hreach & Hok & _).
  - reflexivity.
  - apply (reachable_ok game_started). apply reach_start, ann_and_bob_lobby.
  - exists gs, lobby1. split; [exact Hstart|]. split; [exact Hreach|exact Hok].
Defined.

Lemma place_player_reset me me' i g k p :
  (i < length startingPositions)%nat →
  place_player i g (k, reset_player me k p) = place_player i g (k, reset_player me' k p).
Proof.
  intros Hi. unfold place_player.
  destruct (startingPositions !! i) as [pos|] eqn:Hpos.
  - unfold reset_player. simpl.
    by destruct (Player.faction p), (String.eqb k me), (String.eqb k me').
  - apply lookup_ge_None in Hpos. lia.
Qed.

Lemma forEach_place_reset me me' (es : Roster) : ∀ i g,
  (length es + i ≤ length startingPositions)%nat →
  forEach_place i g ((λ '(id, p), (id, reset_player me id p)) <$> es)
  = forEach_place i g ((λ '(id, p), (id, reset_player me' id p)) <$> es).
Proof.
  induction es as [|[k p] es IH]; intros i g Hlen; [done|].
  rewrite !fmap_cons. cbn [forEach_place].
  rewrite (place_player_reset me me') by (simpl in *; lia).
  destruct (place_player i g (k, reset_player me' k p)) as [g1 e1].
  rewrite IH by (simpl in *; lia). done.
Qed.

(** X6.  [resetGame] is computed by each participant for itself and the
    results differ: the record of an Alien keeps a unit rate of 1 only in the
    reset of that player's own participant.  For a roster of at most three
    the next [startGame] removes the difference: it builds the same game
    from either reset. *)
Theorem resets_differ_but_starts_agree me other now st lobby :
  lobbyState st = Some lobby →
  (∀ p, lookup_player me (LobbyState.players lobby) = Some p →
        Player.faction p = ALIENS → other ≠ me →
        ∃ mine theirs,
          lobbyState (resetGame me st) = Some mine ∧
          lobbyState (resetGame other st) = Some theirs ∧
          Player.unitRate <$> lookup_player me (LobbyState.players mine) = Some 1%Q ∧
          Player.unitRate <$> lookup_player me (LobbyState.players theirs) = Some 0%Q) ∧
  ((length (LobbyState.players lobby) ≤ 3)%nat →
   gameState (startGame now (resetGame me st))
   = gameState (startGame now (resetGame other st))).
Proof.
  intros Hlobby. unfold resetGame. rewrite Hlobby. split.
  - intros p Hme Haliens Hne. eexists _, _. split; [done|]. split; [done|].
    simpl. rewrite !lookup_player_fmap_keyed, Hme. simpl.
    rewrite Haliens, String.eqb_refl.
    by rewrite (proj2 (String.eqb_neq me other)).
  - intros Hlen. unfold startGame. simpl. f_equal.
    rewrite !initializeGameState_unfold, !roster_keys_fmap_keyed.
    by rewrite (forEach_place_reset me other) by (simpl; lia).
Qed.

(** Ann and Bob both reset the lobby their game left; Bob is the Alien. *)
Lemma resets_differ_but_starts_agree_witness :
  gameState (startGame 500000 (resetGame "bob" (mkStore (Some lobby_after_game) None)))
  = gameState (startGame 500000 (resetGame "ann" (mkStore (Some lobby_after_game) None))).
Proof.
  apply (proj2 (resets_differ_but_starts_agree "bob" "ann" 500000
                  (mkStore (Some lobby_after_game) None) lobby_after_game eq_refl)).
  simpl. lia.
Defined.

Lemma lookup_player_index (ps : Roster) k p :
  lookup_player k ps = Some p → ∃ i, ps !! i = Some (k, p).
Proof. intros Hin%lookup_player_elem. by apply list_elem_of_lookup. Qed.

Lemma started_lookup now (ps : Roster) k p :
  NoDup (roster_keys ps) →
  lookup_player k ps = Some p →
  ∃ i, ps !! i = Some (k, p) ∧
       lookup_player k (GameState.players (initializeGameState now ps))
       = Some (match startingPositions !! i with
               | Some pos => placed_player pos p
               | None => p
               end).
Proof.
  intros Hnd [i Hi]%lookup_player_index. exists i. split; [done|].
  apply elem_lookup_player.
  - rewrite initializeGameState_unfold. simpl. by rewrite forEach_place_keys.
  - rewrite initializeGameState_unfold. simpl. apply list_elem_of_lookup.
    exists i. by rewrite (forEach_place_players ps 0 emptyGrid i k p Hi).
Qed.

(** X7.  The unit rate that [resetGame] gives to the resetting player's own
    Alien record is not taken back when that player changes faction:
    after reset, change of faction and start, the player has the new faction
    and still a unit rate of 1. *)
Theorem reset_bonus_survives_faction_change myId faction now st lobby me :
  lobbyState st = Some lobby →
  NoDup (roster_keys (LobbyState.players lobby)) →
  lookup_player myId (LobbyState.players lobby) = Some me →
  Player.faction me = ALIENS →
  ∃ st1 gs me1,
    changeFaction myId faction (resetGame myId st) = Some st1 ∧
    gameState (startGame now st1) = Some gs ∧
    lookup_player myId (GameState.players gs) = Some me1 ∧
    Player.faction me1 = faction ∧
    Player.unitRate me1 = 1%Q.
Proof.
  intros Hlobby Hnd Hme Haliens.
  set (ps := alter_player
               (λ p, player_set_color (baseColor faction) (player_set_faction faction p))
               myId
               ((λ '(id, p), (id, reset_player myId id p)) <$> LobbyState.players lobby)).
  assert (lookup_player myId ps
          = Some (player_set_color (baseColor faction)
                    (player_set_faction faction (reset_player myId myId me)))) as Hps.
  { unfold ps. by rewrite lookup_alter_player_eq, lookup_player_fmap_keyed, Hme. }
  assert (NoDup (roster_keys ps)) as Hnd1.
  { unfold ps. by rewrite keys_alter_player, roster_keys_fmap_keyed. }
  destruct (started_lookup now ps myId _ Hnd1 Hps) as (i & _ & Hstarted).
  unfold resetGame, changeFaction.
  rewrite Hlobby. simpl. rewrite lookup_player_fmap_keyed, Hme. simpl.
  eexists _, _, _. split; [done|]. unfold startGame. simpl.
  split; [done|]. split; [exact Hstarted|].
  unfold reset_player. rewrite Haliens, String.eqb_refl.
  destruct (startingPositions !! i); simpl; [|done].
  split; [done|]. by destruct (Faction_eqb faction ALIENS).
Qed.

(** Bob, who played the Aliens, resets, turns Human and the game starts. *)
Lemma reset_bonus_survives_faction_change_witness :
  ∃ st1 gs bob1,
    changeFaction "bob" HUMANS (resetGame "bob" (mkStore (Some lobby_after_game) None))
      = Some st1 ∧
    gameState (startGame 500000 st1) = Some gs ∧
    lookup_player "bob" (GameState.players gs) = Some bob1 ∧
    Player.faction bob1 = HUMANS ∧ Player.unitRate bob1 = 1%Q.
Proof.
  apply (reset_bonus_survives_faction_change "bob" HUMANS 500000
           (mkStore (Some lobby_after_game) None) lobby_after_game
           (placed_player (Coord.mk 20 20) bob)).
  - reflexivity.
  - by apply (bool_decide_unpack _).
  - reflexivity.
  - reflexivity.
Defined.

(** * Boards of reachable snapshots *)

Lemma grid_shape_at (g : Grid) x y :
  grid_shape g → is_Some (grid_at g x y) ↔ in_grid x y.
Proof.
  intros [Hlen Hrows]. unfold grid_at, arr_get, in_grid, GRID_SIZE in *.
  destruct (Z.ltb_spec y 0) as [Hy|Hy]; simpl.
  { split; [intros [? [=]]|lia]. }
  destruct (g !! Z.to_nat y) as [row|] eqn:Hrow; simpl.
  - assert (length row = Z.to_nat 24) as Hrowlen.
    { by apply (proj1 (Forall_lookup _ _) Hrows (Z.to_nat y)). }
    apply lookup_lt_Some in Hrow.
    destruct (Z.ltb_spec x 0) as [Hx|Hx].
    { split; [intros [? [=]]|lia]. }
    rewrite lookup_lt_is_Some. lia.
  - apply lookup_ge_None in Hrow. split; [intros [? [=]]|lia].
Qed.

Lemma tile_ok_people (ps ps1 : Roster) x y t :
  (∀ k p, lookup_player k ps = Some p →
          ∃ p1, lookup_player k ps1 = Some p1 ∧ Player.color p1 = Player.color p) →
  tile_ok ps x y t → tile_ok ps1 x y t.
Proof.
  intros Hpeople (Hx & Hy & Hb & Ho). repeat split; try done.
  destruct (Tile.ownerId t) as [o|]; [|done].
  destruct Ho as (p & Hp & Hc). destruct (Hpeople o p Hp) as (p1 & Hp1 & Hc1).
  exists p1. by rewrite Hc1.
Qed.

Lemma alter_people f k (ps : Roster) :
  (∀ p, Player.color (f p) = Player.color p) →
  ∀ k' p, lookup_player k' ps = Some p →
          ∃ p1, lookup_player k' (alter_player f k ps) = Some p1 ∧
                Player.color p1 = Player.color p.
Proof.
  intros Hf k' p Hp. destruct (decide (k = k')) as [->|Hne].
  - rewrite lookup_alter_player_eq, Hp. simpl. eauto.
  - rewrite lookup_alter_player_ne by done. eauto.
Qed.

Lemma grid_shape_alter f x y (g : Grid) :
  grid_shape g → grid_shape (grid_alter f x y g).
Proof. intros [Hlen Hrows]. by apply grid_alter_shape. Qed.

Lemma claimTile_on_shape me gs x y goldCost unitCost gs1 :
  claimTile_on me gs x y goldCost unitCost = Some (true, gs1) →
  grid_shape (GameState.grid gs) → grid_shape (GameState.grid gs1).
Proof.
  intros H Hshape. claim_guards H; try discriminate H.
  match type of H with
  | context [drop_from_owner ?t ?m ?a ?b ?ps] =>
      destruct (drop_from_owner t m a b ps) as [players3|]; [|done]
  end.
  simpl in H. injection H as <-. rewrite check_elimination_grid. simpl.
  by do 2 apply grid_shape_alter.
Qed.

Lemma claimTile_on_people me gs x y goldCost unitCost gs1 :
  claimTile_on me gs x y goldCost unitCost = Some (true, gs1) →
  ∀ k p, lookup_player k (GameState.players gs) = Some p →
         ∃ p1, lookup_player k (GameState.players gs1) = Some p1 ∧
               Player.color p1 = Player.color p.
Proof.
  intros H k p Hp.
  destruct (claimTile_on_true _ _ _ _ _ _ _ H)
    as (tile & player & _ & Hme & _ & _ & _ & _ & _ & _ & Hme1 & Hloser & Hother & _).
  destruct (decide (k = me)) as [->|Hk].
  { rewrite Hme1. eexists. split; [done|]. simpl. congruence. }
  destruct (Tile.ownerId tile) as [o|] eqn:Ho.
  - destruct (decide (o = k)) as [->|Hok].
    + rewrite (Hloser k p eq_refl Hk Hp). eauto.
    + rewrite Hother; [eauto|done|]. intros [_ [=]]. done.
  - rewrite Hother; [eauto|done|]. intros [_ [=]].
Qed.

Lemma initial_tile es : ∀ i g a b t,
  grid_at (forEach_place i g es).1 a b = Some t →
  ∃ t0, grid_at g a b = Some t0 ∧
        Tile.x t = Tile.x t0 ∧ Tile.y t = Tile.y t0 ∧
        Tile.construct t = Tile.construct t0 ∧
        Tile.defenseBonus t = Tile.defenseBonus t0 ∧
        ((Tile.ownerId t = Tile.ownerId t0 ∧ Tile.color t = Tile.color t0)
         ∨ ∃ k p, (k, p) ∈ es ∧ Tile.ownerId t = Some k ∧
                  Tile.color t = Some (Player.color p)).
Proof.
  induction es as [|[k p] es IH]; intros i g a b t Ht.
  { exists t. simpl in Ht. repeat (split; [done|]). by left. }
  cbn [forEach_place] in Ht.
  pose proof (place_player_grid i g k p a b) as Hplace.
  destruct (place_player i g (k, p)) as [g1 e1].
  destruct (forEach_place (S i) g1 es) as [g2 es2] eqn:Hrest.
  assert (g2 = (forEach_place (S i) g1 es).1) as -> by by rewrite Hrest.
  cbn [fst] in Ht, Hplace.
  destruct (IH _ _ _ _ _ Ht) as (t1 & Ht1 & Hx & Hy & Hc & Hb & Hown).
  assert (∃ t0, grid_at g a b = Some t0 ∧
                Tile.x t1 = Tile.x t0 ∧ Tile.y t1 = Tile.y t0 ∧
                Tile.construct t1 = Tile.construct t0 ∧
                Tile.defenseBonus t1 = Tile.defenseBonus t0 ∧
                ((Tile.ownerId t1 = Tile.ownerId t0 ∧ Tile.color t1 = Tile.color t0)
                 ∨ (Tile.ownerId t1 = Some k ∧ Tile.color t1 = Some (Player.color p))))
    as (t0 & Ht0 & Hx0 & Hy0 & Hc0 & Hb0 & Hown0).
  { rewrite Ht1 in Hplace. destruct (startingPositions !! i) as [pos|].
    - destruct (decide (a = Coord.x pos ∧ b = Coord.y pos)).
      + destruct (grid_at g a b) as [t0|]; [|done].
        injection Hplace as ->. exists t0. simpl.
        repeat (split; [done|]). by right.
      + exists t1. repeat (split; [done|]). by left.
    - exists t1. repeat (split; [done|]). by left. }
  exists t0. split; [done|]. split; [congruence|]. split; [congruence|].
  split; [congruence|]. split; [congruence|].
  destruct Hown as [[Ho Hcol]|(k' & p' & Hin & Ho & Hcol)].
  - destruct Hown0 as [[Ho0 Hcol0]|[Ho0 Hcol0]].
    + left. split; congruence.
    + right. exists k, p. rewrite elem_of_cons. split; [by left|]. split; congruence.
  - right. exists k', p'. rewrite elem_of_cons. auto.
Qed.

Lemma started_people now (ps : Roster) k p :
  NoDup (roster_keys ps) → (k, p) ∈ ps →
  ∃ p1, lookup_player k (GameState.players (initializeGameState now ps)) = Some p1 ∧
        Player.color p1 = Player.color p.
Proof.
  intros Hnd Hin.
  destruct (started_lookup now ps k p Hnd (elem_lookup_player _ _ _ Hnd Hin))
    as (i & _ & Hlook).
  eexists. split; [exact Hlook|]. by destruct (startingPositions !! i).
Qed.

Lemma initializeGameState_board now ps :
  lobby_roster ps → board_ok (initializeGameState now ps).
Proof.
  intros [[Hnd _] _]. split; [|split].
  - rewrite initializeGameState_unfold. simpl.
    apply forEach_place_shape; apply emptyGrid_rows.
  - intros x y t Ht.
    assert (grid_at (forEach_place 0 emptyGrid ps).1 x y = Some t) as Ht'.
    { by rewrite initializeGameState_unfold in Ht. }
    destruct (initial_tile _ _ _ _ _ _ Ht')
      as (t0 & Ht0 & Hx & Hy & Hc & Hb & Hown).
    rewrite grid_at_emptyGrid in Ht0. destruct (decide _); [|done].
    injection Ht0 as <-. simpl in *. unfold tile_ok.
    rewrite Hx, Hy, Hc, Hb. split; [done|]. split; [done|]. split; [done|].
    destruct Hown as [[-> ->]|(k & p & Hin & -> & ->)]; [done|].
    destruct (started_people now ps k p Hnd Hin) as (p1 & Hp1 & Hcol).
    exists p1. by rewrite Hcol.
  - rewrite initializeGameState_unfold. simpl. done.
Qed.

Lemma updateResources_people now gs :
  ∀ k p, lookup_player k (GameState.players gs) = Some p →
         ∃ p1, lookup_player k (GameState.players (updateResources now gs)) = Some p1 ∧
               Player.color p1 = Player.color p.
Proof.
  intros k p Hp. unfold updateResources. destruct (time_is_up now gs); simpl.
  - eauto.
  - rewrite lookup_player_fmap, Hp. simpl. eexists. split; [done|].
    unfold accrue. by destruct (Nat.eqb _ _).
Qed.

Lemma updateResources_grid now gs :
  GameState.grid (updateResources now gs) = GameState.grid gs.
Proof. unfold updateResources. by destruct (time_is_up now gs). Qed.

Lemma find_max_key (ps : Roster) w :
  NoDup (roster_keys ps) →
  (find_max (count_tiles ps)).2 = Some w → is_Some (lookup_player w ps).
Proof.
  intros Hnd Hw. pose proof (find_max_spec (count_tiles ps)) as [_ Hspec].
  rewrite Hw in Hspec. destruct Hspec as (i & Hi & _).
  rewrite count_tiles_wf in Hi by done.
  rewrite list_lookup_fmap in Hi.
  destruct (ps !! i) as [[k p]|] eqn:Hpi; [|done].
  simpl in Hi. injection Hi as -> _.
  exists p. apply elem_lookup_player; [done|]. by eapply list_elem_of_lookup_2.
Qed.

Lemma reachable_board gs : reachable gs → board_ok gs.
Proof.
  induction 1 as [now ps Hps|gs me x y gc uc gs1 Hr IH Hc|gs me x y ty gs1 Hr IH Hb
                 |gs me x y gs1 Hr IH Hd|gs now Hr IH Hrun].
  - by apply initializeGameState_board.
  - destruct IH as (Hshape & Htiles & Hwin).
    pose proof (claimTile_on_people _ _ _ _ _ _ _ Hc) as Hpeople.
    split; [by eapply claimTile_on_shape|]. split.
    + intros a b t Ht.
      destruct (claimTile_on_true _ _ _ _ _ _ _ Hc)
        as (tile & player & Hat & Hme & _ & _ & _ & _ & Hnew & Hold & Hme1 & _).
      destruct (decide (a = x ∧ b = y)) as [[-> ->]|Hne].
      * rewrite Hnew in Ht. injection Ht as <-.
        destruct (Htiles _ _ _ Hat) as (Hx & Hy & Hbonus & _).
        split; [done|]. split; [done|]. split; [done|]. simpl.
        eexists. split; [exact Hme1|]. done.
      * rewrite Hold in Ht by done.
        eapply tile_ok_people; [exact Hpeople|]. by apply Htiles.
    + intros w Hw.
      destruct (claimTile_on_flags _ _ _ _ _ _ _ Hc)
        as (updated & -> & _ & _ & _ & Hover & Hwinner).
      destruct (check_elimination_cases updated)
        as [(p & Hact & Hover1 & Hwin1)|[_ Hsame]].
      * split; [done|]. rewrite Hwin1 in Hw. injection Hw as <-.
        assert (snapshot_ok (check_elimination updated)) as [[Hnd Hid] _].
        { eapply claimTile_on_ok; [|exact Hc]. by apply reachable_ok. }
        assert (p ∈ activePlayers updated) as Hp by (rewrite Hact; apply list_elem_of_here).
        unfold activePlayers in Hp.
        apply list_elem_of_In, filter_In in Hp as [Hp%list_elem_of_In _].
        unfold roster_values in Hp. apply list_elem_of_fmap in Hp as ([k p'] & -> & Hin).
        rewrite check_elimination_players in *. simpl.
        rewrite (Hid _ _ Hin). exists p'. by apply elem_lookup_player.
      * rewrite Hsame in *. rewrite Hwinner in Hw. rewrite Hover.
        destruct (Hwin w Hw) as [Hov [p Hp]]. split; [done|].
        destruct (Hpeople w p Hp) as (p1 & Hp1 & _). by exists p1.
  - destruct IH as (Hshape & Htiles & Hwin).
    destruct (buildConstruct_on_true _ _ _ _ _ _ Hb)
      as (tile & player & cost & Hat & Hown & Hnone & Hcost & Hme & _ & ->).
    assert (∀ k p, lookup_player k (GameState.players gs) = Some p →
              ∃ p1, lookup_player k
                      (alter_player (built_player ty cost) me (GameState.players gs))
                    = Some p1 ∧ Player.color p1 = Player.color p) as Hpeople.
    { by apply alter_people. }
    simpl. split; [|split].
    + by apply grid_shape_alter.
    + simpl. intros a b t Ht. rewrite grid_at_alter in Ht.
      destruct (decide (a = x ∧ b = y)) as [[-> ->]|Hne].
      * rewrite Hat in Ht. injection Ht as <-.
        destruct (Htiles _ _ _ Hat) as (Hx & Hy & Hbonus & Ho).
        split; [done|]. split; [done|]. simpl. split.
        { rewrite Hnone in Hbonus. destruct ty; simpl; done. }
        rewrite Hown in *. destruct Ho as (p & Hp & Hcol).
        destruct (Hpeople _ _ Hp) as (p1 & Hp1 & Hcol1).
        exists p1. by rewrite Hcol1.
      * eapply tile_ok_people; [exact Hpeople|]. by apply Htiles.
    + simpl. intros w Hw. destruct (Hwin w Hw) as [Hov [p Hp]]. split; [done|].
      destruct (Hpeople w p Hp) as (p1 & Hp1 & _). by exists p1.
  - destruct IH as (Hshape & Htiles & Hwin).
    destruct (demolishConstruct_on_true _ _ _ _ _ Hd)
      as (tile & construct & Hat & Hown & Hsome & ->).
    assert (∀ k p, lookup_player k (GameState.players gs) = Some p →
              ∃ p1, lookup_player k
                      (alter_player (demolished_player (Construct.type construct)) me
                                    (GameState.players gs))
                    = Some p1 ∧ Player.color p1 = Player.color p) as Hpeople.
    { by apply alter_people. }
    simpl. split; [|split].
    + by apply grid_shape_alter.
    + simpl. intros a b t Ht. rewrite grid_at_alter in Ht.
      destruct (decide (a = x ∧ b = y)) as [[-> ->]|Hne].
      * rewrite Hat in Ht. injection Ht as <-.
        destruct (Htiles _ _ _ Hat) as (Hx & Hy & Hbonus & Ho).
        split; [done|]. split; [done|]. simpl. split.
        { rewrite Hsome in Hbonus. simpl in Hbonus.
          by destruct (Construct.type construct). }
        rewrite Hown in *. destruct Ho as (p & Hp & Hcol).
        destruct (Hpeople _ _ Hp) as (p1 & Hp1 & Hcol1).
        exists p1. by rewrite Hcol1.
      * eapply tile_ok_people; [exact Hpeople|]. by apply Htiles.
    + simpl. intros w Hw. destruct (Hwin w Hw) as [Hov [p Hp]]. split; [done|].
      destruct (Hpeople w p Hp) as (p1 & Hp1 & _). by exists p1.
  - destruct IH as (Hshape & Htiles & Hwin).
    split; [by rewrite updateResources_grid|]. split.
    + intros a b t Ht. rewrite updateResources_grid in Ht.
      eapply tile_ok_people; [apply updateResources_people|]. by apply Htiles.
    + intros w Hw. unfold updateResources in *.
      destruct (time_is_up now gs); simpl in *.
      * split; [done|]. apply find_max_key; [|done].
        by destruct (reachable_ok gs Hr) as [[Hnd _] _].
      * destruct (Hwin w Hw) as [Hov _]. congruence.
Qed.

(** * The board component and the engine *)

Lemma num_ge_lt a b : num_ge a b = negb (num_lt a b).
Proof. unfold num_ge, num_lt. by destruct (a ?= b)%Q. Qed.

Lemma grid_at_rows (g : Grid) x y t :
  grid_at g x y = Some t ↔ ∃ row, arr_get g y = Some row ∧ arr_get row x = Some t.
Proof.
  unfold grid_at. destruct (arr_get g y) as [row|]; simpl.
  - split; [eauto|]. by intros (row' & [= <-] & ?).
  - split; [done|]. by intros (row' & [=] & ?).
Qed.

Lemma in_bounds_spec x y :
  (0 <=? x) && (x <? GRID_SIZE) && (0 <=? y) && (y <? GRID_SIZE) = true ↔ in_grid x y.
Proof. unfold in_grid. rewrite !andb_true_iff. lia. Qed.

Lemma elem_of_set_add c c' s : c ∈ set_add c' s ↔ c ∈ s ∨ c = c'.
Proof.
  unfold set_add. destruct (bool_decide_reflect (c' ∈ s)) as [Hin|Hin].
  - split; [by left|]. by intros [?| ->].
  - by rewrite elem_of_app, list_elem_of_singleton.
Qed.

Lemma NoDup_set_add c s : NoDup s → NoDup (set_add c s).
Proof.
  intros Hnd. unfold set_add. destruct (bool_decide_reflect (c ∈ s)) as [Hin|Hin]; [done|].
  apply NoDup_app. split; [done|]. split; [|apply NoDup_singleton].
  intros c' Hc' ->%list_elem_of_singleton. done.
Qed.

Section claimable.
Context (myId : string) (gs : GameState.t) (myPlayer : Player.t).
Hypothesis Hshape : grid_shape (GameState.grid gs).

Lemma check_direction_spec tile set d :
  ∃ set', check_direction myId gs myPlayer tile set d = Some set' ∧
          (NoDup set → NoDup set') ∧
          ∀ c, c ∈ set' ↔
               c ∈ set ∨ (c = (Coord.x tile + d.1, Coord.y tile + d.2) ∧ offered myId gs myPlayer c).
Proof.
  unfold check_direction.
  set (adjX := Coord.x tile + d.1). set (adjY := Coord.y tile + d.2).
  destruct ((0 <=? adjX) && (adjX <? GRID_SIZE) && (0 <=? adjY) && (adjY <? GRID_SIZE))
    eqn:Hin.
  - apply in_bounds_spec, (grid_shape_at _ _ _ Hshape) in Hin as [cell Hcell].
    pose proof Hcell as (row & Hrow & Hat)%grid_at_rows.
    rewrite Hrow. simpl. rewrite Hat. simpl.
    destruct (cell_claimable myId myPlayer cell) eqn:Hc.
    + eexists. split; [done|]. split; [apply NoDup_set_add|].
      intros c. rewrite elem_of_set_add. split.
      * intros [?| ->]; [by left|]. right. split; [done|]. by exists cell.
      * intros [?|[-> _]]; [by left|by right].
    + eexists. split; [done|]. split; [done|].
      intros c. split; [by left|]. intros [?|[-> (cell' & Hcell' & Hc')]]; [done|].
      simpl in Hcell'. congruence.
  - eexists. split; [done|]. split; [done|].
    intros c. split; [by left|]. intros [?|[-> (cell' & Hcell' & _)]]; [done|].
    assert (in_grid adjX adjY) as Hgrid.
    { apply (grid_shape_at _ _ _ Hshape). by exists cell'. }
    apply in_bounds_spec in Hgrid. congruence.
Qed.

Lemma check_directions_spec tile ds : ∀ set,
  ∃ set', forEach (check_direction myId gs myPlayer tile) ds set = Some set' ∧
          (NoDup set → NoDup set') ∧
          ∀ c, c ∈ set' ↔
               c ∈ set ∨ ∃ d, d ∈ ds ∧
                              c = (Coord.x tile + d.1, Coord.y tile + d.2) ∧ offered myId gs myPlayer c.
Proof.
  induction ds as [|d ds IH]; intros set.
  - exists set. split; [done|]. split; [done|]. intros c. split; [by left|].
    intros [?|(d & Hd%elem_of_nil & _)]; done.
  - destruct (check_direction_spec tile set d) as (set1 & H1 & Hnd1 & Hin1).
    destruct (IH set1) as (set2 & H2 & Hnd2 & Hin2).
    exists set2. simpl. rewrite H1. simpl. split; [done|]. split; [auto|].
    intros c. rewrite Hin2, Hin1. setoid_rewrite elem_of_cons. split.
    + intros [[?|[? ?]]|(d' & ? & ? & ?)]; [by left|right; eauto|right; eauto].
    + intros [?|(d' & [->|?] & ? & ?)]; [by left; left|by left; right|right; eauto].
Qed.

Lemma claimable_tiles_spec tiles : ∀ set,
  ∃ set', forEach (λ claimableSet tile,
                     forEach (check_direction myId gs myPlayer tile)
                             directions claimableSet) tiles set = Some set' ∧
          (NoDup set → NoDup set') ∧
          ∀ c, c ∈ set' ↔
               c ∈ set ∨ ∃ tile d, tile ∈ tiles ∧ d ∈ directions ∧
                                   c = (Coord.x tile + d.1, Coord.y tile + d.2) ∧
                                   offered myId gs myPlayer c.
Proof.
  induction tiles as [|tile tiles IH]; intros set.
  - exists set. split; [done|]. split; [done|]. intros c. split; [by left|].
    intros [?|(t & d & Ht%elem_of_nil & _)]; done.
  - destruct (check_directions_spec tile directions set) as (set1 & H1 & Hnd1 & Hin1).
    destruct (IH set1) as (set2 & H2 & Hnd2 & Hin2).
    exists set2. cbn [forEach]. rewrite H1. simpl. split; [done|]. split; [auto|].
    intros c. rewrite Hin2, Hin1. setoid_rewrite elem_of_cons. split.
    + intros [[?|(d & ? & ? & ?)]|(t & d & ? & ? & ? & ?)].
      * by left.
      * right. exists tile, d. auto.
      * right. exists t, d. auto.
    + intros [?|(t & d & [->|?] & ? & ? & ?)].
      * by left; left.
      * left. right. exists d. auto.
      * right. exists t, d. auto.
Qed.

End claimable.

Lemma directions_adjacent (tile : Coord.t) x y :
  (∃ d, d ∈ directions ∧ (x, y) = (Coord.x tile + d.1, Coord.y tile + d.2))
  ↔ four_adjacent tile x y.
Proof.
  unfold four_adjacent, directions. split.
  - intros (d & Hd & [= -> ->]).
    repeat (apply elem_of_cons in Hd as [->|Hd]); simpl; [lia..|].
    by apply elem_of_nil in Hd.
  - intros [[Hy Hx]|[Hx Hy]].
    + destruct (decide (x = Coord.x tile + 1)).
      * exists (1, 0). split; [by apply (bool_decide_unpack _)|]. simpl. f_equal; lia.
      * exists (-1, 0). split; [by apply (bool_decide_unpack _)|]. simpl. f_equal; lia.
    + destruct (decide (y = Coord.y tile + 1)).
      * exists (0, 1). split; [by apply (bool_decide_unpack _)|]. simpl. f_equal; lia.
      * exists (0, -1). split; [by apply (bool_decide_unpack _)|]. simpl. f_equal; lia.
Qed.

Lemma getClaimableCells_spec me gs player :
  grid_shape (GameState.grid gs) →
  lookup_player me (GameState.players gs) = Some player →
  ∃ cells, getClaimableCells me gs = Some cells ∧ NoDup cells ∧
    ∀ x y, (x, y) ∈ cells ↔
           ∃ cell, grid_at (GameState.grid gs) x y = Some cell ∧
                   cell_claimable me player cell = true ∧
                   ∃ tile, tile ∈ Player.tiles player ∧ four_adjacent tile x y.
Proof.
  intros Hshape Hme. unfold getClaimableCells. rewrite Hme. simpl.
  destruct (claimable_tiles_spec me gs player Hshape (Player.tiles player) [])
    as (cells & Hcells & Hnd & Hin).
  exists cells. split; [done|]. split; [apply Hnd, NoDup_nil_2|].
  intros x y. rewrite Hin. split.
  - intros [Hnil%elem_of_nil|(tile & d & Ht & Hd & Hc & cell & Hcell & Hok)]; [done|].
    exists cell. split; [done|]. split; [done|]. exists tile. split; [done|].
    apply directions_adjacent. eauto.
  - intros (cell & Hcell & Hok & tile & Ht & Hadj). right.
    apply directions_adjacent in Hadj as (d & Hd & Hc).
    exists tile, d. split; [done|]. split; [done|]. split; [done|]. by exists cell.
Qed.

Lemma cell_claimable_spec me player cell :
  cell_claimable me player cell = true ↔
  Tile.ownerId cell ≠ Some me ∧
  num_lt (Player.gold player) (getGoldCostForNewTile player) = false ∧
  (is_contested cell me = true →
   num_lt (Player.units player) (getUnitCostForTile cell) = false).
Proof.
  unfold cell_claimable, is_contested, is_id. rewrite !num_ge_lt.
  destruct (Tile.ownerId cell) as [o|] eqn:Ho; simpl.
  - destruct (String.eqb_spec o me) as [->|Hne]; simpl.
    + split; [done|]. by intros [? _].
    + rewrite andb_true_iff, !negb_true_iff. split.
      * intros [? ?]. split; [congruence|]. done.
      * intros (_ & ? & Hu). split; [done|]. by apply Hu.
  - rewrite orb_false_r, negb_true_iff. split; [by intros ->|]. by intros (_ & -> & _).
Qed.

(** X8.  On a reachable snapshot the set of cells the board marks as
    claimable is computed without an exception, holds no cell twice, and is
    the set of the cells that the player does not own and for which the
    engine accepts the claim at the prices the board computes. *)
Theorem board_offers_what_engine_accepts me gs player :
  reachable gs →
  lookup_player me (GameState.players gs) = Some player →
  ∃ cells,
    getClaimableCells me gs = Some cells ∧ NoDup cells ∧
    ∀ x y, (x, y) ∈ cells ↔
      ∃ tile, grid_at (GameState.grid gs) x y = Some tile ∧
              Tile.ownerId tile ≠ Some me ∧
              ∃ gs1, claimTile_on me gs x y (getGoldCostForNewTile player)
                                  (getUnitCostForTile tile) = Some (true, gs1).
Proof.
  intros Hreach Hme. destruct (reachable_board gs Hreach) as (Hshape & Htiles & _).
  destruct (getClaimableCells_spec me gs player Hshape Hme) as (cells & Hc & Hnd & Hin).
  exists cells. split; [done|]. split; [done|]. intros x y. rewrite Hin. split.
  - intros (cell & Hcell & (Hown & Hgold & Hunits)%cell_claimable_spec & tile & Ht & Hadj).
    exists cell. split; [done|]. split; [done|].
    apply (claimTile_on_succeeds me gs x y _ _ cell player); try done.
    + apply existsb_adjacent. eauto.
    + intros o Ho Hne. split.
      * apply Hunits. apply is_contested_spec. eauto.
      * destruct (Htiles _ _ _ Hcell) as (_ & _ & _ & Hknown).
        rewrite Ho in Hknown. destruct Hknown as (p & Hp & _). by exists p.
  - intros (tile & Htile & Hown & gs1 & Hclaim).
    destruct (claimTile_on_true _ _ _ _ _ _ _ Hclaim)
      as (tile' & player' & Htile' & Hme' & Hgold & Hunits & Hadj & _).
    assert (tile' = tile) as -> by congruence.
    assert (player' = player) as -> by congruence.
    exists tile. split; [done|]. split; [by apply cell_claimable_spec|].
    by apply existsb_adjacent in Hadj.
Qed.

Lemma updateResources_flags now gs :
  time_is_up now gs = false →
  time_is_up now (updateResources now gs) = false ∧
  GameState.gameOver (updateResources now gs) = GameState.gameOver gs.
Proof. intros Hup. unfold updateResources. rewrite Hup. done. Qed.

Lemma ticks_reachable now n gs :
  reachable gs → GameState.gameOver gs = false → time_is_up now gs = false →
  reachable (Nat.iter n (updateResources now) gs) ∧
  GameState.gameOver (Nat.iter n (updateResources now) gs) = false ∧
  time_is_up now (Nat.iter n (updateResources now) gs) = false.
Proof.
  intros Hr Hover Hup. induction n as [|n (IH & Hover' & Hup')]; [done|].
  rewrite Nat.iter_succ. destruct (updateResources_flags now _ Hup') as [? Hsame].
  split; [by apply reach_tick|]. split; [by rewrite Hsame|done].
Qed.

Lemma game_funded_reachable : reachable game_funded.
Proof.
  apply ticks_reachable; [|done..]. apply reach_start, ann_and_bob_lobby.
Qed.

(** After 120 ticks Ann is offered the four neighbours of her corner. *)
Lemma board_offers_what_engine_accepts_witness :
  ∃ cells,
    getClaimableCells "ann" game_funded = Some cells ∧ NoDup cells ∧
    ∀ x y, (x, y) ∈ cells ↔
      ∃ tile, grid_at (GameState.grid game_funded) x y = Some tile ∧
              Tile.ownerId tile ≠ Some "ann" ∧
              ∃ gs1, claimTile_on "ann" game_funded x y
                       (getGoldCostForNewTile
                          (Nat.iter 120 accrued (placed_player (Coord.mk 3 3) ann)))
                       (getUnitCostForTile tile) = Some (true, gs1).
Proof.
  apply (board_offers_what_engine_accepts "ann" game_funded
           (Nat.iter 120 accrued (placed_player (Coord.mk 3 3) ann))).
  - exact game_funded_reachable.
  - vm_compute. reflexivity.
Defined.

Lemma handleCellClick_cases me sel lobby gs x y sel1 st1 gs1 :
  handleCellClick me sel (mkStore (Some lobby) (Some gs)) x y = Some (sel1, st1) →
  gameState st1 = Some gs1 →
  gs1 = gs
  ∨ ∃ cells player tile,
      getClaimableCells me gs = Some cells ∧ (x, y) ∈ cells ∧
      lookup_player me (GameState.players gs) = Some player ∧
      grid_at (GameState.grid gs) x y = Some tile ∧
      claimTile_on me gs x y (getGoldCostForNewTile player) (getUnitCostForTile tile)
      = Some (true, gs1).
Proof.
  unfold handleCellClick. simpl. intros H Hgs1.
  destruct (getClaimableCells me gs) as [cells|]; [|done]. simpl in H.
  assert (Some (sel, mkStore (Some lobby) (Some gs)) = Some (sel1, st1) → gs1 = gs)
    as Hsame.
  { intros [= <- <-]. simpl in Hgs1. congruence. }
  destruct (selectedAction sel) as [[]|].
  2: { destruct (arr_get (GameState.grid gs) y) as [row|] eqn:Hrow; [|done].
       simpl in H. destruct (arr_get row x) as [tile|]; [|done]. simpl in H.
       destruct (is_id (Tile.ownerId tile) me); [|auto].
       injection H as <- <-. simpl in Hgs1. left. congruence. }
  all: destruct (bool_decide_reflect ((x, y) ∈ cells)) as [Hin|Hin]; [|auto].
  all: destruct (arr_get (GameState.grid gs) y) as [row|] eqn:Hrow; [|done].
  all: simpl in H; destruct (arr_get row x) as [tile|] eqn:Htile; [|done].
  all: simpl in H.
  all: destruct (lookup_player me (GameState.players gs)) as [player|] eqn:Hme; [|done].
  all: simpl in H; unfold claimTile in H; simpl in H.
  all: destruct (claimTile_on me gs x y _ _) as [[[] gs2]|] eqn:Hclaim; [| |done].
  all: simpl in H; injection H as <- <-; simpl in Hgs1.
  all: try (left; congruence).
  all: right; exists cells, player, tile.
  all: assert (gs2 = gs1) as -> by congruence.
  all: repeat (split; [done|]).
  all: (split; [apply grid_at_rows; eauto|done]).
Qed.

Lemma handleBuildConstruct_cases me sel lobby gs sel1 st1 gs1 :
  handleBuildConstruct me sel (mkStore (Some lobby) (Some gs)) = Some (sel1, st1) →
  gameState st1 = Some gs1 →
  gs1 = gs ∨ ∃ x y constructType,
               buildConstruct_on me gs x y constructType = Some (true, gs1).
Proof.
  unfold handleBuildConstruct. intros H Hgs1.
  destruct (selectedTile sel) as [[x y]|].
  2: { injection H as <- <-. simpl in Hgs1. left. congruence. }
  destruct (selectedConstructType sel) as [ty|].
  2: { injection H as <- <-. simpl in Hgs1. left. congruence. }
  unfold buildConstruct in H. simpl in H.
  destruct (buildConstruct_on me gs x y ty) as [[[] gs2]|] eqn:Hb; [| |done].
  - simpl in H. injection H as <- <-. simpl in Hgs1. right. exists x, y, ty. congruence.
  - simpl in H. injection H as <- <-. simpl in Hgs1. left. congruence.
Qed.

Lemma handleDemolishConstruct_cases me sel lobby gs sel1 st1 gs1 :
  handleDemolishConstruct me sel (mkStore (Some lobby) (Some gs)) = Some (sel1, st1) →
  gameState st1 = Some gs1 →
  gs1 = gs ∨ ∃ x y, demolishConstruct_on me gs x y = Some (true, gs1).
Proof.
  unfold handleDemolishConstruct. intros H Hgs1.
  destruct (selectedTile sel) as [[x y]|].
  2: { injection H as <- <-. simpl in Hgs1. left. congruence. }
  unfold demolishConstruct in H. simpl in H.
  destruct (demolishConstruct_on me gs x y) as [[[] gs2]|] eqn:Hb; [| |done].
  - simpl in H. injection H as <- <-. simpl in Hgs1. right. exists x, y. congruence.
  - simpl in H. injection H as <- <-. simpl in Hgs1. left. congruence.
Qed.

Lemma NoDup_drop_tile x y (l : list Coord.t) :
  NoDup l →
  NoDup (List.filter (λ t, negb ((Coord.x t =? x) && (Coord.y t =? y))) l).
Proof.
  induction 1 as [|c l Hc Hnd IH]; simpl; [constructor|].
  destruct (negb _); [|done]. constructor; [|done].
  intros Hin. apply list_elem_of_In, filter_In in Hin as [Hin%list_elem_of_In _]. done.
Qed.

Lemma tiles_distinct_lookup gs :
  NoDup (roster_keys (GameState.players gs)) →
  tiles_distinct gs ↔
  ∀ k p, lookup_player k (GameState.players gs) = Some p → NoDup (Player.tiles p).
Proof.
  intros Hnd. split.
  - intros Hd k p Hp. eapply Hd, lookup_player_elem, Hp.
  - intros Hd k p Hin. eapply Hd, elem_lookup_player; done.
Qed.

Lemma claim_keeps_distinct me gs x y goldCost unitCost gs1 tile :
  snapshot_ok gs → tiles_distinct gs →
  grid_at (GameState.grid gs) x y = Some tile →
  Tile.ownerId tile ≠ Some me →
  claimTile_on me gs x y goldCost unitCost = Some (true, gs1) →
  tiles_distinct gs1.
Proof.
  intros Hok Hd Htile Hown Hclaim.
  pose proof (claimTile_on_ok _ _ _ _ _ _ _ Hok Hclaim) as [[Hnd1 _] _].
  destruct Hok as [[Hnd Hid] Hmatch].
  apply tiles_distinct_lookup; [done|]. intros k p1 Hp1.
  rewrite (tiles_distinct_lookup gs Hnd) in Hd.
  destruct (claimTile_on_true _ _ _ _ _ _ _ Hclaim) as (tile' & player & Htile' & Hme & _).
  assert (tile' = tile) as -> by congruence.
  destruct (claim_roster_cases _ _ _ _ _ _ _ _ _ _ _ Htile Hme Hclaim Hp1)
    as [[-> ->]|[(_ & _ & prev & Hprev & ->)|(_ & _ & Hsame)]].
  - simpl. apply NoDup_app. split; [by eapply Hd|]. split; [|apply NoDup_singleton].
    intros c Hc ->%list_elem_of_singleton.
    apply (Hmatch me player (lookup_player_elem _ _ _ Hme)) in Hc as (t & Ht & Ho).
    rewrite (Hid me player (lookup_player_elem _ _ _ Hme)) in Ho.
    assert (t = tile) as -> by congruence. done.
  - simpl. apply NoDup_drop_tile. by eapply Hd.
  - by eapply Hd.
Qed.

Lemma alter_keeps_distinct f k gs gs1 :
  (∀ p, Player.tiles (f p) = Player.tiles p) →
  GameState.players gs1 = alter_player f k (GameState.players gs) →
  NoDup (roster_keys (GameState.players gs)) →
  tiles_distinct gs → tiles_distinct gs1.
Proof.
  intros Hf Hps Hnd Hd.
  apply tiles_distinct_lookup; [by rewrite Hps, keys_alter_player|].
  rewrite (tiles_distinct_lookup gs Hnd) in Hd. intros k' p1. rewrite Hps.
  destruct (decide (k = k')) as [->|Hne].
  - rewrite lookup_alter_player_eq.
    destruct (lookup_player k' (GameState.players gs)) as [p|] eqn:Hp; [|done].
    intros [= <-]. rewrite Hf. by eapply Hd.
  - rewrite lookup_alter_player_ne by done. apply Hd.
Qed.

Lemma tick_keeps_distinct now gs :
  tiles_distinct gs → tiles_distinct (updateResources now gs).
Proof.
  intros Hd k p1. unfold updateResources. destruct (time_is_up now gs); simpl.
  - apply Hd.
  - intros ([k' p] & [= -> ->] & Hin)%list_elem_of_fmap. simpl.
    rewrite accrue_tiles. by eapply Hd.
Qed.

Lemma start_distinct now ps :
  lobby_roster ps → tiles_distinct (initializeGameState now ps).
Proof.
  intros [[Hnd Hid] Hrest] k p1 Hin. rewrite initializeGameState_unfold in Hin.
  simpl in Hin. apply list_elem_of_lookup in Hin as [i Hi].
  assert (is_Some (ps !! i)) as [[k0 p0] Hp0].
  { apply lookup_lt_is_Some. rewrite <- (forEach_place_length ps 0 emptyGrid).
    by eapply lookup_lt_Some. }
  rewrite (forEach_place_players ps 0 emptyGrid i k0 p0 Hp0) in Hi.
  injection Hi as <- <-. change (0 + i)%nat with i.
  destruct (startingPositions !! i) as [pos|] eqn:Hpos; simpl.
  - apply NoDup_singleton.
  - rewrite (Hrest i k0 p0 Hp0); [constructor|]. by apply lookup_ge_None.
Qed.

Lemma board_play_reachable gs : board_play gs → reachable gs ∧ tiles_distinct gs.
Proof.
  induction 1 as [now ps Hps|gs me sel lobby x y sel1 st1 gs1 _ [Hr Hd] Hclick Hgs1
                 |gs me sel lobby sel1 st1 gs1 _ [Hr Hd] Hb Hgs1
                 |gs me sel lobby sel1 st1 gs1 _ [Hr Hd] Hb Hgs1
                 |gs now _ [Hr Hd] Hrun].
  - split; [by apply reach_start|by apply start_distinct].
  - destruct (handleCellClick_cases _ _ _ _ _ _ _ _ _ Hclick Hgs1)
      as [->|(cells & player & tile & Hcells & Hin & Hme & Htile & Hclaim)]; [done|].
    split; [by eapply reach_claim|].
    destruct (reachable_board gs Hr) as (Hshape & _).
    destruct (getClaimableCells_spec me gs player Hshape Hme)
      as (cells' & Hcells' & _ & Hspec).
    assert (cells' = cells) as -> by congruence.
    apply Hspec in Hin as (tile' & Htile' & (Hown & _)%cell_claimable_spec & _).
    assert (tile' = tile) as -> by congruence.
    eapply claim_keeps_distinct; [by apply reachable_ok|done..].
  - destruct (handleBuildConstruct_cases _ _ _ _ _ _ _ Hb Hgs1)
      as [->|(x & y & ty & Hbuild)]; [done|].
    split; [by eapply reach_build|].
    destruct (buildConstruct_on_true _ _ _ _ _ _ Hbuild)
      as (tile & player & cost & _ & _ & _ & _ & _ & _ & ->).
    eapply alter_keeps_distinct; [|done| |done]; [done|].
    by destruct (reachable_ok gs Hr) as [[? _] _].
  - destruct (handleDemolishConstruct_cases _ _ _ _ _ _ _ Hb Hgs1)
      as [->|(x & y & Hdem)]; [done|].
    split; [by eapply reach_demolish|].
    destruct (demolishConstruct_on_true _ _ _ _ _ Hdem)
      as (tile & construct & _ & _ & _ & ->).
    eapply alter_keeps_distinct; [|done| |done]; [done|].
    by destruct (reachable_ok gs Hr) as [[? _] _].
  - split; [by apply reach_tick|by apply tick_keeps_distinct].
Qed.

(** * The scoreboard *)

Lemma obj_get_set_eq {V} k (v : V) o : obj_get k (obj_set k v o) = Some v.
Proof.
  induction o as [|[k' v'] o IH]; simpl.
  - by rewrite String.eqb_refl.
  - destruct (String.eqb_spec k' k) as [->|Hne]; simpl.
    + by rewrite String.eqb_refl.
    + by rewrite (proj2 (String.eqb_neq k' k)).
Qed.

Lemma obj_get_set_ne {V} k k' (v : V) o :
  k ≠ k' → obj_get k' (obj_set k v o) = obj_get k' o.
Proof.
  intros Hne. induction o as [|[k0 v0] o IH]; simpl.
  - by rewrite (proj2 (String.eqb_neq k k')).
  - destruct (String.eqb_spec k0 k) as [->|Hne0]; simpl.
    + by rewrite (proj2 (String.eqb_neq k k')).
    + by rewrite IH.
Qed.

Lemma scores0_get k keys : ∀ acc : list (string * option nat),
  obj_get k (fold_left (λ scores playerId, obj_set playerId (Some 0%nat) scores)
                       keys acc)
  = if decide (k ∈ keys) then Some (Some 0%nat) else obj_get k acc.
Proof.
  induction keys as [|a keys IH]; intros acc; simpl.
  - destruct (decide (k ∈ [])) as [Hin%elem_of_nil|]; done.
  - rewrite IH. destruct (decide (k ∈ keys)) as [Hin|Hin].
    + rewrite decide_True; [done|]. by right.
    + destruct (decide (a = k)) as [->|Hne].
      * rewrite obj_get_set_eq. rewrite decide_True; [done|by left].
      * rewrite obj_get_set_ne by done. rewrite decide_False; [done|].
        intros [->|?]%elem_of_cons; done.
Qed.

Lemma count_cell_get k scores cell n :
  k ≠ "" → obj_get k scores = Some (Some n) →
  obj_get k (count_cell scores cell)
  = Some (Some (if is_id (Tile.ownerId cell) k then S n else n)).
Proof.
  intros Hk Hn. unfold count_cell, is_id.
  destruct (Tile.ownerId cell) as [o|]; [|done].
  destruct (String.eqb_spec o k) as [->|Hne].
  - rewrite (proj2 (String.eqb_neq k "")) by done.
    unfold score_incr. rewrite Hn. by rewrite obj_get_set_eq.
  - destruct (String.eqb o ""); [done|]. unfold score_incr.
    destruct (obj_get o scores); by rewrite obj_get_set_ne.
Qed.

Lemma count_row_get k row : ∀ scores n,
  k ≠ "" → obj_get k scores = Some (Some n) →
  obj_get k (fold_left count_cell row scores)
  = Some (Some (n + length (List.filter (λ t, is_id (Tile.ownerId t) k) row))%nat).
Proof.
  induction row as [|cell row IH]; intros scores n Hk Hn; simpl.
  - by rewrite Nat.add_0_r.
  - rewrite (IH _ _ Hk (count_cell_get k scores cell n Hk Hn)).
    destruct (is_id (Tile.ownerId cell) k); simpl; do 2 f_equal; lia.
Qed.

Lemma count_grid_get k (grid : Grid) : ∀ scores n,
  k ≠ "" → obj_get k scores = Some (Some n) →
  obj_get k (fold_left (λ scores row, fold_left count_cell row scores) grid scores)
  = Some (Some (n + length (List.filter (λ t, is_id (Tile.ownerId t) k)
                                        (concat grid)))%nat).
Proof.
  induction grid as [|row grid IH]; intros scores n Hk Hn; simpl.
  - by rewrite Nat.add_0_r.
  - rewrite (IH _ _ Hk (count_row_get k row scores n Hk Hn)).
    rewrite List.filter_app, length_app. do 2 f_equal. lia.
Qed.

Lemma fmap_concat {A B} (f : A → B) (ls : list (list A)) :
  f <$> concat ls = concat ((λ l : list A, f <$> l) <$> ls).
Proof.
  induction ls as [|l ls IH]; [done|]. simpl. by rewrite fmap_app, IH.
Qed.

Lemma elem_of_concat {A} (x : A) (ls : list (list A)) :
  x ∈ concat ls ↔ ∃ l, l ∈ ls ∧ x ∈ l.
Proof.
  induction ls as [|l ls IH]; simpl.
  - split; [by intros ?%elem_of_nil|]. by intros (l & ?%elem_of_nil & _).
  - rewrite elem_of_app, IH. setoid_rewrite elem_of_cons. split.
    + intros [?|(l' & ? & ?)]; eauto.
    + intros (l' & [->|?] & ?); eauto.
Qed.

Lemma elem_of_grid (g : Grid) t :
  t ∈ concat g ↔ ∃ x y, grid_at g x y = Some t.
Proof.
  rewrite elem_of_concat. split.
  - intros (row & [i Hi]%list_elem_of_lookup & [j Hj]%list_elem_of_lookup).
    exists (Z.of_nat j), (Z.of_nat i). apply grid_at_rows. exists row.
    unfold arr_get. rewrite !(proj2 (Z.ltb_ge _ _)) by lia. by rewrite !Nat2Z.id.
  - intros (x & y & (row & Hrow & Ht)%grid_at_rows). exists row.
    unfold arr_get in *. destruct (y <? 0); [done|]. destruct (x <? 0); [done|].
    split; by eapply list_elem_of_lookup_2.
Qed.

Lemma grid_coords (g : Grid) :
  grid_shape g →
  (∀ x y t, grid_at g x y = Some t → Tile.x t = x ∧ Tile.y t = y) →
  tile_coord <$> concat g = all_coords.
Proof.
  intros [Hlen Hrows] Hcoord. rewrite fmap_concat. unfold all_coords. f_equal.
  apply list_eq. intros i. rewrite !list_lookup_fmap.
  destruct (decide (Z.of_nat i < GRID_SIZE)) as [Hi|Hi].
  - rewrite lookup_seqZ_lt by done.
    destruct (g !! i) as [row|] eqn:Hrow.
    2: { apply lookup_ge_None in Hrow. unfold GRID_SIZE in *. lia. }
    cbn [fmap option_fmap option_map]. f_equal.
    apply list_eq. intros j. rewrite !list_lookup_fmap.
    assert (length row = Z.to_nat GRID_SIZE) as Hrowlen.
    { by apply (proj1 (Forall_lookup _ _) Hrows i). }
    destruct (decide (Z.of_nat j < GRID_SIZE)) as [Hj|Hj].
    + rewrite lookup_seqZ_lt by done.
      destruct (row !! j) as [t|] eqn:Ht.
      2: { apply lookup_ge_None in Ht. unfold GRID_SIZE in *. lia. }
      cbn [fmap option_fmap option_map]. f_equal. unfold tile_coord.
      destruct (Hcoord (Z.of_nat j) (Z.of_nat i) t) as [-> ->]; [|done].
      apply grid_at_rows. exists row. unfold arr_get.
      rewrite !(proj2 (Z.ltb_ge _ _)) by lia. by rewrite !Nat2Z.id.
    + rewrite lookup_seqZ_ge by lia.
      rewrite (proj2 (lookup_ge_None row j)); [done|]. unfold GRID_SIZE in *. lia.
  - rewrite lookup_seqZ_ge by lia.
    rewrite (proj2 (lookup_ge_None g i)); [done|]. unfold GRID_SIZE in *. lia.
Qed.

Lemma all_coords_NoDup : NoDup all_coords.
Proof. apply (bool_decide_unpack _). vm_compute. reflexivity. Qed.

Lemma NoDup_fmap_filter {A B} (f : A → B) (P : A → bool) (l : list A) :
  NoDup (f <$> l) → NoDup (f <$> List.filter P l).
Proof.
  induction l as [|a l IH]; simpl; [done|].
  intros [Ha Hnd]%NoDup_cons. destruct (P a); simpl; [|auto].
  apply NoDup_cons. split; [|auto].
  intros (a' & Heq & Hin)%list_elem_of_fmap. apply Ha.
  apply list_elem_of_fmap. exists a'. split; [done|].
  by apply list_elem_of_In, filter_In in Hin as [Hin%list_elem_of_In _].
Qed.

Lemma owned_cells_count gs k p :
  board_ok gs → snapshot_ok gs → tiles_distinct gs →
  lookup_player k (GameState.players gs) = Some p →
  length (List.filter (λ t, is_id (Tile.ownerId t) k) (concat (GameState.grid gs)))
  = length (Player.tiles p).
Proof.
  intros (Hshape & Htiles & _) [[Hnd Hid] Hmatch] Hd Hp.
  pose proof (lookup_player_elem _ _ _ Hp) as Hin.
  rewrite <- (length_fmap tile_coord). apply Permutation_length, NoDup_Permutation.
  - apply NoDup_fmap_filter. rewrite grid_coords; [apply all_coords_NoDup|done|].
    intros x y t Ht. destruct (Htiles x y t Ht) as (? & ? & _). done.
  - by eapply Hd.
  - intros [x y]. rewrite (Hmatch k p Hin x y), (Hid k p Hin). unfold owns.
    rewrite list_elem_of_fmap. split.
    + intros (t & Hc & Ht). apply list_elem_of_In, filter_In in Ht as [Ht Ho].
      apply list_elem_of_In, elem_of_grid in Ht as (a & b & Ht).
      destruct (Htiles a b t Ht) as (Hx & Hy & _).
      unfold tile_coord in Hc. rewrite Hx, Hy in Hc. injection Hc as -> ->.
      exists t. split; [done|]. by apply is_id_true.
    + intros (t & Ht & Ho). exists t. destruct (Htiles x y t Ht) as (Hx & Hy & _).
      split; [unfold tile_coord; by rewrite Hx, Hy|].
      apply list_elem_of_In, filter_In. split.
      * apply list_elem_of_In, elem_of_grid. eauto.
      * by apply is_id_true.
Qed.

Lemma calculateScores_get gs k p :
  board_ok gs → snapshot_ok gs → tiles_distinct gs →
  lookup_player k (GameState.players gs) = Some p → k ≠ "" →
  obj_get k (calculateScores gs) = Some (Some (length (Player.tiles p))).
Proof.
  intros Hboard Hok Hd Hp Hk. unfold calculateScores.
  rewrite (count_grid_get k _ _ 0%nat Hk).
  - by rewrite (owned_cells_count gs k p).
  - rewrite scores0_get. rewrite decide_True; [done|].
    apply lookup_player_elem in Hp. unfold roster_keys.
    apply list_elem_of_fmap. by exists (k, p).
Qed.

(** * Properties of play through the board *)

Lemma ticks_played now n gs :
  board_play gs → GameState.gameOver gs = false → time_is_up now gs = false →
  board_play (Nat.iter n (updateResources now) gs) ∧
  GameState.gameOver (Nat.iter n (updateResources now) gs) = false ∧
  time_is_up now (Nat.iter n (updateResources now) gs) = false.
Proof.
  intros Hr Hover Hup. induction n as [|n (IH & Hover' & Hup')]; [done|].
  rewrite Nat.iter_succ. destruct (updateResources_flags now _ Hup') as [? Hsame].
  split; [by apply play_tick|]. split; [by rewrite Hsame|done].
Qed.

Lemma game_funded_played : board_play game_funded.
Proof. apply ticks_played; [|done..]. apply play_start, ann_and_bob_lobby. Qed.

Lemma game_expanded_played : board_play game_expanded.
Proof.
  apply (play_click game_funded "ann" (mkSelection None (Some claim) None)
           lobby_started 4 3 (mkSelection None (Some claim) None)
           (mkStore (Some lobby_started) (Some game_expanded)) game_expanded).
  - exact game_funded_played.
  - vm_compute. reflexivity.
  - reflexivity.
Qed.

(** X9.  When every claim is made by a click on the board, no player's tile
    list ever holds a tile twice (and the snapshot is one the engine
    reaches). *)
Theorem board_play_keeps_tiles_distinct gs :
  board_play gs →
  reachable gs ∧
  ∀ k p, (k, p) ∈ GameState.players gs → NoDup (Player.tiles p).
Proof. apply board_play_reachable. Qed.

(** After her click Ann holds (3, 3) and (4, 3), each once. *)
Lemma board_play_keeps_tiles_distinct_witness :
  reachable game_expanded ∧
  ∀ k p, (k, p) ∈ GameState.players game_expanded → NoDup (Player.tiles p).
Proof.
  apply (board_play_keeps_tiles_distinct game_expanded). exact game_expanded_played.
Defined.

(** X10.  In play through the board the scoreboard, which counts the cells
    of the grid by owner, shows for every player with a non-empty id the
    length of that player's tile list, the number the time-up rule
    compares. *)
Theorem scoreboard_counts_tiles gs k p :
  board_play gs →
  lookup_player k (GameState.players gs) = Some p →
  k ≠ "" →
  obj_get k (calculateScores gs) = Some (Some (length (Player.tiles p))).
Proof.
  intros [Hr Hd]%board_play_reachable Hp Hk.
  apply calculateScores_get; [by apply reachable_board|by apply reachable_ok|done..].
Qed.

(** Ann's score after her click is 2. *)
Lemma scoreboard_counts_tiles_witness :
  obj_get "ann" (calculateScores game_expanded) = Some (Some 2%nat).
Proof.
  apply (scoreboard_counts_tiles game_expanded "ann"
           (actor_after false 12 0 4 3
              (Nat.iter 120 accrued (placed_player (Coord.mk 3 3) ann)))).
  - exact game_expanded_played.
  - vm_compute. reflexivity.
  - done.
Defined.

(** * Safety of the engine and of the screens on reachable snapshots *)

(** X11.  On every reachable snapshot the grid is 24 by 24; each tile
    carries its own coordinates; its defence bonus is 10 under a defence
    construct and 0 otherwise; an unowned tile has no colour and no
    construct; the owner of an owned tile is in the roster and the tile has
    that player's colour. *)
Theorem reachable_board_well_formed gs x y :
  reachable gs →
  (is_Some (grid_at (GameState.grid gs) x y) ↔ in_grid x y) ∧
  ∀ t, grid_at (GameState.grid gs) x y = Some t →
       tile_ok (GameState.players gs) x y t.
Proof.
  intros (Hshape & Htiles & _)%reachable_board. split.
  - by apply grid_shape_at.
  - intros t. apply Htiles.
Qed.

(** The tile Ann has just claimed. *)
Lemma reachable_board_well_formed_witness :
  (is_Some (grid_at (GameState.grid game_expanded) 4 3) ↔ in_grid 4 3) ∧
  ∀ t, grid_at (GameState.grid game_expanded) 4 3 = Some t →
       tile_ok (GameState.players game_expanded) 4 3 t.
Proof.
  apply (reachable_board_well_formed game_expanded 4 3).
  apply board_play_reachable, game_expanded_played.
Defined.

Lemma drop_from_owner_returns tile me x y (ps : Roster) :
  (∀ o, Tile.ownerId tile = Some o → is_Some (lookup_player o ps)) →
  is_Some (drop_from_owner tile me x y ps).
Proof.
  intros Hknown. unfold drop_from_owner.
  destruct (Tile.ownerId tile) as [o|]; [|done].
  destruct (negb (String.eqb o me)); [|done].
  destruct (Hknown o eq_refl) as [p ->]. done.
Qed.

Lemma is_Some_alter f k k' (ps : Roster) :
  is_Some (lookup_player k' ps) → is_Some (lookup_player k' (alter_player f k ps)).
Proof.
  intros [p Hp]. destruct (decide (k = k')) as [->|Hne].
  - rewrite lookup_alter_player_eq, Hp. done.
  - rewrite lookup_alter_player_ne by done. eauto.
Qed.

(** X12.  On a reachable snapshot no action of a player of the roster
    raises an exception for a target on the board; for a row outside the
    board every action raises one ([grid[y]] is [undefined]). *)
Theorem actions_return_on_the_board me gs x y goldCost unitCost constructType :
  reachable gs →
  is_Some (lookup_player me (GameState.players gs)) →
  (in_grid x y →
   is_Some (claimTile_on me gs x y goldCost unitCost) ∧
   is_Some (buildConstruct_on me gs x y constructType) ∧
   is_Some (demolishConstruct_on me gs x y)) ∧
  (¬ (0 ≤ y < GRID_SIZE) →
   claimTile_on me gs x y goldCost unitCost = None ∧
   buildConstruct_on me gs x y constructType = None ∧
   demolishConstruct_on me gs x y = None).
Proof.
  intros (Hshape & Htiles & _)%reachable_board [player Hme]. split.
  - intros [tile Htile]%(grid_shape_at _ _ _ Hshape).
    pose proof Htile as (row & Hrow & Hat)%grid_at_rows.
    destruct (Htiles _ _ _ Htile) as (_ & _ & _ & Hknown).
    split; [|split].
    + unfold claimTile_on. rewrite Hrow. simpl. rewrite Hme. simpl.
      destruct (num_lt (Player.gold player) goldCost); [done|].
      rewrite Hat. simpl.
      destruct (is_contested tile me && num_lt (Player.units player) unitCost); [done|].
      destruct (negb (existsb (adjacent_to x y) (Player.tiles player))); [done|].
      match goal with
      | |- context [drop_from_owner ?t ?m ?a ?b ?ps] =>
          destruct (drop_from_owner_returns t m a b ps) as [players3 ->]; [|done]
      end.
      intros o Ho. rewrite Ho in Hknown. destruct Hknown as (p & Hp & _).
      destruct (is_contested tile me); repeat apply is_Some_alter; by exists p.
    + unfold buildConstruct_on. rewrite Hrow. simpl. rewrite Hat. simpl.
      destruct (negb (is_id (Tile.ownerId tile) me)); [done|].
      destruct (bool_decide (is_Some (Tile.construct tile))); [done|].
      destruct (construct_cost constructType); [|done].
      rewrite Hme. simpl. destruct (num_lt (Player.gold player) _); [done|].
      by destruct constructType.
    + unfold demolishConstruct_on. rewrite Hrow. simpl. rewrite Hat. simpl.
      destruct (negb (is_id (Tile.ownerId tile) me)); [done|].
      destruct (Tile.construct tile) as [construct|]; [|done].
      rewrite Hme. by destruct (Construct.type construct).
  - intros Hy. assert (arr_get (GameState.grid gs) y = None) as Hrow.
    { destruct Hshape as [Hlen _]. unfold arr_get, GRID_SIZE in *.
      destruct (Z.ltb_spec y 0); [done|]. apply lookup_ge_None. lia. }
    unfold claimTile_on, buildConstruct_on, demolishConstruct_on.
    by rewrite Hrow.
Qed.

Lemma actions_return_on_the_board_witness :
  (in_grid 4 3 →
   is_Some (claimTile_on "bob" game_expanded 4 3 14 5) ∧
   is_Some (buildConstruct_on "bob" game_expanded 4 3 GOLD) ∧
   is_Some (demolishConstruct_on "bob" game_expanded 4 3)) ∧
  (¬ (0 ≤ 3 < GRID_SIZE) →
   claimTile_on "bob" game_expanded 4 3 14 5 = None ∧
   buildConstruct_on "bob" game_expanded 4 3 GOLD = None ∧
   demolishConstruct_on "bob" game_expanded 4 3 = None).
Proof.
  apply (actions_return_on_the_board "bob" game_expanded 4 3 14 5 GOLD).
  - apply board_play_reachable, game_expanded_played.
  - vm_compute. eauto.
Defined.

(** X13.  On a reachable snapshot the victory screen never fails; when it
    shows a card, the game is over and the player shown is the roster's
    record of the winner, with the length of that player's tile list. *)
Theorem victory_screen_shows_the_winner gs :
  reachable gs →
  ∃ shown,
    VictoryScreen (Some gs) = Some shown ∧
    ∀ winner totalTiles, shown = Some (winner, totalTiles) →
      GameState.gameOver gs = true ∧
      GameState.winner gs = Some (Player.id winner) ∧
      lookup_player (Player.id winner) (GameState.players gs) = Some winner ∧
      totalTiles = length (Player.tiles winner).
Proof.
  intros Hr. destruct (reachable_board gs Hr) as (_ & _ & Hwin).
  destruct (reachable_ok gs Hr) as [Hwf _].
  unfold VictoryScreen. destruct (GameState.winner gs) as [w|] eqn:Hw.
  2: { eexists. split; [done|]. done. }
  destruct (Hwin w eq_refl) as [Hover [p Hp]].
  destruct (String.eqb w ""). { eexists. split; [done|]. done. }
  rewrite Hp. simpl. eexists. split; [done|].
  intros winner n [= <- <-]. rewrite (roster_wf_lookup _ _ _ Hwf Hp). done.
Qed.

(** When the clock has run out on the fresh game the screen shows Ann. *)
Lemma victory_screen_shows_the_winner_witness :
  ∃ shown,
    VictoryScreen (Some game_timed_out) = Some shown ∧
    ∀ winner totalTiles, shown = Some (winner, totalTiles) →
      GameState.gameOver game_timed_out = true ∧
      GameState.winner game_timed_out = Some (Player.id winner) ∧
      lookup_player (Player.id winner) (GameState.players game_timed_out) = Some winner ∧
      totalTiles = length (Player.tiles winner).
Proof.
  apply (victory_screen_shows_the_winner game_timed_out).
  apply reach_tick; [|reflexivity]. apply reach_start, ann_and_bob_lobby.
Defined.

(** X14.  On a reachable snapshot painting a cell never fails, and the
    colour painted, which is looked up in the owner's record, is the colour
    stored in the tile (for an owner id that is not the empty string). *)
Theorem painted_color_is_tile_color gs x y t :
  reachable gs →
  grid_at (GameState.grid gs) x y = Some t →
  Tile.ownerId t ≠ Some "" →
  cell_color gs t = Some (Tile.color t).
Proof.
  intros (_ & Htiles & _)%reachable_board Ht Hne.
  destruct (Htiles _ _ _ Ht) as (_ & _ & _ & Ho). unfold cell_color.
  destruct (Tile.ownerId t) as [o|].
  - destruct Ho as (p & Hp & ->). destruct (String.eqb_spec o "") as [->|_]; [done|].
    by rewrite Hp.
  - by destruct Ho as [-> _].
Qed.

Lemma painted_color_is_tile_color_witness :
  cell_color game_expanded (tile_after "ann" ann (emptyTile 4 3))
  = Some (Some (baseColor HUMANS)).
Proof.
  apply (painted_color_is_tile_color game_expanded 4 3
           (tile_after "ann" ann (emptyTile 4 3))).
  - apply board_play_reachable, game_expanded_played.
  - vm_compute. reflexivity.
  - discriminate.
Defined.

(** X15.  For the three constructs the board offers, the test that enables
    a build button and the engine agree: when [canBuildConstruct] answers
    for the selected tile, [buildConstruct] returns that answer, and a
    refused build leaves the snapshot as it was. *)
Theorem canBuildConstruct_agrees_with_engine me sel gs x y constructType b :
  selectedTile sel = Some (x, y) →
  constructType ≠ NONE →
  canBuildConstruct me sel gs constructType = Some b →
  ∃ gs1, buildConstruct_on me gs x y constructType = Some (b, gs1) ∧
         (b = false → gs1 = gs).
Proof.
  intros Hsel Hty. unfold canBuildConstruct, buildConstruct_on. rewrite Hsel.
  destruct (arr_get (GameState.grid gs) y) as [row|]; [|done]. simpl.
  destruct (arr_get row x) as [tile|]; [|done]. simpl.
  destruct (negb (is_id (Tile.ownerId tile) me)); simpl.
  { intros [= <-]. eauto. }
  destruct (bool_decide (is_Some (Tile.construct tile))).
  { intros [= <-]. eauto. }
  destruct (lookup_player me (GameState.players gs)) as [player|]; [|done]. simpl.
  intros [= <-]. rewrite num_ge_lt.
  destruct constructType; [| | |done]; simpl;
    destruct (num_lt (Player.gold player) _); simpl; eexists; (split; [done|done]).
Qed.

(** At the start Ann cannot pay for a gold construct on her corner. *)
Lemma canBuildConstruct_agrees_with_engine_witness :
  ∃ gs1, buildConstruct_on "ann" game_started 3 3 GOLD = Some (false, gs1) ∧
         (false = false → gs1 = game_started).
Proof.
  apply (canBuildConstruct_agrees_with_engine "ann" corner_selected game_started
           3 3 GOLD false).
  - reflexivity.
  - discriminate.
  - vm_compute. reflexivity.
Defined.

(** * Messages, storage and screens *)

Lemma alter_player_same f k (ps : Roster) :
  (∀ p, lookup_player k ps = Some p → f p = p) → alter_player f k ps = ps.
Proof.
  induction ps as [|[k' p] ps IH]; intros Hf; simpl; [done|].
  simpl in Hf. destruct (String.eqb k' k).
  - by rewrite (Hf p eq_refl).
  - by rewrite IH.
Qed.

Lemma apply_ready_twice payload p :
  apply_ready payload (apply_ready payload p) = apply_ready payload p.
Proof.
  destruct payload as [b|f c]; simpl; [done|]. destruct (String.eqb c ""); done.
Qed.

Lemma handlePeerMessage_twice message st :
  handlePeerMessage message (handlePeerMessage message st)
  = handlePeerMessage message st.
Proof.
  destruct st as [lobby gs]. destruct message as [body sender].
  unfold handlePeerMessage. simpl.
  destruct body as [p|payload|payload|payload|payload|payload|payload]; simpl.
  - destruct lobby as [lobby|]; simpl; [|done].
    unfold lobby_set_players. simpl. by rewrite obj_set_twice.
  - destruct lobby as [lobby|]; simpl; [|done].
    destruct (lookup_player sender (LobbyState.players lobby)) as [p|] eqn:Hp; simpl.
    + rewrite lookup_alter_player_eq, Hp. simpl. unfold lobby_set_players. simpl.
      rewrite alter_player_twice; [done|]. intros q. apply apply_ready_twice.
    + by rewrite Hp.
  - by destruct lobby.
  - destruct (a_gameState payload) eqn:Hg; simpl; by rewrite ?Hg.
  - destruct (a_gameState payload) eqn:Hg; simpl; by rewrite ?Hg.
  - destruct (a_gameState payload) eqn:Hg; simpl; by rewrite ?Hg.
  - done.
Qed.

Lemma handlePeerMessage_frame message st :
  LobbyState.lobbyId <$> lobbyState (handlePeerMessage message st)
  = LobbyState.lobbyId <$> lobbyState st ∧
  LobbyState.host <$> lobbyState (handlePeerMessage message st)
  = LobbyState.host <$> lobbyState st.
Proof.
  destruct st as [lobby gs]. destruct message as [body sender].
  unfold handlePeerMessage. simpl.
  destruct body as [p|payload|payload|payload|payload|payload|payload]; simpl.
  - by destruct lobby.
  - destruct lobby as [lobby|]; simpl; [|done].
    by destruct (lookup_player sender (LobbyState.players lobby)).
  - by destruct lobby.
  - by destruct (a_gameState payload).
  - by destruct (a_gameState payload).
  - by destruct (a_gameState payload).
  - done.
Qed.

Lemma broadcastToPeers_agrees message st :
  (∀ payload, body message ≠ JOIN_LOBBY payload) →
  broadcastToPeers message st = handlePeerMessage message st.
Proof.
  destruct st as [lobby gs]. destruct message as [body sender].
  unfold handlePeerMessage, broadcastToPeers. simpl.
  destruct body as [p|payload|payload|payload|payload|payload|payload]; simpl;
    intros Hne; try done.
  - by destruct (Hne p).
  - destruct lobby as [lobby|]; [|by destruct payload as [b|f c]; simpl;
                                     [|destruct (String.eqb c "")]].
    destruct payload as [b|f c]; simpl.
    { by destruct (lookup_player sender (LobbyState.players lobby)). }
    destruct (String.eqb c "") eqn:Hc;
      destruct (lookup_player sender (LobbyState.players lobby)) as [p|] eqn:Hp;
      try done.
    + rewrite alter_player_id; [by destruct lobby|].
      intros q. simpl. by rewrite Hc.
    + do 3 f_equal. apply alter_player_ext. intros q. simpl. by rewrite Hc.
Qed.

(** X16.  Handling a message twice is the same as handling it once, so a
    message that both the poll and the storage event deliver does no harm;
    no message changes the lobby id or the host; and for every message but
    [JOIN_LOBBY] the sender's update of the stored lobby item is the update
    the receivers make to their own state. *)
Theorem handlePeerMessage_redelivery message st :
  handlePeerMessage message (handlePeerMessage message st)
  = handlePeerMessage message st ∧
  LobbyState.lobbyId <$> lobbyState (handlePeerMessage message st)
  = LobbyState.lobbyId <$> lobbyState st ∧
  LobbyState.host <$> lobbyState (handlePeerMessage message st)
  = LobbyState.host <$> lobbyState st ∧
  ((∀ payload, body message ≠ JOIN_LOBBY payload) →
   broadcastToPeers message st = handlePeerMessage message st).
Proof.
  split; [apply handlePeerMessage_twice|].
  split; [apply handlePeerMessage_frame|].
  split; [apply handlePeerMessage_frame|apply broadcastToPeers_agrees].
Qed.


Lemma forallb_isReady_reset myId (ps : Roster) :
  forallb Player.isReady
          (roster_values ((λ '(id, p), (id, reset_player myId id p)) <$> ps))
  && Nat.leb 2 (length (roster_values ((λ '(id, p), (id, reset_player myId id p)) <$> ps)))
  = false.
Proof. by destruct ps as [|[k p] ps]. Qed.

Lemma forallb_isReady_obj_set k p (ps : Roster) :
  Player.isReady p = false →
  forallb Player.isReady (roster_values (obj_set k p ps)) = false.
Proof.
  intros Hp. unfold roster_values. induction ps as [|[k' p'] ps IH]; cbn [obj_set].
  - simpl. by rewrite Hp.
  - destruct (String.eqb k' k); rewrite fmap_cons; cbn [forallb snd].
    + by rewrite Hp.
    + rewrite IH. apply andb_false_r.
Qed.

(** X18.  The start button of the lobby screen is never enabled on a lobby
    that has just been created, joined or reset: it takes another press of
    ready by every player. *)
Theorem fresh_lobby_cannot_be_started myId playerName lobbyId existingData st :
  canStartGame (createLobby myId playerName lobbyId) = false ∧
  match joinLobby myId playerName existingData with
  | Joined lobby => canStartGame lobby = false
  | JoinError _ => True
  end ∧
  from_option canStartGame false (lobbyState (resetGame myId st)) = false.
Proof.
  split; [done|]. split.
  - unfold joinLobby. destruct existingData as [| |lobby gs]; [done..|].
    destruct (Nat.leb 3 _); [done|]. unfold canStartGame. simpl.
    by rewrite forallb_isReady_obj_set.
  - unfold resetGame. destruct (lobbyState st) as [lobby|]; [|done]. simpl.
    unfold canStartGame. simpl. apply forallb_isReady_reset.
Qed.

(** * The end of a game *)

Lemma roster_nonempty_keys (ps ps1 : Roster) :
  roster_keys ps1 = roster_keys ps → ps1 ≠ [] → ps ≠ [].
Proof. intros Hkeys Hne ->. destruct ps1; [done|discriminate Hkeys]. Qed.

Lemma alter_holds f me (ps : Roster) :
  NoDup (roster_keys ps) →
  (∀ p, Player.tiles (f p) = Player.tiles p) →
  (∃ k p, (k, p) ∈ ps ∧ Player.tiles p ≠ []) →
  ∃ k p, (k, p) ∈ alter_player f me ps ∧ Player.tiles p ≠ [].
Proof.
  intros Hnd Hf (k & p & Hin & Hne).
  pose proof (elem_lookup_player _ _ _ Hnd Hin) as Hp.
  destruct (decide (me = k)) as [->|Hk].
  - exists k, (f p). split; [|by rewrite Hf].
    apply lookup_player_elem. by rewrite lookup_alter_player_eq, Hp.
  - exists k, p. split; [|done].
    apply lookup_player_elem. by rewrite lookup_alter_player_ne.
Qed.

Lemma reachable_finished gs :
  reachable gs →
  someone_holds gs ∧
  (GameState.players gs ≠ [] → GameState.gameOver gs = true →
   is_Some (GameState.winner gs)).
Proof.
  induction 1 as [now ps Hps|gs me x y gc uc gs1 Hr [Hhold Hwin] Hc
                 |gs me x y ty gs1 Hr [Hhold Hwin] Hb
                 |gs me x y gs1 Hr [Hhold Hwin] Hd|gs now Hr [Hhold Hwin] Hrun].
  - split; [|by rewrite initializeGameState_unfold].
    intros Hne. rewrite initializeGameState_unfold in *. simpl in *.
    destruct ps as [|[k p] ps]; [done|].
    pose proof (forEach_place_players ((k, p) :: ps) 0 emptyGrid 0 k p eq_refl) as H0.
    apply list_elem_of_lookup_2 in H0. eexists _, _. split; [exact H0|]. done.
  - destruct (claimTile_on_true _ _ _ _ _ _ _ Hc)
      as (tile & player & _ & _ & _ & _ & _ & _ & _ & _ & Hme1 & _ & _ & Hkeys).
    split.
    + intros _. eexists _, _. split; [by eapply lookup_player_elem|].
      simpl. by destruct (Player.tiles player).
    + intros Hne Hover.
      destruct (claimTile_on_flags _ _ _ _ _ _ _ Hc)
        as (updated & -> & _ & _ & _ & Hover0 & Hwinner).
      destruct (check_elimination_cases updated)
        as [(p & _ & _ & ->)|[_ Hsame]]; [done|].
      rewrite Hsame in *. rewrite Hwinner. apply Hwin; [|congruence].
      by eapply roster_nonempty_keys.
  - destruct (buildConstruct_on_true _ _ _ _ _ _ Hb)
      as (tile & player & cost & _ & _ & _ & _ & _ & _ & ->).
    destruct (reachable_ok gs Hr) as [[Hnd _] _]. simpl. split.
    + intros Hne. simpl in *. apply alter_holds; [done..|]. apply Hhold.
      eapply roster_nonempty_keys; [|exact Hne]. apply keys_alter_player.
    + simpl. intros Hne. apply Hwin.
      eapply roster_nonempty_keys; [|exact Hne]. apply keys_alter_player.
  - destruct (demolishConstruct_on_true _ _ _ _ _ Hd)
      as (tile & construct & _ & _ & _ & ->).
    destruct (reachable_ok gs Hr) as [[Hnd _] _]. simpl. split.
    + intros Hne. simpl in *. apply alter_holds; [done..|]. apply Hhold.
      eapply roster_nonempty_keys; [|exact Hne]. apply keys_alter_player.
    + simpl. intros Hne. apply Hwin.
      eapply roster_nonempty_keys; [|exact Hne]. apply keys_alter_player.
  - destruct (reachable_ok gs Hr) as [[Hnd _] _].
    unfold someone_holds, updateResources in *.
    destruct (time_is_up now gs); simpl.
    + split; [done|]. intros Hne _.
      destruct (Hhold Hne) as (k & p & Hin & Htiles).
      pose proof (find_max_spec (count_tiles (GameState.players gs))) as [Hmax Hnone].
      destruct (find_max (count_tiles (GameState.players gs))).2 as [w|]; [done|].
      apply list_elem_of_lookup in Hin as [i Hi].
      assert (count_tiles (GameState.players gs) !! i
              = Some (k, length (Player.tiles p))) as Hscore.
      { by rewrite count_tiles_wf, list_lookup_fmap, Hi. }
      apply Hmax in Hscore. rewrite Hnone in Hscore.
      destruct (Player.tiles p); [done|simpl in Hscore; lia].
    + split; [|intros _ Hover; congruence].
      intros Hne.
      destruct Hhold as (k & p & Hin & Htiles).
      { intros Hnil. by rewrite Hnil in Hne. }
      exists k, (accrue p). rewrite accrue_tiles. split; [|done].
      apply list_elem_of_fmap. by exists (k, p).
Qed.

(** X19.  A reachable game with at least one player and no empty player id
    that is over has a winner, and the application then shows the victory
    screen with that player's card; while the game is not over it shows the
    board. *)
Theorem finished_game_shows_its_winner lobby gs :
  reachable gs →
  GameState.players gs ≠ [] →
  "" ∉ roster_keys (GameState.players gs) →
  LobbyState.gameStarted lobby = true →
  if GameState.gameOver gs then
    AppContent (mkStore (Some lobby) (Some gs)) = ShowVictoryScreen ∧
    ∃ winner,
      GameState.winner gs = Some (Player.id winner) ∧
      VictoryScreen (Some gs) = Some (Some (winner, length (Player.tiles winner)))
  else AppContent (mkStore (Some lobby) (Some gs)) = ShowGameBoard.
Proof.
  intros Hr Hne Hempty Hstarted.
  destruct (reachable_finished gs Hr) as [_ Hwin].
  destruct (reachable_board gs Hr) as (_ & _ & Hknown).
  destruct (reachable_ok gs Hr) as [Hwf _].
  unfold AppContent, VictoryScreen. simpl. rewrite Hstarted.
  destruct (GameState.gameOver gs) eqn:Hover; simpl; [|done].
  destruct (Hwin Hne eq_refl) as [w Hw]. rewrite Hw. simpl.
  destruct (Hknown w Hw) as [_ [p Hp]].
  assert (w ≠ "") as Hw0.
  { intros ->. apply Hempty. unfold roster_keys. apply list_elem_of_fmap.
    exists ("", p). split; [done|]. by apply lookup_player_elem. }
  rewrite (proj2 (String.eqb_neq w "")) by done. simpl. split; [done|].
  exists p. rewrite Hp. simpl. by rewrite (roster_wf_lookup _ _ _ Hwf Hp).
Qed.

(** When the clock has run out on the game of Ann and Bob the application
    shows Ann's card. *)
Lemma finished_game_shows_its_winner_witness :
  AppContent (mkStore (Some lobby_started) (Some game_timed_out)) = ShowVictoryScreen ∧
  ∃ winner,
    GameState.winner game_timed_out = Some (Player.id winner) ∧
    VictoryScreen (Some game_timed_out)
    = Some (Some (winner, length (Player.tiles winner))).
Proof.
  apply (finished_game_shows_its_winner lobby_started game_timed_out).
  - apply reach_tick; [|reflexivity]. apply reach_start, ann_and_bob_lobby.
  - discriminate.
  - by apply (bool_decide_unpack _).
  - reflexivity.
Defined.

(** * Polling *)

Lemma grid_changed (g g1 : Grid) x y t t1 :
  grid_at g x y = Some t → grid_at g1 x y = Some t1 → t1 ≠ t → g1 ≠ g.
Proof. intros Ht Ht1 Hne ->. congruence. Qed.

Lemma ticks_grid now n gs :
  GameState.grid (Nat.iter n (updateResources now) gs) = GameState.grid gs.
Proof.
  induction n as [|n IH]; [done|]. by rewrite Nat.iter_succ, updateResources_grid.
Qed.

(** X20.  A participant whose board equals the sender's board before an
    action takes over the sender's whole snapshot at its next poll of the
    stored item, for every build, every demolition and every claim of a tile
    the sender did not own: each of them changes the grid, and a changed
    grid is what makes the poll replace the local state. *)
Theorem poll_picks_up_actions me gs gs1 local :
  GameState.grid local = GameState.grid gs →
  (∃ x y goldCost unitCost tile,
     grid_at (GameState.grid gs) x y = Some tile ∧ Tile.ownerId tile ≠ Some me ∧
     claimTile_on me gs x y goldCost unitCost = Some (true, gs1))
  ∨ (∃ x y constructType,
       buildConstruct_on me gs x y constructType = Some (true, gs1))
  ∨ (∃ x y, demolishConstruct_on me gs x y = Some (true, gs1)) →
  checkForUpdates_game (Some gs1) (Some local) = Some gs1.
Proof.
  intros Hlocal Haction.
  assert (GameState.grid gs1 ≠ GameState.grid gs) as Hchanged.
  { destruct Haction as [(x & y & gc & uc & tile & Htile & Hown & Hc)
                        |[(x & y & ty & Hb)|(x & y & Hd)]].
    - destruct (claimTile_on_true _ _ _ _ _ _ _ Hc)
        as (tile' & player & Htile' & _ & _ & _ & _ & _ & Hnew & _).
      assert (tile' = tile) as -> by congruence.
      apply (grid_changed _ _ x y _ _ Htile Hnew).
      intros Heq. apply Hown. rewrite <- Heq. done.
    - destruct (buildConstruct_on_true _ _ _ _ _ _ Hb)
        as (tile & player & cost & Htile & _ & Hnone & _ & _ & _ & ->).
      simpl. apply (grid_changed _ _ x y tile (built_tile me ty tile) Htile).
      + by rewrite grid_at_alter_eq, Htile.
      + intros Heq. rewrite <- Heq in Hnone. done.
    - destruct (demolishConstruct_on_true _ _ _ _ _ Hd)
        as (tile & construct & Htile & _ & Hsome & ->).
      simpl. apply (grid_changed _ _ x y tile
                      (demolished_tile (Construct.type construct) tile) Htile).
      + by rewrite grid_at_alter_eq, Htile.
      + intros Heq. rewrite <- Heq in Hsome. done. }
  unfold checkForUpdates_game. rewrite Hlocal.
  rewrite bool_decide_eq_false_2 by done. done.
Qed.

(** Bob, a tick behind, polls after Ann's click on (4, 3). *)
Lemma poll_picks_up_actions_witness :
  checkForUpdates_game (Some game_expanded) (Some game_funded_behind)
  = Some game_expanded.
Proof.
  apply (poll_picks_up_actions "ann" game_funded game_expanded game_funded_behind).
  - unfold game_funded, game_funded_behind. by rewrite !ticks_grid.
  - left. exists 4, 3, 12%Q, 0%Q, (emptyTile 4 3).
    split; [vm_compute; reflexivity|]. split; [discriminate|].
    vm_compute. reflexivity.
Defined.

(** * The turn-based revision *)

Lemma tb_obj_get_alter_eq {V} (f : V → V) k o :
  obj_get k (TurnBased.obj_alter f k o) = f <$> obj_get k o.
Proof.
  induction o as [|[k' v] o IH]; [done|]. simpl.
  destruct (String.eqb k' k) eqn:E; simpl; rewrite E; done.
Qed.

Lemma tb_obj_get_alter_ne {V} (f : V → V) k k' o :
  k ≠ k' → obj_get k' (TurnBased.obj_alter f k o) = obj_get k' o.
Proof.
  intros Hne. induction o as [|[k0 v] o IH]; [done|]. simpl.
  destruct (String.eqb_spec k0 k) as [->|Hk]; simpl.
  - by rewrite (proj2 (String.eqb_neq k k')).
  - by rewrite IH.
Qed.

Lemma tb_keys_obj_alter {V} (f : V → V) k (o : list (string * V)) :
  (TurnBased.obj_alter f k o).*1 = o.*1.
Proof.
  induction o as [|[k' v] o IH]; [done|]. cbn [TurnBased.obj_alter].
  destruct (String.eqb k' k); rewrite !fmap_cons; [done|]. by rewrite IH.
Qed.

Lemma tb_tile_at_take k c x0 y0 g x y :
  TurnBased.tile_at (TurnBased.take_tile k c x0 y0 g) x y =
  if decide (x = x0 ∧ y = y0)
  then (λ t, TurnBased.Tile.mk (TurnBased.Tile.x t) (TurnBased.Tile.y t) (Some k) (Some c))
       <$> TurnBased.tile_at g x y
  else TurnBased.tile_at g x y.
Proof.
  unfold TurnBased.tile_at, TurnBased.take_tile.
  destruct (decide (y = y0)) as [->|Hy].
  - rewrite arr_get_alter_eq. destruct (arr_get g y0) as [row|]; simpl.
    + destruct (decide (x = x0)) as [->|Hx].
      * rewrite arr_get_alter_eq. by rewrite decide_True.
      * rewrite arr_get_alter_ne by done. rewrite decide_False; [done|]. tauto.
    + by destruct (decide _).
  - rewrite arr_get_alter_ne by done. rewrite decide_False; [done|]. tauto.
Qed.

Lemma tb_indexOf_from k (l : list string) : ∀ i j,
  NoDup l → l !! i = Some k →
  TurnBased.indexOf_from k l j = j + Z.of_nat i.
Proof.
  induction l as [|a l IH]; intros i j Hnd Hi; [done|].
  apply NoDup_cons in Hnd as [Ha Hnd]. simpl.
  destruct i as [|i]; simpl in Hi.
  - injection Hi as ->. rewrite String.eqb_refl. lia.
  - destruct (String.eqb_spec a k) as [->|Hne].
    + exfalso. apply Ha. by eapply list_elem_of_lookup_2.
    + rewrite (IH i (j + 1)) by done. lia.
Qed.

(** What a claim that returns [true] has checked and what it has built. *)
Lemma tb_claimTile_true me inLobby gs x y r :
  TurnBased.claimTile me inLobby (Some gs) x y = Some (true, r) →
  ∃ tile p,
    inLobby = true ∧
    TurnBased.GameState.currentTurn gs = Some me ∧
    TurnBased.tile_at (TurnBased.GameState.grid gs) x y = Some tile ∧
    TurnBased.Tile.ownerId tile = None ∧
    obj_get me (TurnBased.GameState.players gs) = Some p ∧
    existsb (adjacent_to x y) (TurnBased.Player.tiles p) = true ∧
    r = Some (TurnBased.GameState.mk
                (TurnBased.GameState.gameStarted gs)
                (arr_get (TurnBased.GameState.players gs).*1
                   (Z.rem (TurnBased.indexOf me (TurnBased.GameState.players gs).*1 + 1)
                          (Z.of_nat (length (TurnBased.GameState.players gs)))))
                (TurnBased.take_tile me (TurnBased.Player.color p) x y
                                     (TurnBased.GameState.grid gs))
                (TurnBased.obj_alter
                   (λ q, TurnBased.Player.set_tiles
                           (TurnBased.Player.tiles q ++ [Coord.mk x y]) q)
                   me (TurnBased.GameState.players gs))).
Proof.
  unfold TurnBased.claimTile. intros H.
  destruct inLobby; [|done]. simpl in H.
  destruct (is_id (TurnBased.GameState.currentTurn gs) me) eqn:Hturn; [|done].
  simpl in H. apply is_id_true in Hturn.
  destruct (obj_get me (TurnBased.GameState.players gs)) as [p|] eqn:Hp; [|done].
  simpl in H.
  destruct (existsb (adjacent_to x y) (TurnBased.Player.tiles p)) eqn:Hadj; [|done].
  simpl in H.
  destruct (arr_get (TurnBased.GameState.grid gs) y) as [row|] eqn:Hrow; [|done].
  simpl in H. destruct (arr_get row x) as [tile|] eqn:Htile; [|done]. simpl in H.
  destruct (bool_decide_reflect (is_Some (TurnBased.Tile.ownerId tile))) as [Ho|Ho];
    [done|].
  injection H as <-. exists tile, p. split; [done|]. split; [done|].
  split. { unfold TurnBased.tile_at. by rewrite Hrow. }
  split. { by destruct (TurnBased.Tile.ownerId tile); [destruct Ho|]. }
  split; [done|]. split; [done|].
  by rewrite tb_keys_obj_alter, length_fmap.
Qed.

Lemma tb_claimTile_false me inLobby gs x y r :
  TurnBased.claimTile me inLobby (Some gs) x y = Some (false, r) → r = Some gs.
Proof.
  unfold TurnBased.claimTile. intros H.
  destruct (negb inLobby || negb (is_id (TurnBased.GameState.currentTurn gs) me));
    [by injection H|].
  destruct (obj_get me (TurnBased.GameState.players gs)) as [p|]; [|done].
  simpl in H.
  destruct (negb (existsb (adjacent_to x y) (TurnBased.Player.tiles p)));
    [by injection H|].
  destruct (arr_get (TurnBased.GameState.grid gs) y) as [row|]; [|done].
  simpl in H. destruct (arr_get row x) as [tile|]; [|done]. simpl in H.
  destruct (bool_decide (is_Some (TurnBased.Tile.ownerId tile))); [by injection H|done].
Qed.

(** X21.  In the turn-based revision a claim is replicated by its move: a
    participant that holds the snapshot the sender held before the claim and
    replays the [CLAIM_TILE] message holds the sender's new snapshot, with
    its lobby state untouched; a refused claim sends nothing and changes
    nothing. *)
Theorem replayed_claim_is_the_claim me inLobby gs x y lobby :
  match TurnBased.claimTile me inLobby (Some gs) x y with
  | Some (true, updated) =>
      ∃ m, TurnBased.claimTile_message me inLobby (Some gs) x y = Some m ∧
           TurnBased.handlePeerMessage m (TurnBased.mkStore lobby (Some gs))
           = Some (TurnBased.mkStore lobby updated)
  | Some (false, unchanged) =>
      unchanged = Some gs ∧
      TurnBased.claimTile_message me inLobby (Some gs) x y = None
  | None => TurnBased.claimTile_message me inLobby (Some gs) x y = None
  end.
Proof.
  unfold TurnBased.claimTile_message.
  destruct (TurnBased.claimTile me inLobby (Some gs) x y) as [[[] r]|] eqn:Hclaim;
    [| |done].
  - destruct (tb_claimTile_true _ _ _ _ _ _ Hclaim)
      as (tile & p & _ & _ & Htile & _ & Hp & _ & ->).
    eexists. split; [done|].
    unfold TurnBased.handlePeerMessage, TurnBased.replay_claim. simpl.
    unfold TurnBased.tile_at in Htile.
    destruct (arr_get (TurnBased.GameState.grid gs) y) as [row|]; [|done].
    simpl in *. rewrite Htile, Hp. done.
  - split; [by eapply tb_claimTile_false|done].
Qed.

(** X22.  A successful claim of the turn-based revision is made by the
    player whose turn it is, on a tile that has no owner and is adjacent to
    one of the player's tiles; it gives that tile the player's id and colour,
    appends it to the player's tile list and changes no other tile and no
    other player.  So no tile ever changes its owner. *)
Theorem turn_based_claim_takes_a_free_neighbour me inLobby gs x y gs1 :
  TurnBased.claimTile me inLobby (Some gs) x y = Some (true, Some gs1) →
  ∃ tile p,
    TurnBased.GameState.currentTurn gs = Some me ∧
    TurnBased.tile_at (TurnBased.GameState.grid gs) x y = Some tile ∧
    TurnBased.Tile.ownerId tile = None ∧
    obj_get me (TurnBased.GameState.players gs) = Some p ∧
    (∃ c, c ∈ TurnBased.Player.tiles p ∧ four_adjacent c x y) ∧
    TurnBased.tile_at (TurnBased.GameState.grid gs1) x y
    = Some (TurnBased.Tile.mk (TurnBased.Tile.x tile) (TurnBased.Tile.y tile)
              (Some me) (Some (TurnBased.Player.color p))) ∧
    (∀ x' y', ¬ (x' = x ∧ y' = y) →
       TurnBased.tile_at (TurnBased.GameState.grid gs1) x' y'
       = TurnBased.tile_at (TurnBased.GameState.grid gs) x' y') ∧
    obj_get me (TurnBased.GameState.players gs1)
    = Some (TurnBased.Player.set_tiles (TurnBased.Player.tiles p ++ [Coord.mk x y]) p) ∧
    (∀ k, k ≠ me →
       obj_get k (TurnBased.GameState.players gs1)
       = obj_get k (TurnBased.GameState.players gs)) ∧
    (∀ x' y' t o,
       TurnBased.tile_at (TurnBased.GameState.grid gs) x' y' = Some t →
       TurnBased.Tile.ownerId t = Some o →
       ∃ t1, TurnBased.tile_at (TurnBased.GameState.grid gs1) x' y' = Some t1 ∧
             TurnBased.Tile.ownerId t1 = Some o).
Proof.
  intros Hclaim.
  destruct (tb_claimTile_true _ _ _ _ _ _ Hclaim)
    as (tile & p & _ & Hturn & Htile & Hfree & Hp & Hadj & [= ->]).
  exists tile, p. simpl.
  split; [done|]. split; [done|]. split; [done|]. split; [done|].
  split; [by apply existsb_adjacent|].
  split. { rewrite tb_tile_at_take, decide_True by done. by rewrite Htile. }
  split. { intros x' y' Hne. by rewrite tb_tile_at_take, decide_False. }
  split. { by rewrite tb_obj_get_alter_eq, Hp. }
  split. { intros k Hk. by rewrite tb_obj_get_alter_ne. }
  intros x' y' t o Ht Ho. rewrite tb_tile_at_take.
  destruct (decide (x' = x ∧ y' = y)) as [[-> ->]|Hne].
  - assert (t = tile) as -> by congruence. congruence.
  - eauto.
Qed.

(** Ann's opening move. *)
Lemma turn_based_claim_takes_a_free_neighbour_witness :
  ∃ tile p,
    TurnBased.GameState.currentTurn TurnBased.game_started = Some "ann" ∧
    TurnBased.tile_at (TurnBased.GameState.grid TurnBased.game_started) 4 3 = Some tile ∧
    TurnBased.Tile.ownerId tile = None ∧
    obj_get "ann" (TurnBased.GameState.players TurnBased.game_started) = Some p ∧
    (∃ c, c ∈ TurnBased.Player.tiles p ∧ four_adjacent c 4 3) ∧
    TurnBased.tile_at (TurnBased.GameState.grid TurnBased.game_after_ann) 4 3
    = Some (TurnBased.Tile.mk (TurnBased.Tile.x tile) (TurnBased.Tile.y tile)
              (Some "ann") (Some (TurnBased.Player.color p))) ∧
    (∀ x' y', ¬ (x' = 4 ∧ y' = 3) →
       TurnBased.tile_at (TurnBased.GameState.grid TurnBased.game_after_ann) x' y'
       = TurnBased.tile_at (TurnBased.GameState.grid TurnBased.game_started) x' y') ∧
    obj_get "ann" (TurnBased.GameState.players TurnBased.game_after_ann)
    = Some (TurnBased.Player.set_tiles (TurnBased.Player.tiles p ++ [Coord.mk 4 3]) p) ∧
    (∀ k, k ≠ "ann" →
       obj_get k (TurnBased.GameState.players TurnBased.game_after_ann)
       = obj_get k (TurnBased.GameState.players TurnBased.game_started)) ∧
    (∀ x' y' t o,
       TurnBased.tile_at (TurnBased.GameState.grid TurnBased.game_started) x' y' = Some t →
       TurnBased.Tile.ownerId t = Some o →
       ∃ t1, TurnBased.tile_at (TurnBased.GameState.grid TurnBased.game_after_ann) x' y'
             = Some t1 ∧
             TurnBased.Tile.ownerId t1 = Some o).
Proof.
  apply (turn_based_claim_takes_a_free_neighbour "ann" true TurnBased.game_started 4 3
           TurnBased.game_after_ann).
  vm_compute. reflexivity.
Defined.

Lemma forEach_elem {A} (body : list (Z * Z) → A → option (list (Z * Z)))
    (P : A → Z * Z → Prop) (l : list A) :
  (∀ s a s', body s a = Some s' → ∀ c, c ∈ s' → c ∈ s ∨ P a c) →
  ∀ s s', forEach body l s = Some s' →
          ∀ c, c ∈ s' → c ∈ s ∨ ∃ a, a ∈ l ∧ P a c.
Proof.
  intros Hbody. induction l as [|a l IH]; intros s s' Hs c Hc; simpl in Hs.
  - injection Hs as <-. by left.
  - destruct (body s a) as [s1|] eqn:H1; [|done]. simpl in Hs.
    destruct (IH s1 s' Hs c Hc) as [Hin|(a' & Ha' & HP)].
    + destruct (Hbody s a s1 H1 c Hin) as [?|HP]; [by left|].
      right. exists a. split; [apply list_elem_of_here|done].
    + right. exists a'. split; [by apply list_elem_of_further|done].
Qed.

Lemma tb_check_direction_elem gs tile s d s' :
  TurnBased.check_direction gs tile s d = Some s' →
  ∀ c, c ∈ s' →
       c ∈ s ∨ (c = (Coord.x tile + d.1, Coord.y tile + d.2) ∧
                ∃ cell, TurnBased.tile_at (TurnBased.GameState.grid gs) c.1 c.2
                        = Some cell ∧
                        TurnBased.Tile.ownerId cell = None).
Proof.
  unfold TurnBased.check_direction. intros H c Hc.
  destruct (_ && _); [|injection H as <-; by left].
  destruct (arr_get (TurnBased.GameState.grid gs) (Coord.y tile + d.2))
    as [row|] eqn:Hrow; [|done].
  simpl in H.
  destruct (arr_get row (Coord.x tile + d.1)) as [cell|] eqn:Hcell; [|done].
  simpl in H. injection H as <-.
  destruct (bool_decide_reflect (TurnBased.Tile.ownerId cell = None)) as [Ho|Ho];
    [|by left].
  apply elem_of_set_add in Hc as [?| ->]; [by left|]. right. split; [done|].
  exists cell. split; [|done]. unfold TurnBased.tile_at. simpl. by rewrite Hrow.
Qed.

(** What the board of the turn-based revision knows of a cell it offers. *)
Lemma tb_offered me gs cells x y :
  TurnBased.getAdjacentCells me gs = Some cells → (x, y) ∈ cells →
  TurnBased.GameState.currentTurn gs = Some me ∧
  ∃ p tile,
    obj_get me (TurnBased.GameState.players gs) = Some p ∧
    TurnBased.tile_at (TurnBased.GameState.grid gs) x y = Some tile ∧
    TurnBased.Tile.ownerId tile = None ∧
    ∃ c, c ∈ TurnBased.Player.tiles p ∧ four_adjacent c x y.
Proof.
  unfold TurnBased.getAdjacentCells. intros H Hin.
  remember (λ adjacentSet tile,
              forEach (TurnBased.check_direction gs tile) directions adjacentSet)
    as body eqn:Hbody.
  destruct (is_id (TurnBased.GameState.currentTurn gs) me) eqn:Hturn; simpl in H.
  2: { injection H as <-. by apply elem_of_nil in Hin. }
  apply is_id_true in Hturn. split; [done|].
  destruct (obj_get me (TurnBased.GameState.players gs)) as [p|]; [|done].
  simpl in H. exists p.
  assert (∀ s tile s', body s tile = Some s' → ∀ c, c ∈ s' →
            c ∈ s ∨ ∃ d, d ∈ directions ∧
              (c = (Coord.x tile + d.1, Coord.y tile + d.2) ∧
               ∃ cell, TurnBased.tile_at (TurnBased.GameState.grid gs) c.1 c.2
                       = Some cell ∧
                       TurnBased.Tile.ownerId cell = None)) as Hstep.
  { intros s tile s' Hs c Hc. rewrite Hbody in Hs.
    apply (forEach_elem (TurnBased.check_direction gs tile)
             (λ d c, c = (Coord.x tile + d.1, Coord.y tile + d.2) ∧
                     ∃ cell, TurnBased.tile_at (TurnBased.GameState.grid gs) c.1 c.2
                             = Some cell ∧
                             TurnBased.Tile.ownerId cell = None)
             directions) with (s := s) (s' := s'); [|done..].
    intros s0 d s1. apply tb_check_direction_elem. }
  destruct (forEach_elem body
              (λ tile c, ∃ d, d ∈ directions ∧
                 (c = (Coord.x tile + d.1, Coord.y tile + d.2) ∧
                  ∃ cell, TurnBased.tile_at (TurnBased.GameState.grid gs) c.1 c.2
                          = Some cell ∧
                          TurnBased.Tile.ownerId cell = None))
              (TurnBased.Player.tiles p) Hstep [] cells H (x, y) Hin)
    as [Hnil%elem_of_nil|(tile & Htile & d & Hd & Hc & cell & Hcell & Hfree)]; [done|].
  exists cell. split; [done|]. split; [done|]. split; [done|].
  exists tile. split; [done|]. apply directions_adjacent. eauto.
Qed.

Lemma tb_click_claims me gs cells x y :
  TurnBased.getAdjacentCells me gs = Some cells → (x, y) ∈ cells →
  ∃ gs1, TurnBased.claimTile me true (Some gs) x y = Some (true, Some gs1) ∧
         TurnBased.handleCellClick me gs x y = Some (Some gs1).
Proof.
  intros Hcells Hin.
  destruct (tb_offered me gs cells x y Hcells Hin)
    as (Hturn & p & tile & Hp & Htile & Hfree & Hadj).
  assert (∃ gs1, TurnBased.claimTile me true (Some gs) x y = Some (true, Some gs1))
    as [gs1 Hclaim].
  { unfold TurnBased.claimTile. simpl.
    rewrite (proj2 (is_id_true _ _) Hturn). simpl. rewrite Hp. simpl.
    rewrite (proj2 (existsb_adjacent _ _ _) Hadj). simpl.
    unfold TurnBased.tile_at in Htile.
    destruct (arr_get (TurnBased.GameState.grid gs) y) as [row|]; [|done].
    simpl in *. rewrite Htile. simpl. rewrite Hfree.
    rewrite bool_decide_eq_false_2 by (by intros [? [=]]). eauto. }
  exists gs1. split; [done|]. unfold TurnBased.handleCellClick.
  rewrite Hcells. cbn [mbind option_bind]. rewrite (proj2 (is_id_true _ _) Hturn).
  rewrite bool_decide_eq_true_2 by done. cbn [andb]. by rewrite Hclaim.
Qed.

(** X23.  In the turn-based revision the board offers a player only moves
    the provider accepts: a click on an offered cell is a successful claim,
    and a click changes the snapshot in no other way. *)
Theorem turn_based_click_is_an_accepted_claim me gs cells x y :
  TurnBased.getAdjacentCells me gs = Some cells →
  if bool_decide ((x, y) ∈ cells) then
    ∃ gs1, TurnBased.claimTile me true (Some gs) x y = Some (true, Some gs1) ∧
           TurnBased.handleCellClick me gs x y = Some (Some gs1) ∧
           gs1 ≠ gs
  else TurnBased.handleCellClick me gs x y = Some (Some gs).
Proof.
  intros Hcells. destruct (bool_decide_reflect ((x, y) ∈ cells)) as [Hin|Hin].
  - destruct (tb_click_claims me gs cells x y Hcells Hin) as (gs1 & Hclaim & Hclick).
    exists gs1. split; [done|]. split; [done|].
    destruct (tb_offered me gs cells x y Hcells Hin)
      as (_ & p & tile & _ & Htile & Hfree & _).
    destruct (tb_claimTile_true _ _ _ _ _ _ Hclaim)
      as (tile' & p' & _ & _ & _ & _ & _ & _ & [= ->]).
    intros Heq. apply (f_equal TurnBased.GameState.grid) in Heq. simpl in Heq.
    pose proof (tb_tile_at_take me (TurnBased.Player.color p') x y
                  (TurnBased.GameState.grid gs) x y) as Hnew.
    rewrite Heq, decide_True, Htile in Hnew by done.
    injection Hnew as Hnew. rewrite Hnew in Hfree. done.
  - unfold TurnBased.handleCellClick. rewrite Hcells. cbn [mbind option_bind].
    rewrite bool_decide_eq_false_2 by done. by rewrite andb_false_r.
Qed.

(** At the start Ann is offered the four neighbours of (3, 3); (4, 3) is one
    of them. *)
Lemma turn_based_click_is_an_accepted_claim_witness :
  ∃ gs1, TurnBased.claimTile "ann" true (Some TurnBased.game_started) 4 3
         = Some (true, Some gs1) ∧
         TurnBased.handleCellClick "ann" TurnBased.game_started 4 3 = Some (Some gs1) ∧
         gs1 ≠ TurnBased.game_started.
Proof.
  apply (turn_based_click_is_an_accepted_claim "ann" TurnBased.game_started
           [(4, 3); (2, 3); (3, 4); (3, 2)] 4 3).
  vm_compute. reflexivity.
Defined.

Lemma tb_next_index i len :
  (i < len)%nat →
  Z.rem (Z.of_nat i + 1) (Z.of_nat len) = Z.of_nat ((i + 1) mod len).
Proof.
  intros Hi. rewrite Z.rem_mod_nonneg by lia.
  rewrite Nat2Z.inj_mod, Nat2Z.inj_add. done.
Qed.

Lemma tb_rounds_turn gs n gs' :
  TurnBased.rounds gs n gs' →
  ∀ i me0,
    NoDup (TurnBased.GameState.players gs).*1 →
    (TurnBased.GameState.players gs).*1 !! i = Some me0 →
    TurnBased.GameState.currentTurn gs = Some me0 →
    (TurnBased.GameState.players gs').*1 = (TurnBased.GameState.players gs).*1 ∧
    TurnBased.GameState.currentTurn gs'
    = (TurnBased.GameState.players gs).*1
        !! ((i + n) mod length (TurnBased.GameState.players gs))%nat.
Proof.
  induction 1 as [gs|gs me x y cells gs1 n gs2 Hturn Hcells Hin Hclick _ IH];
    intros i me0 Hnd Hi Hturn0.
  - split; [done|]. pose proof (lookup_lt_Some _ _ _ Hi) as Hlt.
    rewrite length_fmap in Hlt. by rewrite Nat.add_0_r, Nat.mod_small, Hi.
  - assert (me0 = me) as -> by congruence.
    destruct (tb_click_claims me gs cells x y Hcells Hin) as (gs1' & Hclaim & Hclick').
    assert (gs1' = gs1) as -> by congruence.
    destruct (tb_claimTile_true _ _ _ _ _ _ Hclaim)
      as (tile & p & _ & _ & _ & _ & _ & _ & [= Hgs1]).
    pose proof (lookup_lt_Some _ _ _ Hi) as Hlt. rewrite length_fmap in Hlt.
    set (len := length (TurnBased.GameState.players gs)) in *.
    assert ((TurnBased.GameState.players gs1).*1 = (TurnBased.GameState.players gs).*1)
      as Hkeys.
    { rewrite Hgs1. simpl. apply tb_keys_obj_alter. }
    assert (TurnBased.GameState.currentTurn gs1
            = (TurnBased.GameState.players gs).*1 !! ((i + 1) mod len)%nat) as Hnext.
    { rewrite Hgs1. simpl. unfold TurnBased.indexOf.
      rewrite (tb_indexOf_from me _ i 0 Hnd Hi), Z.add_0_l.
      fold len. rewrite tb_next_index by done.
      unfold arr_get. rewrite (proj2 (Z.ltb_ge _ _)) by lia. by rewrite Nat2Z.id. }
    assert (((i + 1) mod len < len)%nat) as Hlt1 by (apply Nat.mod_upper_bound; lia).
    destruct ((TurnBased.GameState.players gs).*1 !! ((i + 1) mod len)%nat)
      as [me1|] eqn:Hme1.
    2: { apply lookup_ge_None in Hme1. rewrite length_fmap in Hme1. fold len in Hme1. lia. }
    destruct (IH ((i + 1) mod len)%nat me1) as [Hkeys2 Hturn2].
    + by rewrite Hkeys.
    + by rewrite Hkeys.
    + done.
    + split; [congruence|].
      rewrite Hturn2, Hkeys.
      assert (length (TurnBased.GameState.players gs1) = len) as ->.
      { by rewrite <- (length_fmap fst), Hkeys, length_fmap. }
      f_equal. rewrite Nat.Div0.add_mod_idemp_l. f_equal. lia.
Qed.

(** X24.  In the turn-based revision the turn goes round the roster in its
    order: after [n] clicks, each by the player whose turn it is on a cell
    offered to that player, the roster's ids are as before and the turn is
    [n] places further on, wrapping around; after as many clicks as there are
    players it is back where it was. *)
Theorem turn_goes_round_the_roster gs n gs' i me :
  TurnBased.rounds gs n gs' →
  NoDup (TurnBased.GameState.players gs).*1 →
  (TurnBased.GameState.players gs).*1 !! i = Some me →
  TurnBased.GameState.currentTurn gs = Some me →
  (TurnBased.GameState.players gs').*1 = (TurnBased.GameState.players gs).*1 ∧
  TurnBased.GameState.currentTurn gs'
  = (TurnBased.GameState.players gs).*1
      !! ((i + n) mod length (TurnBased.GameState.players gs))%nat ∧
  (n = length (TurnBased.GameState.players gs) →
   TurnBased.GameState.currentTurn gs' = Some me).
Proof.
  intros Hrounds Hnd Hi Hturn.
  destruct (tb_rounds_turn gs n gs' Hrounds i me Hnd Hi Hturn) as [Hkeys Hnext].
  split; [done|]. split; [done|]. intros ->. rewrite Hnext.
  pose proof (lookup_lt_Some _ _ _ Hi) as Hlt. rewrite length_fmap in Hlt.
  rewrite <- (Nat.mul_1_l (length (TurnBased.GameState.players gs))) at 1.
  rewrite Nat.Div0.mod_add, Nat.mod_small by done. done.
Qed.

Lemma tb_two_rounds :
  TurnBased.rounds TurnBased.game_started 2 TurnBased.game_after_bob.
Proof.
  apply (TurnBased.rounds_S TurnBased.game_started "ann" 4 3
           [(4, 3); (2, 3); (3, 4); (3, 2)] TurnBased.game_after_ann).
  - reflexivity.
  - vm_compute. reflexivity.
  - by apply (bool_decide_unpack _).
  - vm_compute. reflexivity.
  - apply (TurnBased.rounds_S TurnBased.game_after_ann "bob" 19 20
             [(21, 20); (19, 20); (20, 21); (20, 19)] TurnBased.game_after_bob).
    + vm_compute. reflexivity.
    + vm_compute. reflexivity.
    + by apply (bool_decide_unpack _).
    + vm_compute. reflexivity.
    + apply TurnBased.rounds_0.
Qed.

(** After Ann's and Bob's moves it is Ann's turn again. *)
Lemma turn_goes_round_the_roster_witness :
  (TurnBased.GameState.players TurnBased.game_after_bob).*1
  = (TurnBased.GameState.players TurnBased.game_started).*1 ∧
  TurnBased.GameState.currentTurn TurnBased.game_after_bob
  = (TurnBased.GameState.players TurnBased.game_started).*1
      !! ((0 + 2) mod length (TurnBased.GameState.players TurnBased.game_started))%nat ∧
  (2%nat = length (TurnBased.GameState.players TurnBased.game_started) →
   TurnBased.GameState.currentTurn TurnBased.game_after_bob = Some "ann").
Proof.
  apply (turn_goes_round_the_roster TurnBased.game_started 2 TurnBased.game_after_bob
           0 "ann").
  - exact tb_two_rounds.
  - by apply (bool_decide_unpack _).
  - reflexivity.
  - reflexivity.
Defined.
